(** * k8s-pod-deleter: the controller of [pkg/controller/controller.go]

    A shallow embedding of the controller that lists the pods of a cluster
    and deletes those stuck in one of a configured set of reasons, and the
    properties its specification states about a single pass ([Once]) and
    about the periodic loop ([Loop]).

    The cluster, the clock, the context and the two channels [Loop] selects
    on are outside the program.  They are modelled as operations on an
    abstract world state [W]: every operation returns its answer together
    with the next world, so that anything another goroutine or the cluster
    does between two operations of the controller is part of the world's
    own evolution.  Every operation the controller performs is also
    recorded, with its answer, in a trace of events; the properties are
    statements about that trace and about the value returned. *)

From Stdlib Require Import ZArith Lia.
From stdpp Require Import base strings list gmap.

Local Open Scope string_scope.
Local Open Scope Z_scope.
Local Open Scope list_scope.

(** ** The Go libraries the controller uses *)

(** Package [time].  A [Time] is an instant, a [Duration] a signed number
    of nanoseconds; both are unbounded integers here (timestamps of the
    cluster API lie in the years 0 to 9999, far from the ends of Go's
    representation). *)
Module time.
Definition Time : Type := Z.
Definition Duration : Type := Z.
Definition Nanosecond : Duration := 1.
Definition Second : Duration := 1000000000 * Nanosecond.
Definition Minute : Duration := 60 * Second.
Definition Hour : Duration := 60 * Minute.

(** [t.Add(d)] returns the time [t+d]. *)
Definition Add (t : Time) (d : Duration) : Time := t + d.
(** [t.After(u)] reports whether the instant [t] is after [u]. *)
Definition After (t u : Time) : bool := u <? t.
End time.

(** Package [k8s.io/api/core/v1], the fields of a pod the controller reads. *)
Module v1.
(** [type PodPhase string], with the five values the API defines. *)
Definition PodPhase : Type := string.
Definition PodPending : PodPhase := "Pending".
Definition PodRunning : PodPhase := "Running".
Definition PodSucceeded : PodPhase := "Succeeded".
Definition PodFailed : PodPhase := "Failed".
Definition PodUnknown : PodPhase := "Unknown".

Record ContainerStateWaiting := { Waiting_Reason : string }.
Record ContainerStateRunning := { }.
Record ContainerStateTerminated := { Terminated_Reason : string }.

(** The three members are pointers in Go: [None] is the nil pointer. *)
Record ContainerState := {
  Waiting : option ContainerStateWaiting;
  Running : option ContainerStateRunning;
  Terminated : option ContainerStateTerminated
}.

Record ContainerStatus := { State : ContainerState }.

Record ObjectMeta := {
  Name : string;
  Namespace : string;
  CreationTimestamp : time.Time
}.

Record PodStatus := {
  Phase : PodPhase;
  ContainerStatuses : list ContainerStatus
}.

Record Pod := { Meta : ObjectMeta; Status : PodStatus }.
End v1.

(** Go's [error] values: an API status error with its reason, any other
    error, and the wrapper of package [github.com/pkg/errors]. *)
Inductive error : Type :=
| StatusError (reason : string) (message : string)
| errorString (message : string)
| withMessage (cause : error) (message : string).

Module errors.
(** [errors.Wrap(err, message)] for a non-nil [err]. *)
Definition Wrap (err : error) (message : string) : error :=
  withMessage err message.
End errors.

Module k8sErrors.
Definition StatusReasonNotFound : string := "NotFound".
(** [IsNotFound] looks at the status reason of the error it is given; it
    does not look inside a wrapper. *)
Definition IsNotFound (err : error) : bool :=
  match err with
  | StatusError reason _ => String.eqb reason StatusReasonNotFound
  | _ => false
  end.
End k8sErrors.

(** Package [go.uber.org/zap]: a logger is its context fields; a log call
    hands an entry to the sink. *)
Module zap.
Inductive Level := DebugLevel | InfoLevel.
Inductive Field :=
| String (key value : string)
| Bool (key : string) (value : bool)
| Time (key : string) (value : time.Time).
Record Logger := { context : list Field }.
Record Entry := { level : Level; message : string; fields : list Field }.

Definition NewNop : Logger := {| context := [] |}.
Definition With (l : Logger) (fs : list Field) : Logger :=
  {| context := context l ++ fs |}.
End zap.

(** ** Events and the world *)

(** The case a [select] of [Loop] takes: a tick of the ticker or a value
    on the stop channel. *)
Inductive SelectCase := TickCase | StopCase.

(** What the controller does to the world, with the answer it got. *)
Inductive Event : Type :=
| EvListPods (namespace selector : string) (pods : list v1.Pod)
    (err : option error)
| EvDone (cancelled : bool)
| EvNow (t : time.Time)
| EvLog (entry : zap.Entry)
| EvDeletePod (namespace name : string) (err : option error)
| EvSelect (case : SelectCase)
| EvCancel.

(** What a call returns to its caller: a Go [error] ([None] is nil), or a
    panic that unwinds through it. *)
Inductive Outcome : Type :=
| Return (err : option error)
| Panic.

Module controller.

(** The parts of the world no interface of the controller names:
    [time.Now()], [zap.NewProduction()] and the [select] of [Loop]. *)
Class Runtime (W : Type) := {
  time_Now : W -> time.Time * W;
  zap_NewProduction : zap.Logger + error;
  Loop_select : W -> SelectCase * W
}.

Section Controller.
Context {W : Type} `{rt : Runtime W}.

(** A computation: from a world to a result, the next world and the
    events performed. *)
Definition M (A : Type) : Type := W -> A * W * list Event.

Definition ret {A} (a : A) : M A := fun w => (a, w, []).

Definition bind {A B} (m : M A) (f : A -> M B) : M B :=
  fun w =>
    let '(a, w1, t1) := m w in
    let '(b, w2, t2) := f a w1 in
    (b, w2, t1 ++ t2).

Definition emit (e : Event) : M unit := fun w => (tt, w, [e]).

(** [PodLister] gets a list of pods. *)
Record PodLister := {
  ListPods : string -> string -> W -> (list v1.Pod * option error) * W
}.

(** [PodDeleter] deletes a pod. *)
Record PodDeleter := {
  DeletePod : string -> string -> W -> option error * W
}.

(** [context.Context]: [Done] is the outcome of the non-blocking receive
    from [ctx.Done()], true when the context is cancelled. *)
Record Context_ := { Done : W -> bool * W }.

(** [Controller] holds a lister, a deleter and the options.  The stop
    channel is the [StopCase] of [Loop_select].  The lister and the
    deleter held here are not nil, and the map is made: what [New] and
    [Once] do with nil values is in module [nilable]. *)
Record Controller := {
  lister : PodLister;
  deleter : PodDeleter;
  namespace : string;
  selector : string;
  logger : option zap.Logger;
  grace : time.Duration;
  interval : time.Duration;
  dryRun : bool;
  reasons : list string;
  reasonsMap : gmap string bool
}.

(** *** The operations on the world, each leaving its event *)

Definition callListPods (l : PodLister) (ns sel : string)
  : M (list v1.Pod * option error) :=
  fun w =>
    let '(r, w1) := ListPods l ns sel w in
    (r, w1, [EvListPods ns sel r.1 r.2]).

Definition callDeletePod (d : PodDeleter) (ns name : string)
  : M (option error) :=
  fun w =>
    let '(err, w1) := DeletePod d ns name w in
    (err, w1, [EvDeletePod ns name err]).

Definition ctxDone (ctx : Context_) : M bool :=
  fun w => let '(b, w1) := Done ctx w in (b, w1, [EvDone b]).

Definition timeNow : M time.Time :=
  fun w => let '(t, w1) := time_Now w in (t, w1, [EvNow t]).

Definition selectLoop : M SelectCase :=
  fun w => let '(sc, w1) := Loop_select w in (sc, w1, [EvSelect sc]).

Definition logEvent (lvl : zap.Level) (l : zap.Logger) (msg : string)
    (fs : list zap.Field) : Event :=
  EvLog {| zap.level := lvl; zap.message := msg;
           zap.fields := zap.context l ++ fs |}.

Definition logDebug (l : zap.Logger) (msg : string) (fs : list zap.Field)
  : M unit :=
  emit (logEvent zap.DebugLevel l msg fs).

Definition logInfo (l : zap.Logger) (msg : string) (fs : list zap.Field)
  : M unit :=
  emit (logEvent zap.InfoLevel l msg fs).
End Controller.

Arguments PodLister : clear implicits.
Arguments PodDeleter : clear implicits.
Arguments Context_ : clear implicits.
Arguments Controller : clear implicits.
Arguments M : clear implicits.

Notation "x <~ m ; k" := (bind m (fun x => k))
  (at level 20, m at level 100, k at level 200, only parsing).
Notation "m ;> k" := (bind m (fun _ => k))
  (at level 100, k at level 200, only parsing, right associativity).

Section Construction.
Context {W : Type} `{rt : Runtime W}.

(** [DefaultReasons] is the reasons to delete a pod. *)
Definition DefaultReasons : list string := ["CrashLoopBackOff"; "Error"].

(** [Option] sets options when creating a new controller: in Go a
    function from a pointer to the controller to an [error], here the
    controller it leaves and the error it returns. *)
Definition Option_ : Type := Controller W -> Controller W * option error.

Definition set_namespace (v : string) (c : Controller W) : Controller W :=
  {| lister := lister c; deleter := deleter c; namespace := v;
     selector := selector c; logger := logger c; grace := grace c;
     interval := interval c; dryRun := dryRun c; reasons := reasons c;
     reasonsMap := reasonsMap c |}.

Definition set_selector (v : string) (c : Controller W) : Controller W :=
  {| lister := lister c; deleter := deleter c; namespace := namespace c;
     selector := v; logger := logger c; grace := grace c;
     interval := interval c; dryRun := dryRun c; reasons := reasons c;
     reasonsMap := reasonsMap c |}.

Definition set_logger (v : option zap.Logger) (c : Controller W)
  : Controller W :=
  {| lister := lister c; deleter := deleter c; namespace := namespace c;
     selector := selector c; logger := v; grace := grace c;
     interval := interval c; dryRun := dryRun c; reasons := reasons c;
     reasonsMap := reasonsMap c |}.

Definition set_grace (v : time.Duration) (c : Controller W) : Controller W :=
  {| lister := lister c; deleter := deleter c; namespace := namespace c;
     selector := selector c; logger := logger c; grace := v;
     interval := interval c; dryRun := dryRun c; reasons := reasons c;
     reasonsMap := reasonsMap c |}.

Definition set_interval (v : time.Duration) (c : Controller W)
  : Controller W :=
  {| lister := lister c; deleter := deleter c; namespace := namespace c;
     selector := selector c; logger := logger c; grace := grace c;
     interval := v; dryRun := dryRun c; reasons := reasons c;
     reasonsMap := reasonsMap c |}.

Definition set_dryRun (v : bool) (c : Controller W) : Controller W :=
  {| lister := lister c; deleter := deleter c; namespace := namespace c;
     selector := selector c; logger := logger c; grace := grace c;
     interval := interval c; dryRun := v; reasons := reasons c;
     reasonsMap := reasonsMap c |}.

Definition set_reasons (v : list string) (c : Controller W) : Controller W :=
  {| lister := lister c; deleter := deleter c; namespace := namespace c;
     selector := selector c; logger := logger c; grace := grace c;
     interval := interval c; dryRun := dryRun c; reasons := v;
     reasonsMap := reasonsMap c |}.

Definition set_reasonsMap (v : gmap string bool) (c : Controller W)
  : Controller W :=
  {| lister := lister c; deleter := deleter c; namespace := namespace c;
     selector := selector c; logger := logger c; grace := grace c;
     interval := interval c; dryRun := dryRun c; reasons := reasons c;
     reasonsMap := v |}.

Definition set_deleter (v : PodDeleter W) (c : Controller W) : Controller W :=
  {| lister := lister c; deleter := v; namespace := namespace c;
     selector := selector c; logger := logger c; grace := grace c;
     interval := interval c; dryRun := dryRun c; reasons := reasons c;
     reasonsMap := reasonsMap c |}.

(** [WithDryRun] sets the dryrun flag.  When true, pods will not
    actually be deleted. *)
Definition WithDryRun (dryrun : bool) : Option_ :=
  fun c => (set_dryRun dryrun c, None).

(** [WithLogger] sets the logger. *)
Definition WithLogger (l : option zap.Logger) : Option_ :=
  fun c => (set_logger l c, None).

(** [WithNamespace] sets the namespace. *)
Definition WithNamespace (ns : string) : Option_ :=
  fun c => (set_namespace ns c, None).

(** [WithSelector] sets the label selector used when listing pods. *)
Definition WithSelector (sel : string) : Option_ :=
  fun c => (set_selector sel c, None).

(** [WithGrace] sets the grace period for pod deletions. *)
Definition WithGrace (d : time.Duration) : Option_ :=
  fun c => (set_grace d c, None).

(** [WithInterval] sets the loop interval. *)
Definition WithInterval (d : time.Duration) : Option_ :=
  fun c => (set_interval d c, None).

(** [WithReasons] sets the reasons to delete a pod. *)
Definition WithReasons (rs : list string) : Option_ :=
  fun c => (set_reasons rs c, None).

(** The loop of [New] over its options: the first error stops it. *)
Fixpoint applyOptions (options : list Option_) (c : Controller W)
  : Controller W * option error :=
  match options with
  | [] => (c, None)
  | o :: rest =>
      let '(c1, err) := o c in
      match err with
      | Some e => (c1, Some (errors.Wrap e "option failed"))
      | None => applyOptions rest c1
      end
  end.

(** The last loop of [New]: [c.reasonsMap[r] = true] for every reason. *)
Fixpoint fillReasonsMap (rs : list string) (m : gmap string bool)
  : gmap string bool :=
  match rs with
  | [] => m
  | r :: rest => fillReasonsMap rest (<[r := true]> m)
  end.

(** [New] creates a new controller. *)
Definition New (l : PodLister W) (d : PodDeleter W) (options : list Option_)
  : option (Controller W) * option error :=
  let c := {| lister := l; deleter := d; namespace := ""; selector := "";
              logger := None;
              grace := time.Minute * 30; interval := time.Minute * 10;
              dryRun := false; reasons := DefaultReasons;
              reasonsMap := ∅ |} in
  let '(c, err) := applyOptions options c in
  match err with
  | Some e => (None, Some e)
  | None =>
      let built (c : Controller W) :=
        (Some (set_reasonsMap (fillReasonsMap (reasons c) (reasonsMap c)) c),
         None) in
      match logger c with
      | Some _ => built c
      | None =>
          match zap_NewProduction with
          | inr e => (None, Some (errors.Wrap e "failed to create logger"))
          | inl lg => built (set_logger (Some lg) c)
          end
      end
  end.
End Construction.

Section Passes.
Context {W : Type} `{rt : Runtime W}.

(** The reason of a container status: that of its terminated state when
    it has one, else that of its waiting state, else empty. *)
Definition statusReason (status : v1.ContainerStatus) : string :=
  match v1.Terminated (v1.State status) with
  | Some t => v1.Terminated_Reason t
  | None =>
      match v1.Waiting (v1.State status) with
      | Some wt => v1.Waiting_Reason wt
      | None => ""
      end
  end.

(** The [switch] on the phase: the case that skips the pod. *)
Definition skippedPhase (phase : v1.PodPhase) : bool :=
  bool_decide (phase = v1.PodPending)
  || bool_decide (phase = v1.PodSucceeded)
  || bool_decide (phase = v1.PodUnknown).

(** [errors.Wrapf(err, "failed to delete pod %s/%s", namespace, name)]. *)
Definition wrapDelete (err : error) (ns name : string) : error :=
  errors.Wrap err
    (String.append "failed to delete pod "
       (String.append ns (String.append "/" name))).

(** The loop labelled [STATUS] over the container statuses of one pod.
    It returns the error [Once] returns from inside it, or [None] when it
    runs to its end. *)
Fixpoint rangeStatuses (c : Controller W) (logger : zap.Logger)
    (pod : v1.Pod) (statuses : list v1.ContainerStatus)
  : M W (option error) :=
  match statuses with
  | [] => ret None
  | status :: rest =>
      let reason := statusReason status in
      match reasonsMap c !! reason with
      | None =>
          logDebug logger "skipping pod"
            [zap.String "reason" "Reason"; zap.String "Reason" reason] ;>
          rangeStatuses c logger pod rest
      | Some _ =>
          logInfo logger "deleting pod"
            [zap.String "Reason" reason; zap.Bool "dry-run" (dryRun c)] ;>
          if negb (dryRun c) then
            err <~ callDeletePod (deleter c)
                     (v1.Namespace (v1.Meta pod)) (v1.Name (v1.Meta pod)) ;
            match err with
            | Some e =>
                (* if not found is fine as pod may have exited *)
                if negb (k8sErrors.IsNotFound e) then
                  ret (Some (wrapDelete e (v1.Namespace (v1.Meta pod))
                               (v1.Name (v1.Meta pod))))
                else rangeStatuses c logger pod rest
            | None => rangeStatuses c logger pod rest
            end
          else rangeStatuses c logger pod rest
      end
  end.

(** The loop of [Once] over the pods listed.  A nil [c.logger] makes
    [c.logger.With] panic. *)
Fixpoint rangePods (c : Controller W) (ctx : Context_ W)
    (pods : list v1.Pod) : M W Outcome :=
  match pods with
  | [] => ret (Return None)
  | pod :: rest =>
      (* we only check at the beginning of loop if we are done *)
      done <~ ctxDone ctx ;
      if done then ret (Return None) else
      match logger c with
      | None => ret Panic
      | Some lg =>
          let logger :=
            zap.With lg
              [zap.String "namespace" (v1.Namespace (v1.Meta pod));
               zap.String "name" (v1.Name (v1.Meta pod))] in
          if skippedPhase (v1.Phase (v1.Status pod)) then
            logDebug logger "skipping pod"
              [zap.String "reason" "PodPhase";
               zap.String "PodPhase" (v1.Phase (v1.Status pod))] ;>
            rangePods c ctx rest
          else
            (* only look at pods that are older than the grace period *)
            now <~ timeNow ;
            if time.After
                 (time.Add (v1.CreationTimestamp (v1.Meta pod)) (grace c))
                 now
            then
              logDebug logger "skipping pod"
                [zap.String "reason" "CreationTimestamp";
                 zap.Time "CreationTimestamp"
                   (v1.CreationTimestamp (v1.Meta pod))] ;>
              rangePods c ctx rest
            else
              err <~ rangeStatuses c logger pod
                       (v1.ContainerStatuses (v1.Status pod)) ;
              match err with
              | Some e => ret (Return (Some e))
              | None => rangePods c ctx rest
              end
      end
  end.

(** [Once] will list all pods and delete those that are in certain
    states and are at least the grace period old. *)
Definition Once (c : Controller W) (ctx : Context_ W) : M W Outcome :=
  r <~ callListPods (lister c) (namespace c) (selector c) ;
  match r.2 with
  | Some err => ret (Return (Some (errors.Wrap err "failed to list pods")))
  | None => rangePods c ctx r.1
  end.

(** The context [Loop] makes with [context.WithCancel] over
    [context.Background()] is cancelled by its [cancel] function alone. *)
Definition cancelCtx (cancelled : bool) : Context_ W :=
  {| Done w := (cancelled, w) |}.

(** The [for { select { ... } }] of [Loop].  The loop has no bound of its
    own: [fuel] bounds the number of selects looked at, and [None] says
    that the loop is still waiting after that many. *)
Fixpoint loopSelect (fuel : nat) (c : Controller W) (ctx : Context_ W)
    (cancel : M W unit) : M W (option Outcome) :=
  match fuel with
  | O => ret None
  | S fuel' =>
      sc <~ selectLoop ;
      match sc with
      | TickCase =>
          r <~ Once c ctx ;
          match r with
          | Return (Some err) =>
              cancel ;>
              ret (Some (Return (Some (errors.Wrap err "failed to run"))))
          | Return None => loopSelect fuel' c ctx cancel
          | Panic => cancel ;> ret (Some Panic)
          end
      | StopCase =>
          cancel ;> cancel ;> ret (Some (Return None))
      end
  end.

(** [Loop] will run the controller periodically until stopped.  [cancel]
    is called explicitly on the stop case and, being deferred, whenever
    [Loop] returns or panics; as [Loop] calls [Once] itself, between two
    selects, every pass runs on a context that is not cancelled.
    [time.NewTicker] panics on an interval that is not positive. *)
Definition Loop (fuel : nat) (c : Controller W) : M W (option Outcome) :=
  let ctx := cancelCtx false in
  let cancel := emit EvCancel in
  r <~ Once c ctx ;
  match r with
  | Return (Some err) =>
      cancel ;> ret (Some (Return (Some (errors.Wrap err "failed to run"))))
  | Return None =>
      if interval c <=? 0 then cancel ;> ret (Some Panic)
      else loopSelect fuel c ctx cancel
  | Panic => cancel ;> ret (Some Panic)
  end.
End Passes.
End controller.

(** ** The client of the package's tests

    The tests run [Once] on a client that keeps a list of pods, serves it as
    the listing and removes a pod from it on deletion. *)
Module controller_test.
Import controller.

Record testClient := { pods : list v1.Pod }.

(** The world of a test: the client both interfaces share and the clock. *)
Record testWorld := { client : testClient; clock : time.Time }.

#[global] Instance testRuntime : Runtime testWorld := {|
  time_Now w := (clock w, w);
  zap_NewProduction := inl zap.NewNop;
  Loop_select w := (StopCase, w)
|}.

Definition testClient_ListPods : PodLister testWorld :=
  {| ListPods _ _ w := ((pods (client w), None), w) |}.

Definition samePod (ns name : string) (p : v1.Pod) : bool :=
  bool_decide (ns = v1.Namespace (v1.Meta p))
  && bool_decide (name = v1.Name (v1.Meta p)).

Definition testClient_DeletePod : PodDeleter testWorld :=
  {| DeletePod ns name w :=
       (None,
        {| client :=
             {| pods := List.filter (fun p => negb (samePod ns name p))
                          (pods (client w)) |};
           clock := clock w |}) |}.

Definition lenPods (t : testClient) : nat := length (pods t).

(** [makePod] creates a test pod with one container status in the given
    state with the given reason; [now] is the [time.Now()] it reads. *)
Definition makePod (now : time.Time) (age : time.Duration)
    (ns name : string) (phase : v1.PodPhase) (state reason : string)
  : v1.Pod :=
  let st :=
    if bool_decide (state = "Running") then
      {| v1.Waiting := None;
         v1.Running := Some v1.Build_ContainerStateRunning;
         v1.Terminated := None |}
    else if bool_decide (state = "Waiting") then
      {| v1.Waiting := Some {| v1.Waiting_Reason := reason |};
         v1.Running := None; v1.Terminated := None |}
    else if bool_decide (state = "Terminated") then
      {| v1.Waiting := None; v1.Running := None;
         v1.Terminated := Some {| v1.Terminated_Reason := reason |} |}
    else {| v1.Waiting := None; v1.Running := None; v1.Terminated := None |}
  in
  {| v1.Meta := {| v1.Name := name; v1.Namespace := ns;
                   v1.CreationTimestamp := time.Add now (- age) |};
     v1.Status := {| v1.Phase := phase;
                     v1.ContainerStatuses := [ {| v1.State := st |} ] |} |}.

(** The body of a case of [TestController]: the pods left in the client
    after one pass, and what the pass returned. *)
Definition runCase (now : time.Time) (ps : list v1.Pod)
  : option (Outcome * nat) :=
  match New testClient_ListPods testClient_DeletePod
          [WithGrace (time.Minute * 5); WithLogger (Some zap.NewNop)] with
  | (Some c, None) =>
      let '(r, w, _) :=
        Once c (cancelCtx false)
          {| client := {| pods := ps |}; clock := now |} in
      Some (r, lenPods (client w))
  | _ => None
  end.
End controller_test.

(** ** A scripted world

    A world that answers from a script: the listing and the clock are
    fixed, and each check of the context, deletion and select takes the
    next answer of its list (and a default once the list is used up). *)
Module script.
Import controller.

Record World := {
  listing : list v1.Pod * option error;
  dones : list bool;
  now : time.Time;
  deleteResults : list (option error);
  selects : list SelectCase
}.

#[global] Instance scriptRuntime : Runtime World := {|
  time_Now w := (now w, w);
  zap_NewProduction := inl zap.NewNop;
  Loop_select w :=
    (hd StopCase (selects w),
     {| listing := listing w; dones := dones w; now := now w;
        deleteResults := deleteResults w; selects := tl (selects w) |})
|}.

Definition lister : PodLister World :=
  {| ListPods _ _ w := (listing w, w) |}.

Definition deleter : PodDeleter World :=
  {| DeletePod _ _ w :=
       (hd None (deleteResults w),
        {| listing := listing w; dones := dones w; now := now w;
           deleteResults := tl (deleteResults w); selects := selects w |}) |}.

Definition ctx : Context_ World :=
  {| Done w :=
       (hd false (dones w),
        {| listing := listing w; dones := tl (dones w); now := now w;
           deleteResults := deleteResults w; selects := selects w |}) |}.

(** A pod of the default namespace with the given container states. *)
Definition pod (name : string) (created : time.Time) (phase : v1.PodPhase)
    (states : list v1.ContainerState) : v1.Pod :=
  {| v1.Meta := {| v1.Name := name; v1.Namespace := "default";
                   v1.CreationTimestamp := created |};
     v1.Status := {| v1.Phase := phase;
                     v1.ContainerStatuses :=
                       List.map v1.Build_ContainerStatus states |} |}.

Definition terminated (reason : string) : v1.ContainerState :=
  {| v1.Waiting := None; v1.Running := None;
     v1.Terminated := Some {| v1.Terminated_Reason := reason |} |}.

Definition waiting (reason : string) : v1.ContainerState :=
  {| v1.Waiting := Some {| v1.Waiting_Reason := reason |};
     v1.Running := None; v1.Terminated := None |}.

Definition running : v1.ContainerState :=
  {| v1.Waiting := None; v1.Running := Some v1.Build_ContainerStateRunning;
     v1.Terminated := None |}.

(** The controller [New] makes over the scripted cluster. *)
Definition controllerOf (options : list Option_) : Controller World :=
  match New lister deleter options with
  | (Some c, _) => c
  | (None, _) =>
      {| controller.lister := lister; controller.deleter := deleter;
         namespace := ""; selector := ""; logger := None; grace := 0;
         interval := 0; dryRun := false; reasons := []; reasonsMap := ∅ |}
  end.

(** Pods created at instant 0, but for [young]; the clock of the worlds
    below reads two hours, and the default grace is thirty minutes. *)
Definition old : v1.Pod := pod "old" 0 v1.PodRunning [terminated "Error"].
Definition failed : v1.Pod :=
  pod "failed" 0 v1.PodFailed [waiting "CrashLoopBackOff"].
Definition twice : v1.Pod :=
  pod "twice" 0 v1.PodRunning [terminated "Error"; terminated "Error"].
Definition pending : v1.Pod :=
  pod "pending" 0 v1.PodPending [terminated "Error"].
Definition young : v1.Pod :=
  pod "young" (time.Hour * 2 - time.Minute) v1.PodRunning
    [terminated "Error"].
Definition healthy : v1.Pod := pod "healthy" 0 v1.PodRunning [running].
Definition bare : v1.Pod := pod "bare" 0 v1.PodRunning [].

(** A cluster that lists [pods], never cancels and deletes at once. *)
Definition world (pods : list v1.Pod) : World :=
  {| listing := (pods, None); dones := []; now := time.Hour * 2;
     deleteResults := []; selects := [] |}.

(** The same with scripted answers to the checks of the context, to the
    deleteResults and to the selects. *)
Definition worldWith (pods : list v1.Pod) (ds : list bool)
    (dels : list (option error)) (sels : list SelectCase) : World :=
  {| listing := (pods, None); dones := ds; now := time.Hour * 2;
     deleteResults := dels; selects := sels |}.

(** A cluster whose listing fails. *)
Definition unreachable : World :=
  {| listing := ([], Some (errorString "connection refused"));
     dones := []; now := time.Hour * 2; deleteResults := []; selects := [] |}.

Definition notFound : error := StatusError "NotFound" "pods not found".
Definition forbidden : error := StatusError "Forbidden" "pods is forbidden".
End script.

(** ** The client of a real cluster, [pkg/k8s/k8s.go]

    What the package asks of [client-go] is a parameter: how a
    configuration is found, how a clientset is made from it, and the two
    calls of the clientset's pods interface. *)
Module k8s.

Record ListOptions := { LabelSelector : string }.
Record DeleteOptions := { }.
Record PodList := { Items : list v1.Pod }.

Section Client.
Context {W : Type} {Config : Type}.

(** [kubernetes.Clientset]: [CoreV1().Pods(namespace).List(options)] and
    [CoreV1().Pods(namespace).Delete(name, options)]. *)
Record Clientset := {
  Pods_List : string -> ListOptions -> W -> (PodList * option error) * W;
  Pods_Delete :
    string -> string -> option DeleteOptions -> W -> option error * W
}.

(** [Client] is a wrapper around a Kubernetes cluster. *)
Record Client := { client : Clientset }.

(** The calls of [rest], [clientcmd] and [kubernetes] that make a
    configuration and a clientset, and the [%q] verb of [fmt]. *)
Record Loader := {
  InClusterConfig : Config + error;
  ClientConfig : string -> string -> Config + error;
  NewForConfig : Config -> Clientset + error;
  quote : string -> string
}.

(** [k8sConfig] loads the file [kubeconfig] with the current context
    overridden by [context]. *)
Definition k8sConfig (ld : Loader) (kubeconfig context : string)
  : Config + error :=
  ClientConfig ld kubeconfig context.

(** [New] creates and returns a new client.  If kubeconfig is not defined
    an in-cluster client is created; context is only used if kubeconfig is
    specified. *)
Definition New (ld : Loader) (kubeconfig context : string) : Client + error :=
  if bool_decide (kubeconfig = "") then
    match InClusterConfig ld with
    | inr err =>
        inr (errors.Wrap err "failed to create an in-cluster config")
    | inl config =>
        match NewForConfig ld config with
        | inr err =>
            inr (errors.Wrap err "failed to create an in-cluster client")
        | inl clientset => inl {| client := clientset |}
        end
    end
  else
    match k8sConfig ld kubeconfig context with
    | inr err =>
        inr (errors.Wrap err
               (String.append "failed to create a config from "
                  (quote ld kubeconfig)))
    | inl config =>
        match NewForConfig ld config with
        | inr err =>
            inr (errors.Wrap err
                   (String.append "failed to create a client from "
                      (quote ld kubeconfig)))
        | inl clientset => inl {| client := clientset |}
        end
    end.

(** [ListPods] will return a list of Pods in a namespace, optionally using
    a label selector.  On an error the slice returned is nil. *)
Definition ListPods (c : Client) (namespace selector : string)
  : W -> (list v1.Pod * option error) * W :=
  fun w =>
    let '(r, w1) :=
      Pods_List (client c) namespace {| LabelSelector := selector |} w in
    match r.2 with
    | Some err => (([], Some (errors.Wrap err "failed to list pods")), w1)
    | None => ((Items r.1, None), w1)
    end.

(** [DeletePod] attempts to delete a single pod.  The error is not wrapped,
    as the caller may need to check it directly. *)
Definition DeletePod (c : Client) (namespace name : string)
  : W -> option error * W :=
  Pods_Delete (client c) namespace name None.

(** The client as the two interfaces of the controller. *)
Definition lister (c : Client) : controller.PodLister W :=
  {| controller.ListPods := ListPods c |}.

Definition deleter (c : Client) : controller.PodDeleter W :=
  {| controller.DeletePod := DeletePod c |}.
End Client.

Arguments Clientset : clear implicits.
Arguments Client : clear implicits.
Arguments Loader : clear implicits.
End k8s.

(** ** The command, [cmd/k8s-pod-deleter/main.go] *)
Module main.

Record mainCommand := {
  kubeconfig : string;
  kubeContext : string;
  namespace : string;
  selector : string;
  logLevel : zap.Level;
  reasons : list string;
  dryRun : bool;
  once : bool;
  grace : time.Duration;
  interval : time.Duration
}.

Section Main.
Context {W : Type} `{rt : controller.Runtime W} {Config : Type}.

(** What [client-go] answers to [k8s.New], and what [Build] answers on the
    production configuration of [zap] set to a level. *)
Variable ld : k8s.Loader W Config.
Variable zapBuild : zap.Level -> zap.Logger + error.

Definition createLogger (level : zap.Level) : zap.Logger + error :=
  zapBuild level.

(** The options [runDeleter] gives to [controller.New]. *)
Definition controllerOptions (m : mainCommand) (logger : zap.Logger)
  : list (controller.Option_ (W := W)) :=
  [controller.WithNamespace (namespace m);
   controller.WithSelector (selector m);
   controller.WithLogger (Some logger);
   controller.WithDryRun (dryRun m);
   controller.WithGrace (grace m);
   controller.WithInterval (interval m)].

(** [runDeleter] makes the client, the logger and the controller, then
    runs one pass or the loop.  The goroutine that calls [Stop] on SIGINT
    or SIGTERM is part of the world: its signal is the stop case of the
    selects of [Loop].  [fuel] is that of [Loop]. *)
Definition runDeleter (fuel : nat) (m : mainCommand)
  : controller.M W (option Outcome) :=
  match k8s.New ld (kubeconfig m) (kubeContext m) with
  | inr err =>
      controller.ret
        (Some (Return (Some (errors.Wrap err
                               "failed to create Kubernetes client"))))
  | inl client =>
      match createLogger (logLevel m) with
      | inr err =>
          controller.ret
            (Some (Return (Some (errors.Wrap err "failed to create logger"))))
      | inl logger =>
          match controller.New (k8s.lister client) (k8s.deleter client)
                  (controllerOptions m logger) with
          | (_, Some err) =>
              controller.ret
                (Some (Return (Some (errors.Wrap err
                                       "failed to create controller"))))
          | (None, None) => controller.ret (Some Panic)
          | (Some c, None) =>
              if once m then
                controller.bind
                  (controller.Once c (controller.cancelCtx false))
                  (fun r => controller.ret (Some r))
              else controller.Loop fuel c
          end
      end
  end.
End Main.
End main.

(** ** Interface values and maps that may be nil

    In Go the lister, the deleter and the context are interface values,
    and the reasons are kept in a map: each may be nil.  [New] does not
    look at the lister and the deleter it is given.  A method call on a
    nil interface value panics, and so does the assignment to an entry of
    a nil map, while a lookup in a nil map finds nothing.  Module
    [controller] is the controller on values that are not nil; here are
    [New] and [Once] on values that may be, [None] standing for nil.  On
    values that are not nil they are those of [controller].  As there, a
    call made on a value that is not nil returns, with the answer of the
    world. *)
Module nilable.
Import controller.

(** What a call gives when it may panic instead of returning. *)
Inductive Result (A : Type) : Type :=
| Returned (a : A)
| Panicked.

Arguments Returned {A} a.
Arguments Panicked {A}.

Section Nilable.
Context {W : Type} `{rt : Runtime W}.

Record Controller := {
  lister : option (PodLister W);
  deleter : option (PodDeleter W);
  namespace : string;
  selector : string;
  logger : option zap.Logger;
  grace : time.Duration;
  interval : time.Duration;
  dryRun : bool;
  reasons : list string;
  reasonsMap : option (gmap string bool)
}.

(** An option that returns: the controller it leaves and its error. *)
Definition Option_ : Type := Controller -> Controller * option error.

Definition set_logger (v : option zap.Logger) (c : Controller) : Controller :=
  {| lister := lister c; deleter := deleter c; namespace := namespace c;
     selector := selector c; logger := v; grace := grace c;
     interval := interval c; dryRun := dryRun c; reasons := reasons c;
     reasonsMap := reasonsMap c |}.

Definition set_reasonsMap (v : option (gmap string bool)) (c : Controller)
  : Controller :=
  {| lister := lister c; deleter := deleter c; namespace := namespace c;
     selector := selector c; logger := logger c; grace := grace c;
     interval := interval c; dryRun := dryRun c; reasons := reasons c;
     reasonsMap := v |}.

Definition WithDryRun (dryrun : bool) : Option_ :=
  fun c =>
    ({| lister := lister c; deleter := deleter c; namespace := namespace c;
        selector := selector c; logger := logger c; grace := grace c;
        interval := interval c; dryRun := dryrun; reasons := reasons c;
        reasonsMap := reasonsMap c |}, None).

Definition WithLogger (l : option zap.Logger) : Option_ :=
  fun c => (set_logger l c, None).

Definition WithNamespace (ns : string) : Option_ :=
  fun c =>
    ({| lister := lister c; deleter := deleter c; namespace := ns;
        selector := selector c; logger := logger c; grace := grace c;
        interval := interval c; dryRun := dryRun c; reasons := reasons c;
        reasonsMap := reasonsMap c |}, None).

Definition WithSelector (sel : string) : Option_ :=
  fun c =>
    ({| lister := lister c; deleter := deleter c; namespace := namespace c;
        selector := sel; logger := logger c; grace := grace c;
        interval := interval c; dryRun := dryRun c; reasons := reasons c;
        reasonsMap := reasonsMap c |}, None).

Definition WithGrace (d : time.Duration) : Option_ :=
  fun c =>
    ({| lister := lister c; deleter := deleter c; namespace := namespace c;
        selector := selector c; logger := logger c; grace := d;
        interval := interval c; dryRun := dryRun c; reasons := reasons c;
        reasonsMap := reasonsMap c |}, None).

Definition WithInterval (d : time.Duration) : Option_ :=
  fun c =>
    ({| lister := lister c; deleter := deleter c; namespace := namespace c;
        selector := selector c; logger := logger c; grace := grace c;
        interval := d; dryRun := dryRun c; reasons := reasons c;
        reasonsMap := reasonsMap c |}, None).

Definition WithReasons (rs : list string) : Option_ :=
  fun c =>
    ({| lister := lister c; deleter := deleter c; namespace := namespace c;
        selector := selector c; logger := logger c; grace := grace c;
        interval := interval c; dryRun := dryRun c; reasons := rs;
        reasonsMap := reasonsMap c |}, None).

(** The loop of [New] over its options: the first error stops it. *)
Fixpoint applyOptions (options : list Option_) (c : Controller)
  : Controller * option error :=
  match options with
  | [] => (c, None)
  | o :: rest =>
      let '(c1, err) := o c in
      match err with
      | Some e => (c1, Some (errors.Wrap e "option failed"))
      | None => applyOptions rest c1
      end
  end.

(** The last loop of [New]: with a reason to enter, a nil map panics. *)
Definition fillReasonsMap (rs : list string) (m : option (gmap string bool))
  : Result (option (gmap string bool)) :=
  match rs with
  | [] => Returned m
  | _ :: _ =>
      match m with
      | None => Panicked
      | Some m0 => Returned (Some (controller.fillReasonsMap rs m0))
      end
  end.

(** [New] creates a new controller. *)
Definition New (l : option (PodLister W)) (d : option (PodDeleter W))
    (options : list Option_) : Result (option Controller * option error) :=
  let c := {| lister := l; deleter := d; namespace := ""; selector := "";
              logger := None;
              grace := time.Minute * 30; interval := time.Minute * 10;
              dryRun := false; reasons := DefaultReasons;
              reasonsMap := Some ∅ |} in
  let '(c, err) := applyOptions options c in
  match err with
  | Some e => Returned (None, Some e)
  | None =>
      let built (c : Controller) :=
        match fillReasonsMap (reasons c) (reasonsMap c) with
        | Panicked => Panicked
        | Returned m => Returned (Some (set_reasonsMap m c), None)
        end in
      match logger c with
      | Some _ => built c
      | None =>
          match zap_NewProduction with
          | inr e =>
              Returned (None, Some (errors.Wrap e "failed to create logger"))
          | inl lg => built (set_logger (Some lg) c)
          end
      end
  end.

(** [_, ok := c.reasonsMap[reason]]. *)
Definition hasReason (c : Controller) (reason : string) : bool :=
  match reasonsMap c with
  | None => false
  | Some m => bool_decide (is_Some (m !! reason))
  end.

(** The loop labelled [STATUS] over the container statuses of one pod:
    what [Once] returns from inside it, [Return None] when it runs to its
    end. *)
Fixpoint rangeStatuses (c : Controller) (logger : zap.Logger)
    (pod : v1.Pod) (statuses : list v1.ContainerStatus) : M W Outcome :=
  match statuses with
  | [] => ret (Return None)
  | status :: rest =>
      let reason := statusReason status in
      if negb (hasReason c reason) then
        logDebug logger "skipping pod"
          [zap.String "reason" "Reason"; zap.String "Reason" reason] ;>
        rangeStatuses c logger pod rest
      else
        logInfo logger "deleting pod"
          [zap.String "Reason" reason; zap.Bool "dry-run" (dryRun c)] ;>
        if negb (dryRun c) then
          match deleter c with
          | None => ret Panic
          | Some d =>
              err <~ callDeletePod d
                       (v1.Namespace (v1.Meta pod)) (v1.Name (v1.Meta pod)) ;
              match err with
              | Some e =>
                  if negb (k8sErrors.IsNotFound e) then
                    ret (Return
                           (Some (wrapDelete e (v1.Namespace (v1.Meta pod))
                                    (v1.Name (v1.Meta pod)))))
                  else rangeStatuses c logger pod rest
              | None => rangeStatuses c logger pod rest
              end
          end
        else rangeStatuses c logger pod rest
  end.

(** The loop of [Once] over the pods listed. *)
Fixpoint rangePods (c : Controller) (ctx : option (Context_ W))
    (pods : list v1.Pod) : M W Outcome :=
  match pods with
  | [] => ret (Return None)
  | pod :: rest =>
      match ctx with
      | None => ret Panic
      | Some cx =>
          done <~ ctxDone cx ;
          if done then ret (Return None) else
          match logger c with
          | None => ret Panic
          | Some lg =>
              let logger :=
                zap.With lg
                  [zap.String "namespace" (v1.Namespace (v1.Meta pod));
                   zap.String "name" (v1.Name (v1.Meta pod))] in
              if skippedPhase (v1.Phase (v1.Status pod)) then
                logDebug logger "skipping pod"
                  [zap.String "reason" "PodPhase";
                   zap.String "PodPhase" (v1.Phase (v1.Status pod))] ;>
                rangePods c ctx rest
              else
                now <~ timeNow ;
                if time.After
                     (time.Add (v1.CreationTimestamp (v1.Meta pod))
                        (grace c))
                     now
                then
                  logDebug logger "skipping pod"
                    [zap.String "reason" "CreationTimestamp";
                     zap.Time "CreationTimestamp"
                       (v1.CreationTimestamp (v1.Meta pod))] ;>
                  rangePods c ctx rest
                else
                  r <~ rangeStatuses c logger pod
                         (v1.ContainerStatuses (v1.Status pod)) ;
                  match r with
                  | Return None => rangePods c ctx rest
                  | _ => ret r
                  end
          end
      end
  end.

(** [Once] will list all pods and delete those that are in certain
    states and are at least the grace period old. *)
Definition Once (c : Controller) (ctx : option (Context_ W)) : M W Outcome :=
  match lister c with
  | None => ret Panic
  | Some l =>
      r <~ callListPods l (namespace c) (selector c) ;
      match r.2 with
      | Some err =>
          ret (Return (Some (errors.Wrap err "failed to list pods")))
      | None => rangePods c ctx r.1
      end
  end.

(** A controller of [controller], whose values are not nil. *)
Definition lift (c : controller.Controller W) : Controller :=
  {| lister := Some (controller.lister c);
     deleter := Some (controller.deleter c);
     namespace := controller.namespace c;
     selector := controller.selector c;
     logger := controller.logger c;
     grace := controller.grace c; interval := controller.interval c;
     dryRun := controller.dryRun c; reasons := controller.reasons c;
     reasonsMap := Some (controller.reasonsMap c) |}.
End Nilable.

Arguments Controller : clear implicits.
Arguments Option_ : clear implicits.
End nilable.


(** * Properties *)

Import controller.

(** ** Reading a trace *)

Definition isDone (e : Event) : bool :=
  match e with EvDone _ => true | _ => false end.

Definition isNow (e : Event) : bool :=
  match e with EvNow _ => true | _ => false end.

Definition isListPods (e : Event) : bool :=
  match e with EvListPods _ _ _ _ => true | _ => false end.


(** The deletions issued, in order: namespace and name of each call. *)
Definition deleteOf (e : Event) : option (string * string) :=
  match e with EvDeletePod ns name _ => Some (ns, name) | _ => None end.

Definition deletions (tr : list Event) : list (string * string) :=
  omap deleteOf tr.

(** An event of the loop over the container statuses of a pod. *)
Definition isStatusEvent (e : Event) : bool :=
  match e with EvLog _ | EvDeletePod _ _ _ => true | _ => false end.

(** An event of a pass. *)
Definition isPassEvent (e : Event) : bool :=
  match e with EvSelect _ | EvCancel => false | _ => true end.

(** A deletion that failed for another reason than the pod being gone. *)
Definition fatalDelete (e : Event) : Prop :=
  match e with
  | EvDeletePod _ _ (Some err) => k8sErrors.IsNotFound err = false
  | _ => False
  end.

(** The container statuses of a pod whose reason the controller accepts. *)
Definition accepted {W} (c : Controller W) (s : v1.ContainerStatus) : bool :=
  bool_decide (is_Some (reasonsMap c !! statusReason s)).

(** The phases the API defines. *)
Definition knownPhase (ph : v1.PodPhase) : Prop :=
  ph ∈ [v1.PodPending; v1.PodRunning; v1.PodSucceeded; v1.PodFailed;
        v1.PodUnknown].

(** The options the package exports. *)
Inductive packageOption {W} : Option_ (W := W) -> Prop :=
| po_WithDryRun b : packageOption (WithDryRun b)
| po_WithLogger l : packageOption (WithLogger l)
| po_WithNamespace ns : packageOption (WithNamespace ns)
| po_WithSelector sel : packageOption (WithSelector sel)
| po_WithGrace d : packageOption (WithGrace d)
| po_WithInterval d : packageOption (WithInterval d)
| po_WithReasons rs : packageOption (WithReasons rs).

(** A deleter that always succeeds and leaves the world as it is. *)
Definition nopDeleter {W} : PodDeleter W := {| DeletePod _ _ w := (None, w) |}.

(** What an event of a pass with deletions looks like in a dry run: the
    deletion is not there, and the log entry says [dry-run] true. *)
Definition dryField (f : zap.Field) : zap.Field :=
  match f with
  | zap.Bool key v =>
      if bool_decide (key = "dry-run") then zap.Bool key true else f
  | _ => f
  end.

Definition asDryRun (e : Event) : option Event :=
  match e with
  | EvDeletePod _ _ _ => None
  | EvLog entry =>
      Some (EvLog {| zap.level := zap.level entry;
                     zap.message := zap.message entry;
                     zap.fields := List.map dryField (zap.fields entry) |})
  | _ => Some e
  end.

(** The entries the loop over the container statuses logs. *)
Definition skipEntry (lg : zap.Logger) (s : v1.ContainerStatus) : Event :=
  logEvent zap.DebugLevel lg "skipping pod"
    [zap.String "reason" "Reason"; zap.String "Reason" (statusReason s)].

Definition deleteEntry (lg : zap.Logger) (s : v1.ContainerStatus)
    (dry : bool) : Event :=
  logEvent zap.InfoLevel lg "deleting pod"
    [zap.String "Reason" (statusReason s); zap.Bool "dry-run" dry].

(** The logger of one pod and the entries the loop over the pods logs. *)
Definition podLogger (lg : zap.Logger) (pod : v1.Pod) : zap.Logger :=
  zap.With lg
    [zap.String "namespace" (v1.Namespace (v1.Meta pod));
     zap.String "name" (v1.Name (v1.Meta pod))].

Definition phaseEntry (lg : zap.Logger) (pod : v1.Pod) : Event :=
  logEvent zap.DebugLevel (podLogger lg pod) "skipping pod"
    [zap.String "reason" "PodPhase";
     zap.String "PodPhase" (v1.Phase (v1.Status pod))].

Definition youngEntry (lg : zap.Logger) (pod : v1.Pod) : Event :=
  logEvent zap.DebugLevel (podLogger lg pod) "skipping pod"
    [zap.String "reason" "CreationTimestamp";
     zap.Time "CreationTimestamp" (v1.CreationTimestamp (v1.Meta pod))].

(** The grace check of [Once]: the pod is skipped when it holds. *)
Definition tooYoung {W} (c : Controller W) (pod : v1.Pod) (now : time.Time)
  : bool :=
  time.After (time.Add (v1.CreationTimestamp (v1.Meta pod)) (grace c)) now.

(** [Q] events occur only as the last event of the trace. *)
Definition lastOnly (Q : Event -> Prop) (tr : list Event) : Prop :=
  forall tr1 e tr2, tr = tr1 ++ e :: tr2 -> Q e -> tr2 = [].

(** The check of the context that finds it cancelled. *)
Definition cancelled (e : Event) : Prop := e = EvDone true.

(** Every reading of the clock comes right after a check of the context
    that found it not cancelled. *)
Definition nowChecked (tr : list Event) : Prop :=
  forall tr1 t tr2, tr = tr1 ++ EvNow t :: tr2 ->
                    exists tr0, tr1 = tr0 ++ [EvDone false].

(** The result, the world and the trace of a computation run on [w]. *)
Definition resultOf {W A} (m : M W A) (w : W) : A := (m w).1.1.
Definition worldOf {W A} (m : M W A) (w : W) : W := (m w).1.2.
Definition traceOf {W A} (m : M W A) (w : W) : list Event := (m w).2.

(** What the listing of a pass answers on [w]. *)
Definition listed {W} (c : Controller W) (w : W) : list v1.Pod :=
  (ListPods (lister c) (namespace c) (selector c) w).1.1.
Definition listError {W} (c : Controller W) (w : W) : option error :=
  (ListPods (lister c) (namespace c) (selector c) w).1.2.

(** The pod is the one a deletion of [ns] and [name] names. *)
Definition named (ns name : string) (p : v1.Pod) : Prop :=
  v1.Namespace (v1.Meta p) = ns /\ v1.Name (v1.Meta p) = name.

(** The number of deletions issued for [ns] and [name]. *)
Definition deletionsOf (ns name : string) (tr : list Event) : nat :=
  length (List.filter (fun k => bool_decide (k = (ns, name))) (deletions tr)).

(** The world a pass goes on with after its listing. *)
Definition afterList {W} (c : Controller W) (w : W) : W :=
  (ListPods (lister c) (namespace c) (selector c) w).2.

(** The controller [c] out of dry-run mode, over a cluster on which every
    deletion succeeds at once. *)
Definition normalOf {W} (c : Controller W) : Controller W :=
  set_dryRun false (set_deleter nopDeleter c).

(** The trace as a dry run shows it. *)
Definition dryView (tr : list Event) : list Event := omap asDryRun tr.

(** An event that makes a pass fail: a listing that failed, or a deletion
    that failed for another reason than the pod being gone. *)
Definition passError (e : Event) : Prop :=
  match e with
  | EvListPods _ _ _ (Some _) => True
  | _ => fatalDelete e
  end.





(** ** What the further properties speak of *)

(** Namespace and name of a pod, as a deletion names it. *)
Definition ident (p : v1.Pod) : string * string :=
  (v1.Namespace (v1.Meta p), v1.Name (v1.Meta p)).

(** The deletions a pass can issue at most, in the order of the listing:
    for each pod whose phase is not skipped, one for each of its statuses
    with an accepted reason. *)
Definition plannedDeletions {W} (c : Controller W) (pods : list v1.Pod)
  : list (string * string) :=
  flat_map
    (fun p =>
       repeat (ident p)
         (length (List.filter (accepted c)
                    (v1.ContainerStatuses (v1.Status p)))))
    (List.filter (fun p => negb (skippedPhase (v1.Phase (v1.Status p))))
       pods).

(** The pod passes the three checks of a pass when the clock reads [now]. *)
Definition eligible {W} (c : Controller W) (now : time.Time) (p : v1.Pod)
  : bool :=
  negb (skippedPhase (v1.Phase (v1.Status p)))
  && negb (tooYoung c p now)
  && existsb (accepted c) (v1.ContainerStatuses (v1.Status p)).

(** The pods of [cur] that no eligible pod of [pods] shares namespace and
    name with. *)
Definition survivors {W} (c : Controller W) (now : time.Time)
    (pods cur : list v1.Pod) : list v1.Pod :=
  List.filter
    (fun q =>
       negb (existsb
               (fun p => eligible c now p && bool_decide (ident p = ident q))
               pods))
    cur.

(** The controller [New] starts from, before it applies the options. *)
Definition initial {W} (l : PodLister W) (d : PodDeleter W) : Controller W :=
  {| lister := l; deleter := d; namespace := ""; selector := "";
     logger := None;
     grace := time.Minute * 30; interval := time.Minute * 10;
     dryRun := false; reasons := DefaultReasons; reasonsMap := ∅ |}.

(** The options that set one field the construction does not look at. *)
Inductive scalarOption {W} : Option_ (W := W) -> Prop :=
| so_WithDryRun b : scalarOption (WithDryRun b)
| so_WithNamespace ns : scalarOption (WithNamespace ns)
| so_WithSelector sel : scalarOption (WithSelector sel)
| so_WithGrace d : scalarOption (WithGrace d)
| so_WithInterval d : scalarOption (WithInterval d).

Definition isCancel (e : Event) : bool :=
  match e with EvCancel => true | _ => false end.

(** A clientset for the examples: the listing and the deletions of the
    scripted world, served through the calls of [client-go]. *)
Definition scriptClientset : k8s.Clientset script.World :=
  {| k8s.Pods_List _ _ w :=
       (({| k8s.Items := (script.listing w).1 |}, (script.listing w).2), w);
     k8s.Pods_Delete ns name _ w :=
       controller.DeletePod script.deleter ns name w |}.

Definition scriptLoader : k8s.Loader script.World unit :=
  {| k8s.InClusterConfig := inl tt;
     k8s.ClientConfig _ _ := inr (errorString "no such file");
     k8s.NewForConfig _ := inl scriptClientset;
     k8s.quote s := String.append "'" (String.append s "'") |}.

(** A loader that finds no configuration in the cluster. *)
Definition outsideLoader : k8s.Loader script.World unit :=
  {| k8s.InClusterConfig := inr (errorString "not in a cluster");
     k8s.ClientConfig _ _ := inr (errorString "no such file");
     k8s.NewForConfig _ := inl scriptClientset;
     k8s.quote s := s |}.

Definition scriptBuild (level : zap.Level) : zap.Logger + error :=
  inl zap.NewNop.

(** A command line: everything at its zero value but the grace, the
    interval and the reasons. *)
Definition commandLine (reasons : list string) (dry once : bool)
  : main.mainCommand :=
  {| main.kubeconfig := ""; main.kubeContext := ""; main.namespace := "";
     main.selector := ""; main.logLevel := zap.InfoLevel;
     main.reasons := reasons; main.dryRun := dry; main.once := once;
     main.grace := time.Hour; main.interval := time.Minute * 5 |}.

(** The client over the scripted clientset, and the controller [New]
    makes over it with no option. *)
Definition scriptClient : k8s.Client script.World :=
  {| k8s.client := scriptClientset |}.

Definition kubeController : Controller script.World :=
  match New (k8s.lister scriptClient) (k8s.deleter scriptClient) [] with
  | (Some c, _) => c
  | (None, _) => initial (k8s.lister scriptClient) (k8s.deleter scriptClient)
  end.

(** The controller and the world of a case of [TestController]. *)
Definition testController : Controller controller_test.testWorld :=
  match New controller_test.testClient_ListPods
          controller_test.testClient_DeletePod
          [WithGrace (time.Minute * 5); WithLogger (Some zap.NewNop)] with
  | (Some c, _) => c
  | (None, _) =>
      initial controller_test.testClient_ListPods
        controller_test.testClient_DeletePod
  end.

Definition testWorldOf (now : time.Time) (ps : list v1.Pod)
  : controller_test.testWorld :=
  {| controller_test.client := {| controller_test.pods := ps |};
     controller_test.clock := now |}.

(** How many times [Loop] has called [cancel] when it ends with [r]: the
    deferred call, and before it the call of the stop case. *)
Definition cancelsOf (r : option Outcome) : nat :=
  match r with
  | None => 0
  | Some (Return None) => 2
  | Some _ => 1
  end.

(** The command line with other reasons. *)
Definition withReasons (rs : list string) (m : main.mainCommand)
  : main.mainCommand :=
  {| main.kubeconfig := main.kubeconfig m;
     main.kubeContext := main.kubeContext m;
     main.namespace := main.namespace m; main.selector := main.selector m;
     main.logLevel := main.logLevel m; main.reasons := rs;
     main.dryRun := main.dryRun m; main.once := main.once m;
     main.grace := main.grace m; main.interval := main.interval m |}.

(** The controller of the command line over a client, with a logger. *)
Definition mainController {W} (cl : k8s.Client W) (lg : zap.Logger)
    (m : main.mainCommand) : Controller W :=
  {| lister := k8s.lister cl; deleter := k8s.deleter cl;
     namespace := main.namespace m; selector := main.selector m;
     logger := Some lg;
     grace := main.grace m; interval := main.interval m;
     dryRun := main.dryRun m; reasons := DefaultReasons;
     reasonsMap := fillReasonsMap DefaultReasons ∅ |}.

(** The options the package exports, on a controller whose values may be
    nil. *)
Inductive nilPackageOption {W} : nilable.Option_ W -> Prop :=
| npo_WithDryRun b : nilPackageOption (nilable.WithDryRun b)
| npo_WithLogger l : nilPackageOption (nilable.WithLogger l)
| npo_WithNamespace ns : nilPackageOption (nilable.WithNamespace ns)
| npo_WithSelector sel : nilPackageOption (nilable.WithSelector sel)
| npo_WithGrace d : nilPackageOption (nilable.WithGrace d)
| npo_WithInterval d : nilPackageOption (nilable.WithInterval d)
| npo_WithReasons rs : nilPackageOption (nilable.WithReasons rs).

(** An option of the package on the controller of [controller] and the
    same option on the controller whose values may be nil. *)
Inductive sameOption {W}
  : controller.Option_ (W := W) -> nilable.Option_ W -> Prop :=
| same_WithDryRun b : sameOption (WithDryRun b) (nilable.WithDryRun b)
| same_WithLogger l : sameOption (WithLogger l) (nilable.WithLogger l)
| same_WithNamespace ns :
    sameOption (WithNamespace ns) (nilable.WithNamespace ns)
| same_WithSelector sel :
    sameOption (WithSelector sel) (nilable.WithSelector sel)
| same_WithGrace d : sameOption (WithGrace d) (nilable.WithGrace d)
| same_WithInterval d : sameOption (WithInterval d) (nilable.WithInterval d)
| same_WithReasons rs : sameOption (WithReasons rs) (nilable.WithReasons rs).

(** What [New] answers in [controller], as an answer on values that may
    be nil. *)
Definition liftNew {W}
    (r : option (controller.Controller W) * option error)
  : nilable.Result (option (nilable.Controller W) * option error) :=
  nilable.Returned (option_map nilable.lift r.1, r.2).

(** What the deletion that fails leaves to the pass: the pass is not a
    dry run, it has a deleter, its last event is the deletion, which
    failed otherwise than by the pod being gone, and it returns the
    error of the deletion, wrapped. *)
Definition deleteFailed {W} (c : nilable.Controller W) (tr : list Event)
    (x : error) : Prop :=
  nilable.dryRun c = false /\ nilable.deleter c <> None
  /\ exists tr1 ns name err,
      tr = tr1 ++ [EvDeletePod ns name (Some err)]
      /\ k8sErrors.IsNotFound err = false
      /\ x = wrapDelete err ns name.

(** What a loop of the pass leaves: nothing to say when it returns nil,
    the deletion that failed when it returns an error, and [P] when it
    panics. *)
Definition passOutcome {W} (c : nilable.Controller W) (P : Prop)
    (r : Outcome) (tr : list Event) : Prop :=
  match r with
  | Return None => True
  | Return (Some x) => deleteFailed c tr x
  | Panic => P
  end.

(** The controller [New] makes over the scripted cluster from a lister
    and a deleter that may be nil. *)
Definition nilControllerOf (l : option (PodLister script.World))
    (d : option (PodDeleter script.World))
    (options : list (nilable.Option_ script.World))
  : nilable.Controller script.World :=
  match nilable.New l d options with
  | nilable.Returned (Some c, _) => c
  | _ =>
      {| nilable.lister := l; nilable.deleter := d;
         nilable.namespace := ""; nilable.selector := "";
         nilable.logger := None; nilable.grace := 0;
         nilable.interval := 0; nilable.dryRun := false;
         nilable.reasons := []; nilable.reasonsMap := None |}
  end.

(** An option that fails. *)
Definition failingOption {W} (e : error) : Option_ (W := W) :=
  fun c => (c, Some e).

(** ** The loop over the container statuses *)

Section StatusLoop.
Context {W : Type} `{rt : Runtime W}.
Implicit Types (c : Controller W) (w : W) (tr : list Event).

Ltac ops :=
  unfold logDebug, logInfo, callDeletePod, bind, ret, emit in *;
  cbn beta iota in *.

(** One unfolding per way through the body of the loop. *)
Lemma rangeStatuses_skip c lg pod s rest w :
  reasonsMap c !! statusReason s = None ->
  rangeStatuses c lg pod (s :: rest) w
  = let '(r, w', tr) := rangeStatuses c lg pod rest w in
    (r, w', skipEntry lg s :: tr).
Proof.
  intros Hr. cbn [rangeStatuses]. rewrite Hr. ops.
  destruct (rangeStatuses c lg pod rest w) as [[r w'] tr]. reflexivity.
Qed.

Lemma rangeStatuses_dry c lg pod s rest w :
  is_Some (reasonsMap c !! statusReason s) -> dryRun c = true ->
  rangeStatuses c lg pod (s :: rest) w
  = let '(r, w', tr) := rangeStatuses c lg pod rest w in
    (r, w', deleteEntry lg s true :: tr).
Proof.
  intros [b Hr] Hd. cbn [rangeStatuses]. rewrite Hr, Hd. ops. cbn [negb].
  destruct (rangeStatuses c lg pod rest w) as [[r w'] tr]. reflexivity.
Qed.

Lemma rangeStatuses_delete c lg pod s rest w :
  is_Some (reasonsMap c !! statusReason s) -> dryRun c = false ->
  rangeStatuses c lg pod (s :: rest) w
  = let ns := v1.Namespace (v1.Meta pod) in
    let name := v1.Name (v1.Meta pod) in
    let '(err, w1) := DeletePod (deleter c) ns name w in
    match err with
    | Some e =>
        if k8sErrors.IsNotFound e then
          let '(r, w', tr) := rangeStatuses c lg pod rest w1 in
          (r, w', deleteEntry lg s false :: EvDeletePod ns name err :: tr)
        else
          (Some (wrapDelete e ns name), w1,
           [deleteEntry lg s false; EvDeletePod ns name err])
    | None =>
        let '(r, w', tr) := rangeStatuses c lg pod rest w1 in
        (r, w', deleteEntry lg s false :: EvDeletePod ns name err :: tr)
    end.
Proof.
  intros [b Hr] Hd. cbn [rangeStatuses]. rewrite Hr, Hd. ops. cbn [negb].
  cbv zeta.
  destruct (DeletePod (deleter c) _ _ w) as [[e|] w1].
  - destruct (k8sErrors.IsNotFound e); cbn [negb]; [|reflexivity].
    destruct (rangeStatuses c lg pod rest w1) as [[r w'] tr]. reflexivity.
  - destruct (rangeStatuses c lg pod rest w1) as [[r w'] tr]. reflexivity.
Qed.

(** Induction over a run of the loop: a property of its runs holds when
    it holds of the empty run and is kept by each way through the body. *)
Lemma rangeStatuses_run_ind c lg pod
    (P : list v1.ContainerStatus -> W -> option error * W * list Event
         -> Prop) :
  (forall w, P [] w (None, w, [])) ->
  (forall s rest w r w' tr,
      reasonsMap c !! statusReason s = None ->
      P rest w (r, w', tr) ->
      P (s :: rest) w (r, w', skipEntry lg s :: tr)) ->
  (forall s rest w r w' tr,
      is_Some (reasonsMap c !! statusReason s) -> dryRun c = true ->
      P rest w (r, w', tr) ->
      P (s :: rest) w (r, w', deleteEntry lg s true :: tr)) ->
  (forall s rest w err w1 r w' tr,
      is_Some (reasonsMap c !! statusReason s) -> dryRun c = false ->
      DeletePod (deleter c) (v1.Namespace (v1.Meta pod))
        (v1.Name (v1.Meta pod)) w = (err, w1) ->
      (forall e, err = Some e -> k8sErrors.IsNotFound e = true) ->
      P rest w1 (r, w', tr) ->
      P (s :: rest) w
        (r, w',
         deleteEntry lg s false
         :: EvDeletePod (v1.Namespace (v1.Meta pod))
              (v1.Name (v1.Meta pod)) err :: tr)) ->
  (forall s rest w e w1,
      is_Some (reasonsMap c !! statusReason s) -> dryRun c = false ->
      DeletePod (deleter c) (v1.Namespace (v1.Meta pod))
        (v1.Name (v1.Meta pod)) w = (Some e, w1) ->
      k8sErrors.IsNotFound e = false ->
      P (s :: rest) w
        (Some (wrapDelete e (v1.Namespace (v1.Meta pod))
                 (v1.Name (v1.Meta pod))), w1,
         [deleteEntry lg s false;
          EvDeletePod (v1.Namespace (v1.Meta pod))
            (v1.Name (v1.Meta pod)) (Some e)])) ->
  forall sts w, P sts w (rangeStatuses c lg pod sts w).
Proof.
  intros Hnil Hskip Hdry Hdel Hfatal sts.
  induction sts as [|s rest IH]; intros w; [apply Hnil|].
  destruct (reasonsMap c !! statusReason s) as [b|] eqn:Hr.
  - assert (Hsome : is_Some (reasonsMap c !! statusReason s)) by eauto.
    assert (dryRun c = true \/ dryRun c = false) as [Hd|Hd]
      by (destruct (dryRun c); auto).
    + rewrite rangeStatuses_dry by assumption.
      specialize (IH w).
      destruct (rangeStatuses c lg pod rest w) as [[r w'] tr].
      apply Hdry; assumption.
    + rewrite rangeStatuses_delete by assumption. cbv zeta.
      destruct (DeletePod (deleter c) _ _ w) as [[e|] w1] eqn:Hcall.
      * destruct (k8sErrors.IsNotFound e) eqn:Hnf.
        -- specialize (IH w1).
           destruct (rangeStatuses c lg pod rest w1) as [[r w'] tr].
           eapply Hdel; eauto. intros e' [= <-]. assumption.
        -- eapply Hfatal; eauto.
      * specialize (IH w1).
        destruct (rangeStatuses c lg pod rest w1) as [[r w'] tr].
        eapply Hdel; eauto. intros e' [=].
  - rewrite rangeStatuses_skip by assumption.
    specialize (IH w).
    destruct (rangeStatuses c lg pod rest w) as [[r w'] tr].
    apply Hskip; assumption.
Qed.
End StatusLoop.

(** ** Events that end a trace *)

Section LastOnly.
Context (Q : Event -> Prop).

Lemma lastOnly_nil : lastOnly Q [].
Proof. intros [|x tr1] e tr2 Heq; discriminate Heq. Qed.

Lemma lastOnly_cons x tr : ~ Q x -> lastOnly Q tr -> lastOnly Q (x :: tr).
Proof.
  intros Hx Htr [|y tr1] e tr2 Heq He; injection Heq as -> Heq.
  - contradiction.
  - eapply Htr; eauto.
Qed.

Lemma lastOnly_singleton x : lastOnly Q [x].
Proof.
  intros [|y tr1] e tr2 Heq _; injection Heq as _ Heq.
  - congruence.
  - destruct tr1; discriminate Heq.
Qed.

Lemma lastOnly_app tr tr' :
  Forall (fun e => ~ Q e) tr -> lastOnly Q tr' -> lastOnly Q (tr ++ tr').
Proof.
  induction 1 as [|x tr Hx _ IH]; intros Htr'; [exact Htr'|].
  cbn [app]. apply lastOnly_cons; auto.
Qed.
End LastOnly.

Lemma deletions_app tr1 tr2 :
  deletions (tr1 ++ tr2) = deletions tr1 ++ deletions tr2.
Proof. unfold deletions. apply omap_app. Qed.

Lemma elem_of_deletions ns name tr :
  (ns, name) ∈ deletions tr <-> exists err, EvDeletePod ns name err ∈ tr.
Proof.
  unfold deletions. rewrite list_elem_of_omap. split.
  - intros [[] [Hin Hd]]; cbn in Hd; try discriminate.
    injection Hd as -> ->. eauto.
  - intros [err Hin]. eexists; split; [exact Hin|reflexivity].
Qed.

Lemma no_deletion_count (ns name : string) tr :
  (forall err, EvDeletePod ns name err ∉ tr) -> deletionsOf ns name tr = 0%nat.
Proof.
  intros Hno. unfold deletionsOf.
  destruct (List.filter _ (deletions tr)) as [|k rest] eqn:E; [reflexivity|].
  assert (Hk : k ∈ List.filter (fun k => bool_decide (k = (ns, name)))
                 (deletions tr)) by (rewrite E; left).
  apply list_elem_of_In, List.filter_In in Hk as [Hk Heq].
  apply bool_decide_eq_true in Heq. subst k.
  apply list_elem_of_In, elem_of_deletions in Hk as [err Hk].
  destruct (Hno err Hk).
Qed.

Lemma accepted_true {W} (c : Controller W) s :
  accepted c s = true <-> is_Some (reasonsMap c !! statusReason s).
Proof. unfold accepted. apply bool_decide_eq_true. Qed.

Section StatusFacts.
Context {W : Type} `{rt : Runtime W}.
Implicit Types (c : Controller W) (w : W) (tr : list Event).

(** The loop performs log calls and deletions, nothing else. *)
Lemma rangeStatuses_events c lg pod sts w :
  Forall (fun e => isStatusEvent e = true) (rangeStatuses c lg pod sts w).2.
Proof.
  apply (rangeStatuses_run_ind c lg pod (fun _ _ res => Forall _ res.2));
    cbn; intros; repeat constructor; auto.
Qed.

(** Every deletion it issues is for its pod, outside a dry run, and after
    a status with an accepted reason. *)
Lemma rangeStatuses_deletes c lg pod sts w ns name err :
  EvDeletePod ns name err ∈ (rangeStatuses c lg pod sts w).2 ->
  ns = v1.Namespace (v1.Meta pod) /\ name = v1.Name (v1.Meta pod)
  /\ dryRun c = false
  /\ exists s, s ∈ sts /\ is_Some (reasonsMap c !! statusReason s).
Proof.
  apply (rangeStatuses_run_ind c lg pod
           (fun sts _ res =>
              EvDeletePod ns name err ∈ res.2 ->
              ns = v1.Namespace (v1.Meta pod)
              /\ name = v1.Name (v1.Meta pod) /\ dryRun c = false
              /\ exists s, s ∈ sts
                   /\ is_Some (reasonsMap c !! statusReason s)));
    cbn [snd]; clear sts w.
  - intros w Hin. inversion Hin.
  - intros s rest w r w' tr Hr IH Hin.
    apply elem_of_cons in Hin as [Heq|Hin]; [discriminate Heq|].
    destruct (IH Hin) as (? & ? & ? & s' & ? & ?).
    repeat split; auto. exists s'. split; [right|]; auto.
  - intros s rest w r w' tr Hr Hd IH Hin.
    apply elem_of_cons in Hin as [Heq|Hin]; [discriminate Heq|].
    destruct (IH Hin) as (? & ? & ? & s' & ? & ?).
    repeat split; auto. exists s'. split; [right|]; auto.
  - intros s rest w e w1 r w' tr Hr Hd Hcall Hnf IH Hin.
    apply elem_of_cons in Hin as [Heq|Hin]; [discriminate Heq|].
    apply elem_of_cons in Hin as [Heq|Hin].
    + injection Heq as -> -> ->. repeat split; auto.
      exists s. split; [left|]; auto.
    + destruct (IH Hin) as (? & ? & ? & s' & ? & ?).
      repeat split; auto. exists s'. split; [right|]; auto.
  - intros s rest w e w1 Hr Hd Hcall Hnf Hin.
    apply elem_of_cons in Hin as [Heq|Hin]; [discriminate Heq|].
    apply elem_of_cons in Hin as [Heq|Hin]; [|inversion Hin].
    injection Heq as -> -> ->. repeat split; auto.
    exists s. split; [left|]; auto.
Qed.

(** A deletion that fails for another reason than the pod being gone is
    the last thing the loop does, and its error is what the loop
    returns, wrapped with the namespace and the name of the pod. *)
Lemma rangeStatuses_fatal_last c lg pod sts w :
  lastOnly fatalDelete (rangeStatuses c lg pod sts w).2.
Proof.
  apply (rangeStatuses_run_ind c lg pod
           (fun _ _ res => lastOnly fatalDelete res.2)); cbn [snd]; intros.
  - apply lastOnly_nil.
  - apply lastOnly_cons; auto.
  - apply lastOnly_cons; auto.
  - apply lastOnly_cons; [auto|]. apply lastOnly_cons; [|assumption].
    destruct err as [e|]; cbn; [|auto].
    rewrite (H2 e eq_refl). discriminate.
  - apply lastOnly_cons; [auto|]. apply lastOnly_singleton.
Qed.

Lemma rangeStatuses_fatal_result c lg pod sts w e :
  e ∈ (rangeStatuses c lg pod sts w).2 -> fatalDelete e ->
  exists err,
    e = EvDeletePod (v1.Namespace (v1.Meta pod)) (v1.Name (v1.Meta pod))
          (Some err)
    /\ (rangeStatuses c lg pod sts w).1.1
       = Some (wrapDelete err (v1.Namespace (v1.Meta pod))
                 (v1.Name (v1.Meta pod))).
Proof.
  apply (rangeStatuses_run_ind c lg pod
           (fun _ _ res =>
              e ∈ res.2 -> fatalDelete e ->
              exists err,
                e = EvDeletePod (v1.Namespace (v1.Meta pod))
                      (v1.Name (v1.Meta pod)) (Some err)
                /\ res.1.1
                   = Some (wrapDelete err (v1.Namespace (v1.Meta pod))
                             (v1.Name (v1.Meta pod)))));
    cbn [fst snd]; clear sts w.
  - intros w Hin. inversion Hin.
  - intros s rest w r w' tr Hr IH Hin Hf.
    apply elem_of_cons in Hin as [->|Hin]; [destruct Hf|]. auto.
  - intros s rest w r w' tr Hr Hd IH Hin Hf.
    apply elem_of_cons in Hin as [->|Hin]; [destruct Hf|]. auto.
  - intros s rest w err w1 r w' tr Hr Hd Hcall Hnf IH Hin Hf.
    apply elem_of_cons in Hin as [->|Hin]; [destruct Hf|].
    apply elem_of_cons in Hin as [->|Hin]; [|auto].
    destruct err as [x|]; cbn in Hf; [|destruct Hf].
    rewrite (Hnf x eq_refl) in Hf. discriminate Hf.
  - intros s rest w x w1 Hr Hd Hcall Hnf Hin Hf.
    apply elem_of_cons in Hin as [->|Hin]; [destruct Hf|].
    apply elem_of_cons in Hin as [->|Hin]; [|inversion Hin].
    eauto.
Qed.

(** When the loop returns an error, a deletion has just failed for
    another reason than the pod being gone. *)
Lemma rangeStatuses_error c lg pod sts w x :
  (rangeStatuses c lg pod sts w).1.1 = Some x ->
  exists tr1 err,
    (rangeStatuses c lg pod sts w).2
    = tr1 ++ [EvDeletePod (v1.Namespace (v1.Meta pod))
                (v1.Name (v1.Meta pod)) (Some err)]
    /\ k8sErrors.IsNotFound err = false
    /\ x = wrapDelete err (v1.Namespace (v1.Meta pod))
             (v1.Name (v1.Meta pod)).
Proof.
  apply (rangeStatuses_run_ind c lg pod
           (fun _ _ res =>
              res.1.1 = Some x ->
              exists tr1 err,
                res.2
                = tr1 ++ [EvDeletePod (v1.Namespace (v1.Meta pod))
                            (v1.Name (v1.Meta pod)) (Some err)]
                /\ k8sErrors.IsNotFound err = false
                /\ x = wrapDelete err (v1.Namespace (v1.Meta pod))
                         (v1.Name (v1.Meta pod))));
    cbn [fst snd]; clear sts w.
  - intros w [=].
  - intros s rest w r w' tr Hr IH Hx.
    destruct (IH Hx) as (tr1 & err & -> & ? & ?).
    exists (skipEntry lg s :: tr1), err. auto.
  - intros s rest w r w' tr Hr Hd IH Hx.
    destruct (IH Hx) as (tr1 & err & -> & ? & ?).
    exists (deleteEntry lg s true :: tr1), err. auto.
  - intros s rest w err0 w1 r w' tr Hr Hd Hcall Hnf IH Hx.
    destruct (IH Hx) as (tr1 & err & -> & ? & ?).
    eexists (_ :: _ :: tr1), err. auto.
  - intros s rest w e w1 Hr Hd Hcall Hnf [= <-].
    exists [deleteEntry lg s false], e. auto.
Qed.

(** Outside a dry run, a loop that runs to its end has issued one
    deletion for each status with an accepted reason. *)
Lemma rangeStatuses_count c lg pod sts w :
  dryRun c = false ->
  (rangeStatuses c lg pod sts w).1.1 = None ->
  deletions (rangeStatuses c lg pod sts w).2
  = repeat (v1.Namespace (v1.Meta pod), v1.Name (v1.Meta pod))
      (length (List.filter (accepted c) sts)).
Proof.
  intros Hnd.
  apply (rangeStatuses_run_ind c lg pod
           (fun sts _ res =>
              res.1.1 = None ->
              deletions res.2
              = repeat (v1.Namespace (v1.Meta pod), v1.Name (v1.Meta pod))
                  (length (List.filter (accepted c) sts))));
    cbn [fst snd]; clear sts w.
  - reflexivity.
  - intros s rest w r w' tr Hr IH Hnone. cbn [List.filter].
    replace (accepted c s) with false
      by (symmetry; apply bool_decide_eq_false; rewrite Hr;
          apply is_Some_None).
    apply IH, Hnone.
  - intros; congruence.
  - intros s rest w err w1 r w' tr Hr Hd Hcall Hnf IH Hnone.
    cbn [List.filter].
    replace (accepted c s) with true
      by (symmetry; apply accepted_true, Hr).
    cbn. unfold deletions in IH. rewrite IH by assumption. reflexivity.
  - intros; discriminate.
Qed.

(** In a dry run the loop issues no deletion, leaves the world as it is
    and runs to its end. *)
Lemma rangeStatuses_dry_run c lg pod sts w :
  dryRun c = true ->
  exists tr, rangeStatuses c lg pod sts w = (None, w, tr)
             /\ deletions tr = [].
Proof.
  intros Hd.
  apply (rangeStatuses_run_ind c lg pod
           (fun _ w res => exists tr, res = (None, w, tr)
                                      /\ deletions tr = []));
    clear sts w.
  - intros w. eauto.
  - intros s rest w r w' tr Hr (tr0 & [= -> -> ->] & Hdel). eauto.
  - intros s rest w r w' tr Hr _ (tr0 & [= -> -> ->] & Hdel). eauto.
  - intros; congruence.
  - intros; congruence.
Qed.
End StatusFacts.

(** ** The loop over the pods *)

Section PodLoop.
Context {W : Type} `{rt : Runtime W}.
Implicit Types (c : Controller W) (w : W) (tr : list Event).

Ltac ops :=
  unfold logDebug, logInfo, ctxDone, timeNow, bind, ret, emit in *;
  cbn beta iota in *.

(** Induction over a run of the loop of [Once]: one case per way through
    its body. *)
Lemma rangePods_run_ind c ctx
    (P : list v1.Pod -> W -> Outcome * W * list Event -> Prop) :
  (forall w, P [] w (Return None, w, [])) ->
  (forall pod rest w w1,
      Done ctx w = (true, w1) ->
      P (pod :: rest) w (Return None, w1, [EvDone true])) ->
  (forall pod rest w w1,
      Done ctx w = (false, w1) -> logger c = None ->
      P (pod :: rest) w (Panic, w1, [EvDone false])) ->
  (forall pod rest w w1 lg o w' tr,
      Done ctx w = (false, w1) -> logger c = Some lg ->
      skippedPhase (v1.Phase (v1.Status pod)) = true ->
      P rest w1 (o, w', tr) ->
      P (pod :: rest) w (o, w', EvDone false :: phaseEntry lg pod :: tr)) ->
  (forall pod rest w w1 lg t w2 o w' tr,
      Done ctx w = (false, w1) -> logger c = Some lg ->
      skippedPhase (v1.Phase (v1.Status pod)) = false ->
      time_Now w1 = (t, w2) -> tooYoung c pod t = true ->
      P rest w2 (o, w', tr) ->
      P (pod :: rest) w
        (o, w', EvDone false :: EvNow t :: youngEntry lg pod :: tr)) ->
  (forall pod rest w w1 lg t w2 e w3 ts,
      Done ctx w = (false, w1) -> logger c = Some lg ->
      skippedPhase (v1.Phase (v1.Status pod)) = false ->
      time_Now w1 = (t, w2) -> tooYoung c pod t = false ->
      rangeStatuses c (podLogger lg pod) pod
        (v1.ContainerStatuses (v1.Status pod)) w2 = (Some e, w3, ts) ->
      P (pod :: rest) w
        (Return (Some e), w3, EvDone false :: EvNow t :: ts)) ->
  (forall pod rest w w1 lg t w2 w3 ts o w' tr,
      Done ctx w = (false, w1) -> logger c = Some lg ->
      skippedPhase (v1.Phase (v1.Status pod)) = false ->
      time_Now w1 = (t, w2) -> tooYoung c pod t = false ->
      rangeStatuses c (podLogger lg pod) pod
        (v1.ContainerStatuses (v1.Status pod)) w2 = (None, w3, ts) ->
      P rest w3 (o, w', tr) ->
      P (pod :: rest) w
        (o, w', EvDone false :: EvNow t :: ts ++ tr)) ->
  forall pods w, P pods w (rangePods c ctx pods w).
Proof.
  intros Hnil Hcancel Hpanic Hphase Hyoung Herr Hok pods.
  induction pods as [|pod rest IH]; intros w; [apply Hnil|].
  cbn [rangePods]. ops.
  destruct (Done ctx w) as [[|] w1] eqn:Hdone; [eapply Hcancel; eauto|].
  assert (logger c = None \/ exists lg, logger c = Some lg) as [Hlg|[lg Hlg]]
    by (destruct (logger c); eauto); rewrite Hlg.
  { eapply Hpanic; eauto. }
  fold (podLogger lg pod).
  destruct (skippedPhase (v1.Phase (v1.Status pod))) eqn:Hph.
  { specialize (IH w1).
    destruct (rangePods c ctx rest w1) as [[o w'] tr].
    eapply Hphase; eauto. }
  destruct (time_Now w1) as [t w2] eqn:Hnow.
  fold (tooYoung c pod t).
  destruct (tooYoung c pod t) eqn:Hy.
  { specialize (IH w2).
    destruct (rangePods c ctx rest w2) as [[o w'] tr].
    eapply Hyoung; eauto. }
  destruct (rangeStatuses c (podLogger lg pod) pod
              (v1.ContainerStatuses (v1.Status pod)) w2)
    as [[[e|] w3] ts] eqn:Hsts.
  - rewrite app_nil_r. eapply Herr; eauto.
  - specialize (IH w3).
    destruct (rangePods c ctx rest w3) as [[o w'] tr].
    cbn [app]. eapply (Hok pod rest w w1 lg t w2 w3 ts o w' tr); eauto.
Qed.
End PodLoop.

Section PodFacts.
Context {W : Type} `{rt : Runtime W}.
Implicit Types (c : Controller W) (w : W) (tr : list Event).

(** What is known of the events of a run of the status loop. *)
Lemma status_run_events c lg pod sts w r w' ts :
  rangeStatuses c lg pod sts w = (r, w', ts) ->
  Forall (fun e => isStatusEvent e = true) ts.
Proof.
  intros Heq. pose proof (rangeStatuses_events c lg pod sts w) as H.
  rewrite Heq in H. exact H.
Qed.

Lemma status_event_not_cancelled e : isStatusEvent e = true -> ~ cancelled e.
Proof. intros He ->. discriminate He. Qed.

(** A pass performs no select and no cancel, and lists no pods inside
    its loop. *)
Lemma rangePods_events c ctx pods w :
  Forall (fun e => isPassEvent e = true /\ isListPods e = false)
    (rangePods c ctx pods w).2.
Proof.
  apply (rangePods_run_ind c ctx (fun _ _ res => Forall _ res.2));
    cbn [snd]; intros; repeat (constructor; [split; reflexivity|]);
    try assumption; try constructor.
  - eapply Forall_impl; [eapply status_run_events; eauto|].
    intros []; cbn; intros; try discriminate; auto.
  - apply Forall_app. split; [|assumption].
    eapply Forall_impl; [eapply status_run_events; eauto|].
    intros []; cbn; intros; try discriminate; auto.
Qed.

(** Every deletion of a pass is for a pod of the listing whose phase is
    not skipped, that was old enough at a reading of the clock, outside
    a dry run, and after a status with an accepted reason. *)
Lemma rangePods_deletes c ctx pods w ns name err :
  EvDeletePod ns name err ∈ (rangePods c ctx pods w).2 ->
  exists p,
    p ∈ pods /\ named ns name p
    /\ skippedPhase (v1.Phase (v1.Status p)) = false
    /\ dryRun c = false
    /\ (exists t, EvNow t ∈ (rangePods c ctx pods w).2
                  /\ tooYoung c p t = false)
    /\ exists s, s ∈ v1.ContainerStatuses (v1.Status p)
                 /\ is_Some (reasonsMap c !! statusReason s).
Proof.
  pose (J := fun (pods : list v1.Pod) (tr : list Event) =>
    exists p,
      p ∈ pods /\ named ns name p
      /\ skippedPhase (v1.Phase (v1.Status p)) = false
      /\ dryRun c = false
      /\ (exists t, EvNow t ∈ tr /\ tooYoung c p t = false)
      /\ exists s, s ∈ v1.ContainerStatuses (v1.Status p)
                   /\ is_Some (reasonsMap c !! statusReason s)).
  assert (Hmono : forall pod rest pre tr,
             J rest tr -> J (pod :: rest) (pre ++ tr)).
  { intros pod rest pre tr (p & Hp & Hn & Hph & Hd & (t & Ht & Hy) & Hs).
    exists p. split; [right; exact Hp|]. do 3 (split; [assumption|]).
    split; [|exact Hs].
    exists t. split; [apply elem_of_app; auto|auto]. }
  assert (Hhead : forall pod rest lg t w2 r w3 ts tl,
    skippedPhase (v1.Phase (v1.Status pod)) = false ->
    tooYoung c pod t = false ->
    rangeStatuses c lg pod (v1.ContainerStatuses (v1.Status pod)) w2
    = (r, w3, ts) ->
    EvDeletePod ns name err ∈ ts ->
    J (pod :: rest) (EvDone false :: EvNow t :: ts ++ tl)).
  { intros pod rest lg t w2 r w3 ts tl Hph Hy Hrun Hin.
    pose proof (rangeStatuses_deletes c lg pod
                  (v1.ContainerStatuses (v1.Status pod)) w2 ns name err)
      as H.
    rewrite Hrun in H. destruct (H Hin) as (-> & -> & Hd & Hs).
    exists pod. split; [left|]. split; [split; reflexivity|].
    do 2 (split; [assumption|]). split; [|exact Hs].
    exists t. split; [right; left|assumption]. }
  change (EvDeletePod ns name err ∈ (rangePods c ctx pods w).2 ->
          J pods (rangePods c ctx pods w).2).
  apply (rangePods_run_ind c ctx
           (fun pods _ res =>
              EvDeletePod ns name err ∈ res.2 -> J pods res.2));
    cbn [snd]; clear pods w.
  - intros w Hin. inversion Hin.
  - intros pod rest w w1 _ Hin.
    apply elem_of_cons in Hin as [Heq|Hin]; [discriminate|inversion Hin].
  - intros pod rest w w1 _ _ Hin.
    apply elem_of_cons in Hin as [Heq|Hin]; [discriminate|inversion Hin].
  - intros pod rest w w1 lg o w' tr _ _ _ IH Hin.
    apply elem_of_cons in Hin as [Heq|Hin]; [discriminate|].
    apply elem_of_cons in Hin as [Heq|Hin]; [discriminate|].
    apply (Hmono pod rest [_; _] tr), IH, Hin.
  - intros pod rest w w1 lg t w2 o w' tr _ _ _ _ _ IH Hin.
    apply elem_of_cons in Hin as [Heq|Hin]; [discriminate|].
    apply elem_of_cons in Hin as [Heq|Hin]; [discriminate|].
    apply elem_of_cons in Hin as [Heq|Hin]; [discriminate|].
    apply (Hmono pod rest [_; _; _] tr), IH, Hin.
  - intros pod rest w w1 lg t w2 e w3 ts _ _ Hph _ Hy Hrun Hin.
    apply elem_of_cons in Hin as [Heq|Hin]; [discriminate|].
    apply elem_of_cons in Hin as [Heq|Hin]; [discriminate|].
    rewrite <- (app_nil_r ts). eapply Hhead; eauto.
  - intros pod rest w w1 lg t w2 w3 ts o w' tr _ _ Hph _ Hy Hrun IH Hin.
    apply elem_of_cons in Hin as [Heq|Hin]; [discriminate|].
    apply elem_of_cons in Hin as [Heq|Hin]; [discriminate|].
    apply elem_of_app in Hin as [Hin|Hin].
    + eapply Hhead; eauto.
    + apply (Hmono pod rest (_ :: _ :: ts) tr), IH, Hin.
Qed.

(** A check that finds the context cancelled is the last event of the
    pass, and the pass then returns nil. *)
Lemma rangePods_cancel_last c ctx pods w :
  lastOnly cancelled (rangePods c ctx pods w).2.
Proof.
  apply (rangePods_run_ind c ctx (fun _ _ res => lastOnly cancelled res.2));
    cbn [snd]; intros;
    repeat (apply lastOnly_cons; [discriminate|]);
    try assumption;
    try apply lastOnly_nil; try apply lastOnly_singleton.
  - rewrite <- (app_nil_r ts). apply lastOnly_app; [|apply lastOnly_nil].
    eapply Forall_impl; [eapply status_run_events; eauto|].
    apply status_event_not_cancelled.
  - apply lastOnly_app; [|assumption].
    eapply Forall_impl; [eapply status_run_events; eauto|].
    apply status_event_not_cancelled.
Qed.

Lemma rangePods_cancel_result c ctx pods w :
  EvDone true ∈ (rangePods c ctx pods w).2 ->
  (rangePods c ctx pods w).1.1 = Return None.
Proof.
  apply (rangePods_run_ind c ctx
           (fun _ _ res => EvDone true ∈ res.2 -> res.1.1 = Return None));
    cbn [fst snd]; clear pods w.
  - intros w Hin. inversion Hin.
  - reflexivity.
  - intros pod rest w w1 _ _ Hin.
    apply elem_of_cons in Hin as [Heq|Hin]; [discriminate|inversion Hin].
  - intros pod rest w w1 lg o w' tr _ _ _ IH Hin.
    apply elem_of_cons in Hin as [Heq|Hin]; [discriminate|].
    apply elem_of_cons in Hin as [Heq|Hin]; [discriminate|auto].
  - intros pod rest w w1 lg t w2 o w' tr _ _ _ _ _ IH Hin.
    apply elem_of_cons in Hin as [Heq|Hin]; [discriminate|].
    apply elem_of_cons in Hin as [Heq|Hin]; [discriminate|].
    apply elem_of_cons in Hin as [Heq|Hin]; [discriminate|auto].
  - intros pod rest w w1 lg t w2 e w3 ts _ _ _ _ _ Hrun Hin.
    apply elem_of_cons in Hin as [Heq|Hin]; [discriminate|].
    apply elem_of_cons in Hin as [Heq|Hin]; [discriminate|].
    apply status_run_events in Hrun.
    rewrite Forall_forall in Hrun. specialize (Hrun _ Hin).
    discriminate Hrun.
  - intros pod rest w w1 lg t w2 w3 ts o w' tr _ _ _ _ _ Hrun IH Hin.
    apply elem_of_cons in Hin as [Heq|Hin]; [discriminate|].
    apply elem_of_cons in Hin as [Heq|Hin]; [discriminate|].
    apply elem_of_app in Hin as [Hin|Hin]; [|auto].
    apply status_run_events in Hrun.
    rewrite Forall_forall in Hrun. specialize (Hrun _ Hin).
    discriminate Hrun.
Qed.

Lemma status_run_no_fatal c lg pod sts w w' ts :
  rangeStatuses c lg pod sts w = (None, w', ts) ->
  Forall (fun e => ~ fatalDelete e) ts.
Proof.
  intros Hrun. apply Forall_forall. intros e Hin Hf.
  pose proof (rangeStatuses_fatal_result c lg pod sts w e) as H.
  rewrite Hrun in H. destruct (H Hin Hf) as (err & _ & Habs).
  discriminate Habs.
Qed.

(** A deletion that fails for another reason than the pod being gone is
    the last event of the pass, and the pass returns its error wrapped
    with the namespace and the name it was called with. *)
Lemma rangePods_fatal_last c ctx pods w :
  lastOnly fatalDelete (rangePods c ctx pods w).2.
Proof.
  apply (rangePods_run_ind c ctx
           (fun _ _ res => lastOnly fatalDelete res.2));
    cbn [snd]; intros;
    repeat (apply lastOnly_cons; [intros []|]);
    try assumption;
    try apply lastOnly_nil; try apply lastOnly_singleton.
  - pose proof (rangeStatuses_fatal_last c (podLogger lg pod) pod
                  (v1.ContainerStatuses (v1.Status pod)) w2) as Hl.
    rewrite H4 in Hl. exact Hl.
  - apply lastOnly_app; [|assumption].
    eapply status_run_no_fatal; eauto.
Qed.

Lemma rangePods_fatal_result c ctx pods w e :
  e ∈ (rangePods c ctx pods w).2 -> fatalDelete e ->
  exists ns name err,
    e = EvDeletePod ns name (Some err)
    /\ (rangePods c ctx pods w).1.1
       = Return (Some (wrapDelete err ns name)).
Proof.
  apply (rangePods_run_ind c ctx
           (fun _ _ res =>
              e ∈ res.2 -> fatalDelete e ->
              exists ns name err,
                e = EvDeletePod ns name (Some err)
                /\ res.1.1 = Return (Some (wrapDelete err ns name))));
    cbn [fst snd]; clear pods w.
  - intros w Hin. inversion Hin.
  - intros pod rest w w1 _ Hin Hf.
    apply elem_of_cons in Hin as [->|Hin]; [destruct Hf|inversion Hin].
  - intros pod rest w w1 _ _ Hin Hf.
    apply elem_of_cons in Hin as [->|Hin]; [destruct Hf|inversion Hin].
  - intros pod rest w w1 lg o w' tr _ _ _ IH Hin Hf.
    apply elem_of_cons in Hin as [->|Hin]; [destruct Hf|].
    apply elem_of_cons in Hin as [->|Hin]; [destruct Hf|auto].
  - intros pod rest w w1 lg t w2 o w' tr _ _ _ _ _ IH Hin Hf.
    apply elem_of_cons in Hin as [->|Hin]; [destruct Hf|].
    apply elem_of_cons in Hin as [->|Hin]; [destruct Hf|].
    apply elem_of_cons in Hin as [->|Hin]; [destruct Hf|auto].
  - intros pod rest w w1 lg t w2 x w3 ts _ _ _ _ _ Hrun Hin Hf.
    apply elem_of_cons in Hin as [->|Hin]; [destruct Hf|].
    apply elem_of_cons in Hin as [->|Hin]; [destruct Hf|].
    pose proof (rangeStatuses_fatal_result c (podLogger lg pod) pod
                  (v1.ContainerStatuses (v1.Status pod)) w2 e) as H.
    rewrite Hrun in H. destruct (H Hin Hf) as (err & -> & [= ->]).
    eauto.
  - intros pod rest w w1 lg t w2 w3 ts o w' tr _ _ _ _ _ Hrun IH Hin Hf.
    apply elem_of_cons in Hin as [->|Hin]; [destruct Hf|].
    apply elem_of_cons in Hin as [->|Hin]; [destruct Hf|].
    apply elem_of_app in Hin as [Hin|Hin]; [|auto].
    apply status_run_no_fatal in Hrun.
    rewrite Forall_forall in Hrun. destruct (Hrun _ Hin Hf).
Qed.

(** When the loop of a pass returns an error, a deletion has just failed
    for another reason than the pod being gone. *)
Lemma rangePods_error c ctx pods w x :
  (rangePods c ctx pods w).1.1 = Return (Some x) ->
  exists tr1 ns name err,
    (rangePods c ctx pods w).2 = tr1 ++ [EvDeletePod ns name (Some err)]
    /\ k8sErrors.IsNotFound err = false
    /\ x = wrapDelete err ns name.
Proof.
  apply (rangePods_run_ind c ctx
           (fun _ _ res =>
              res.1.1 = Return (Some x) ->
              exists tr1 ns name err,
                res.2 = tr1 ++ [EvDeletePod ns name (Some err)]
                /\ k8sErrors.IsNotFound err = false
                /\ x = wrapDelete err ns name));
    cbn [fst snd]; clear pods w.
  - intros w [=].
  - intros pod rest w w1 _ [=].
  - intros pod rest w w1 _ _ [=].
  - intros pod rest w w1 lg o w' tr _ _ _ IH Hx.
    destruct (IH Hx) as (tr1 & ns & name & err & -> & ? & ?).
    eexists (_ :: _ :: tr1), ns, name, err. auto.
  - intros pod rest w w1 lg t w2 o w' tr _ _ _ _ _ IH Hx.
    destruct (IH Hx) as (tr1 & ns & name & err & -> & ? & ?).
    eexists (_ :: _ :: _ :: tr1), ns, name, err. auto.
  - intros pod rest w w1 lg t w2 e w3 ts _ _ _ _ _ Hrun [= ->].
    pose proof (rangeStatuses_error c (podLogger lg pod) pod
                  (v1.ContainerStatuses (v1.Status pod)) w2 x) as H.
    rewrite Hrun in H. destruct (H eq_refl) as (tr1 & err & Hts & ? & ?).
    cbn [snd] in Hts. subst ts.
    eexists (_ :: _ :: tr1), _, _, err. auto.
  - intros pod rest w w1 lg t w2 w3 ts o w' tr _ _ _ _ _ Hrun IH Hx.
    destruct (IH Hx) as (tr1 & ns & name & err & -> & ? & ?).
    eexists (_ :: _ :: ts ++ tr1), ns, name, err.
    split; [|auto]. cbn [app]. rewrite <- app_assoc. reflexivity.
Qed.

(** The loop of a pass panics on a nil logger only. *)
Lemma rangePods_panic c ctx pods w :
  (rangePods c ctx pods w).1.1 = Panic -> logger c = None.
Proof.
  apply (rangePods_run_ind c ctx
           (fun _ _ res => res.1.1 = Panic -> logger c = None));
    cbn [fst snd]; intros; try discriminate; auto.
Qed.

Lemma deletionsOf_app (ns name : string) tr1 tr2 :
  deletionsOf ns name (tr1 ++ tr2)
  = (deletionsOf ns name tr1 + deletionsOf ns name tr2)%nat.
Proof.
  unfold deletionsOf. rewrite deletions_app, List.filter_app.
  apply length_app.
Qed.

Lemma deletionsOf_repeat (ns name : string) n :
  length (List.filter (fun k => bool_decide (k = (ns, name)))
            (repeat (ns, name) n)) = n.
Proof.
  induction n as [|n IH]; [reflexivity|]. cbn [repeat List.filter].
  rewrite bool_decide_eq_true_2 by reflexivity. cbn. congruence.
Qed.

(** Outside a dry run, a pass that runs over all its pods has issued, for
    each pod whose phase is not skipped and that was old enough at every
    reading of the clock, at least one deletion for each of its statuses
    with an accepted reason. *)
Lemma rangePods_count c ctx pods w p :
  dryRun c = false ->
  (rangePods c ctx pods w).1.1 = Return None ->
  EvDone true ∉ (rangePods c ctx pods w).2 ->
  p ∈ pods ->
  skippedPhase (v1.Phase (v1.Status p)) = false ->
  (forall t, EvNow t ∈ (rangePods c ctx pods w).2 ->
             tooYoung c p t = false) ->
  (length (List.filter (accepted c) (v1.ContainerStatuses (v1.Status p)))
   <= deletionsOf (v1.Namespace (v1.Meta p)) (v1.Name (v1.Meta p))
        (rangePods c ctx pods w).2)%nat.
Proof.
  intros Hnd. set (ns := v1.Namespace (v1.Meta p)).
  set (name := v1.Name (v1.Meta p)).
  apply (rangePods_run_ind c ctx
           (fun pods _ res =>
              res.1.1 = Return None -> EvDone true ∉ res.2 -> p ∈ pods ->
              skippedPhase (v1.Phase (v1.Status p)) = false ->
              (forall t, EvNow t ∈ res.2 -> tooYoung c p t = false) ->
              (length (List.filter (accepted c)
                         (v1.ContainerStatuses (v1.Status p)))
               <= deletionsOf ns name res.2)%nat));
    cbn [fst snd]; clear pods w.
  - intros w _ _ Hin. inversion Hin.
  - intros pod rest w w1 _ _ Hnc. exfalso. apply Hnc. left.
  - intros; discriminate.
  - intros pod rest w w1 lg o w' tr _ _ Hph IH Ho Hnc Hin Hp Hold.
    apply elem_of_cons in Hin as [->|Hin]; [congruence|].
    change (EvDone false :: phaseEntry lg pod :: tr)
      with ([EvDone false; phaseEntry lg pod] ++ tr).
    rewrite deletionsOf_app. cbn [deletionsOf deletions omap length].
    apply IH; auto.
    + intros Hc. apply Hnc. do 2 right. exact Hc.
    + intros t Ht. apply Hold. do 2 right. exact Ht.
  - intros pod rest w w1 lg t w2 o w' tr _ _ _ _ Hy IH Ho Hnc Hin Hp Hold.
    apply elem_of_cons in Hin as [->|Hin].
    { rewrite Hold in Hy; [discriminate|]. right; left. }
    change (EvDone false :: EvNow t :: youngEntry lg pod :: tr)
      with ([EvDone false; EvNow t; youngEntry lg pod] ++ tr).
    rewrite deletionsOf_app. cbn [deletionsOf deletions omap length].
    apply IH; auto.
    + intros Hc. apply Hnc. do 3 right. exact Hc.
    + intros t' Ht. apply Hold. do 3 right. exact Ht.
  - intros; discriminate.
  - intros pod rest w w1 lg t w2 w3 ts o w' tr _ _ _ _ _ Hrun IH Ho Hnc
      Hin Hp Hold.
    change (EvDone false :: EvNow t :: ts ++ tr)
      with ([EvDone false; EvNow t] ++ ts ++ tr).
    rewrite !deletionsOf_app.
    apply elem_of_cons in Hin as [->|Hin].
    + pose proof (rangeStatuses_count c (podLogger lg pod) pod
                    (v1.ContainerStatuses (v1.Status pod)) w2 Hnd) as Hc.
      rewrite Hrun in Hc. specialize (Hc eq_refl). cbn [snd] in Hc.
      unfold deletionsOf at 2. rewrite Hc.
      subst ns name. rewrite deletionsOf_repeat. lia.
    + assert (length (List.filter (accepted c)
                        (v1.ContainerStatuses (v1.Status p)))
              <= deletionsOf ns name tr)%nat; [|lia].
      apply IH; auto.
      * intros Hc. apply Hnc. do 2 right. apply elem_of_app. auto.
      * intros t' Ht. apply Hold. do 2 right. apply elem_of_app. auto.
Qed.
End PodFacts.

Section CheckFacts.
Context {W : Type} `{rt : Runtime W}.
Implicit Types (c : Controller W) (w : W) (tr : list Event).

(** A trace that is empty or starts with a check of the context. *)
Lemma rangePods_head c ctx pods w :
  match (rangePods c ctx pods w).2 with
  | [] => True
  | e :: _ => isDone e = true
  end.
Proof.
  apply (rangePods_run_ind c ctx
           (fun _ _ res => match res.2 with
                           | [] => True
                           | e :: _ => isDone e = true
                           end)); cbn [snd]; auto.
Qed.

Lemma nowChecked_nil : nowChecked [].
Proof. intros [|x tr1] t tr2 Heq; discriminate Heq. Qed.

Lemma nowChecked_cons x tr :
  isNow x = false ->
  match tr with EvNow _ :: _ => x = EvDone false | _ => True end ->
  nowChecked tr -> nowChecked (x :: tr).
Proof.
  intros Hx Hhd Htr [|y tr1] t tr2 Heq; injection Heq as -> Heq.
  - discriminate Hx.
  - destruct tr1 as [|z tr1].
    + cbn in Heq. subst tr. subst y. exists []. reflexivity.
    + destruct (Htr (z :: tr1) t tr2 Heq) as [tr0 Htr0].
      exists (y :: tr0). cbn [app]. congruence.
Qed.

Lemma nowChecked_done_now t tr :
  nowChecked tr ->
  match tr with EvNow _ :: _ => False | _ => True end ->
  nowChecked (EvDone false :: EvNow t :: tr).
Proof.
  intros Htr Hhd [|y tr1] t' tr2 Heq; [discriminate Heq|].
  injection Heq as <- Heq.
  destruct tr1 as [|z tr1]; [exists []; reflexivity|].
  injection Heq as <- Heq.
  destruct tr1 as [|z tr1].
  - cbn in Heq. subst tr. destruct Hhd.
  - destruct (Htr (z :: tr1) t' tr2 Heq) as [tr0 Htr0].
    exists (EvDone false :: EvNow t :: tr0). cbn [app]. congruence.
Qed.

Lemma nowChecked_status ts tr :
  Forall (fun e => isStatusEvent e = true) ts ->
  nowChecked tr ->
  match tr with EvNow _ :: _ => False | _ => True end ->
  nowChecked (ts ++ tr)
  /\ match ts ++ tr with EvNow _ :: _ => False | _ => True end.
Proof.
  induction 1 as [|x ts Hx _ IH]; intros Htr Hhd; [split; assumption|].
  destruct (IH Htr Hhd) as [IH1 IH2]. split.
  - cbn [app]. apply nowChecked_cons; auto.
    + destruct x; cbn in Hx; try discriminate; reflexivity.
    + destruct (ts ++ tr) as [|[] ?]; auto. destruct IH2.
  - destruct x; cbn in Hx; try discriminate; exact I.
Qed.

Lemma head_done_not_now tr :
  match tr with [] => True | e :: _ => isDone e = true end ->
  match tr with EvNow _ :: _ => False | _ => True end.
Proof. destruct tr as [|[] ?]; cbn; auto. discriminate. Qed.

(** Every reading of the clock in a pass comes right after a check that
    found the context not cancelled. *)
Lemma rangePods_nowChecked c ctx pods w :
  nowChecked (rangePods c ctx pods w).2.
Proof.
  enough (nowChecked (rangePods c ctx pods w).2
          /\ match (rangePods c ctx pods w).2 with
             | [] => True
             | e :: _ => isDone e = true
             end) by tauto.
  apply (rangePods_run_ind c ctx
           (fun _ _ res =>
              nowChecked res.2
              /\ match res.2 with
                 | [] => True
                 | e :: _ => isDone e = true
                 end));
    cbn [snd]; clear pods w.
  - intros. split; [apply nowChecked_nil|exact I].
  - intros. split; [|reflexivity].
    apply nowChecked_cons; [reflexivity|exact I|apply nowChecked_nil].
  - intros. split; [|reflexivity].
    apply nowChecked_cons; [reflexivity|exact I|apply nowChecked_nil].
  - intros pod rest w w1 lg o w' tr _ _ _ [IH Hhd]. split; [|reflexivity].
    apply nowChecked_cons; [reflexivity|exact I|].
    apply nowChecked_cons; [reflexivity| |exact IH].
    destruct tr as [|[] ?]; auto. discriminate Hhd.
  - intros pod rest w w1 lg t w2 o w' tr _ _ _ _ _ [IH Hhd].
    split; [|reflexivity].
    apply nowChecked_done_now; [|exact I].
    apply nowChecked_cons; [reflexivity| |exact IH].
    destruct tr as [|[] ?]; auto. discriminate Hhd.
  - intros pod rest w w1 lg t w2 e w3 ts _ _ _ _ _ Hrun.
    split; [|reflexivity].
    apply status_run_events in Hrun.
    destruct (nowChecked_status ts [] Hrun nowChecked_nil I) as [H1 H2].
    rewrite app_nil_r in H1, H2.
    apply nowChecked_done_now; assumption.
  - intros pod rest w w1 lg t w2 w3 ts o w' tr _ _ _ _ _ Hrun [IH Hhd].
    split; [|reflexivity].
    apply status_run_events in Hrun.
    destruct (nowChecked_status ts tr Hrun IH (head_done_not_now tr Hhd))
      as [H1 H2].
    apply nowChecked_done_now; assumption.
Qed.

(** The clock is read at most once for each pod whose phase is not
    skipped, and the context is checked at most once for each pod; a
    pass that is not cut short checks it once for each pod. *)
Lemma status_run_counts c lg pod sts w r w' ts :
  rangeStatuses c lg pod sts w = (r, w', ts) ->
  List.filter isNow ts = [] /\ List.filter isDone ts = [].
Proof.
  intros Hrun. apply status_run_events in Hrun.
  induction Hrun as [|x ts Hx _ [IH1 IH2]]; [split; reflexivity|].
  destruct x; cbn in Hx; try discriminate; cbn; auto.
Qed.

Lemma rangePods_nows c ctx pods w :
  (length (List.filter isNow (rangePods c ctx pods w).2)
   <= length (List.filter
                (fun p => negb (skippedPhase (v1.Phase (v1.Status p))))
                pods))%nat.
Proof.
  apply (rangePods_run_ind c ctx
           (fun pods _ res =>
              (length (List.filter isNow res.2)
               <= length (List.filter
                    (fun p => negb (skippedPhase (v1.Phase (v1.Status p))))
                    pods))%nat));
    cbn [snd]; clear pods w; intros;
    cbn [List.filter isNow phaseEntry youngEntry logEvent];
    try rewrite List.filter_app;
    try match goal with
        | H : rangeStatuses _ _ _ _ _ = _ |- _ =>
            destruct (status_run_counts _ _ _ _ _ _ _ _ H) as [-> _]
        end;
    try match goal with
        | H : skippedPhase _ = _ |- _ => rewrite H
        end;
    cbn [negb length app]; lia.
Qed.

Lemma rangePods_dones c ctx pods w :
  (length (List.filter isDone (rangePods c ctx pods w).2) <= length pods)%nat
  /\ ((rangePods c ctx pods w).1.1 = Return None ->
      EvDone true ∉ (rangePods c ctx pods w).2 ->
      length (List.filter isDone (rangePods c ctx pods w).2)
      = length pods).
Proof.
  apply (rangePods_run_ind c ctx
           (fun pods _ res =>
              (length (List.filter isDone res.2) <= length pods)%nat
              /\ (res.1.1 = Return None -> EvDone true ∉ res.2 ->
                  length (List.filter isDone res.2) = length pods)));
    cbn [fst snd]; clear pods w.
  - intros. split; reflexivity.
  - intros. cbn. split; [lia|]. intros _ Hnc. exfalso. apply Hnc. left.
  - intros. cbn. split; [lia|]. discriminate.
  - intros pod rest w w1 lg o w' tr _ _ _ [IH1 IH2]. cbn. split; [lia|].
    intros Ho Hnc. rewrite IH2; auto.
    intros Hc. apply Hnc. do 2 right. exact Hc.
  - intros pod rest w w1 lg t w2 o w' tr _ _ _ _ _ [IH1 IH2]. cbn.
    split; [lia|].
    intros Ho Hnc. rewrite IH2; auto.
    intros Hc. apply Hnc. do 3 right. exact Hc.
  - intros pod rest w w1 lg t w2 e w3 ts _ _ _ _ _ Hrun.
    cbn [List.filter isDone length].
    destruct (status_run_counts _ _ _ _ _ _ _ _ Hrun) as [_ ->].
    cbn. split; [lia|]. discriminate.
  - intros pod rest w w1 lg t w2 w3 ts o w' tr _ _ _ _ _ Hrun [IH1 IH2].
    cbn [List.filter isDone length].
    rewrite List.filter_app, length_app.
    destruct (status_run_counts _ _ _ _ _ _ _ _ Hrun) as [_ ->].
    cbn. split; [lia|].
    intros Ho Hnc. rewrite IH2; auto.
    intros Hc. apply Hnc. do 2 right. apply elem_of_app. auto.
Qed.
End CheckFacts.

Section GraceFacts.
Context {W : Type} `{rt : Runtime W}.
Implicit Types (c : Controller W) (w : W) (tr : list Event).

(** Every deletion of a pass is issued in the evaluation of a listed pod
    of that namespace and name, after the reading of the clock of that
    evaluation, at which the pod was not too young; between the reading
    and the deletion are only log calls and deletions. *)
Lemma rangePods_delete_now c ctx pods w ns name err tr1 tr2 :
  (rangePods c ctx pods w).2 = tr1 ++ EvDeletePod ns name err :: tr2 ->
  exists p t tr0 tr1',
    p ∈ pods /\ named ns name p
    /\ tr1 = tr0 ++ EvNow t :: tr1'
    /\ Forall (fun e => isStatusEvent e = true) tr1'
    /\ tooYoung c p t = false.
Proof.
  revert tr1 tr2.
  pose (J := fun (pods : list v1.Pod) (tr1 : list Event) =>
    exists p t tr0 tr1',
      p ∈ pods /\ named ns name p
      /\ tr1 = tr0 ++ EvNow t :: tr1'
      /\ Forall (fun e => isStatusEvent e = true) tr1'
      /\ tooYoung c p t = false).
  assert (Hmono : forall pod rest pre tr1,
             J rest tr1 -> J (pod :: rest) (pre ++ tr1)).
  { intros pod rest pre tr1 (p & t & tr0 & tr1' & Hp & Hn & -> & Hs & Hy).
    exists p, t, (pre ++ tr0), tr1'.
    split; [right; exact Hp|]. split; [exact Hn|].
    split; [rewrite <- app_assoc; reflexivity|]. auto. }
  assert (Hhead : forall pod rest lg t w2 r w3 ts ts1 ts2,
    tooYoung c pod t = false ->
    rangeStatuses c lg pod (v1.ContainerStatuses (v1.Status pod)) w2
    = (r, w3, ts) ->
    ts = ts1 ++ EvDeletePod ns name err :: ts2 ->
    J (pod :: rest) (EvDone false :: EvNow t :: ts1)).
  { intros pod rest lg t w2 r w3 ts ts1 ts2 Hy Hrun Hts.
    assert (Hin : EvDeletePod ns name err ∈ ts)
      by (rewrite Hts; apply elem_of_app; right; left).
    pose proof (rangeStatuses_deletes c lg pod
                  (v1.ContainerStatuses (v1.Status pod)) w2 ns name err)
      as H.
    rewrite Hrun in H. destruct (H Hin) as (-> & -> & _).
    apply status_run_events in Hrun. rewrite Hts, Forall_app in Hrun.
    exists pod, t, [EvDone false], ts1.
    split; [left|]. split; [split; reflexivity|].
    split; [reflexivity|]. tauto. }
  apply (rangePods_run_ind c ctx
           (fun pods _ res =>
              forall tr1 tr2,
                res.2 = tr1 ++ EvDeletePod ns name err :: tr2 ->
                J pods tr1));
    cbn [snd]; clear pods w.
  - intros w [|x tr1] tr2 Heq; discriminate Heq.
  - intros pod rest w w1 _ [|x tr1] tr2 Heq; [discriminate Heq|].
    injection Heq as _ Heq. destruct tr1; discriminate Heq.
  - intros pod rest w w1 _ _ [|x tr1] tr2 Heq; [discriminate Heq|].
    injection Heq as _ Heq. destruct tr1; discriminate Heq.
  - intros pod rest w w1 lg o w' tr _ _ _ IH tr1 tr2 Heq.
    destruct tr1 as [|x tr1]; [discriminate Heq|]. injection Heq as <- Heq.
    destruct tr1 as [|y tr1]; [discriminate Heq|]. injection Heq as <- Heq.
    apply (Hmono pod rest [_; _] tr1). eapply IH, Heq.
  - intros pod rest w w1 lg t w2 o w' tr _ _ _ _ _ IH tr1 tr2 Heq.
    destruct tr1 as [|x tr1]; [discriminate Heq|]. injection Heq as <- Heq.
    destruct tr1 as [|y tr1]; [discriminate Heq|]. injection Heq as <- Heq.
    destruct tr1 as [|z tr1]; [discriminate Heq|]. injection Heq as <- Heq.
    apply (Hmono pod rest [_; _; _] tr1). eapply IH, Heq.
  - intros pod rest w w1 lg t w2 e w3 ts _ _ _ _ Hy Hrun tr1 tr2 Heq.
    destruct tr1 as [|x tr1]; [discriminate Heq|]. injection Heq as <- Heq.
    destruct tr1 as [|y tr1]; [discriminate Heq|]. injection Heq as <- Heq.
    eapply Hhead; eauto.
  - intros pod rest w w1 lg t w2 w3 ts o w' tr _ _ _ _ Hy Hrun IH tr1 tr2 Heq.
    destruct tr1 as [|x tr1]; [discriminate Heq|]. injection Heq as <- Heq.
    destruct tr1 as [|y tr1]; [discriminate Heq|]. injection Heq as <- Heq.
    apply app_eq_app in Heq as [l [[Hts Heq]|[-> Heq]]].
    + destruct l as [|z l].
      * cbn in Heq. symmetry in Heq.
        destruct (IH [] tr2 Heq) as (p & t' & tr0 & tr1' & _ & _ & Habs & _).
        destruct tr0; discriminate Habs.
      * injection Heq as <- _. eapply Hhead; eauto.
    + apply (Hmono pod rest (_ :: _ :: ts) l). eapply IH, Heq.
Qed.
End GraceFacts.

(** ** A pass *)

Section OnceFacts.
Context {W : Type} `{rt : Runtime W}.
Implicit Types (c : Controller W) (w : W) (tr : list Event).

Lemma Once_ok c ctx w :
  listError c w = None ->
  Once c ctx w
  = let '(o, w', tr) := rangePods c ctx (listed c w) (afterList c w) in
    (o, w',
     EvListPods (namespace c) (selector c) (listed c w) None :: tr).
Proof.
  unfold listError, listed, afterList, Once, callListPods, bind, ret.
  destruct (ListPods (lister c) (namespace c) (selector c) w)
    as [[pods err] w1]. cbn [fst snd]. intros ->.
  destruct (rangePods c ctx pods w1) as [[o w'] tr]. reflexivity.
Qed.

Lemma Once_list_failed c ctx w e :
  listError c w = Some e ->
  Once c ctx w
  = (Return (Some (errors.Wrap e "failed to list pods")), afterList c w,
     [EvListPods (namespace c) (selector c) (listed c w) (Some e)]).
Proof.
  unfold listError, listed, afterList, Once, callListPods, bind, ret.
  destruct (ListPods (lister c) (namespace c) (selector c) w)
    as [[pods err] w1]. cbn [fst snd]. intros ->. reflexivity.
Qed.

(** The trace of a pass: the listing, then the loop over the pods when
    the listing succeeded. *)
Lemma Once_trace c ctx w :
  traceOf (Once c ctx) w
  = EvListPods (namespace c) (selector c) (listed c w) (listError c w)
    :: match listError c w with
       | Some _ => []
       | None => (rangePods c ctx (listed c w) (afterList c w)).2
       end.
Proof.
  unfold traceOf. destruct (listError c w) as [e|] eqn:He.
  - rewrite (Once_list_failed _ _ _ _ He). reflexivity.
  - rewrite (Once_ok _ _ _ He).
    destruct (rangePods c ctx (listed c w) (afterList c w)) as [[o w'] tr].
    reflexivity.
Qed.

Lemma Once_result c ctx w :
  resultOf (Once c ctx) w
  = match listError c w with
    | Some e => Return (Some (errors.Wrap e "failed to list pods"))
    | None => (rangePods c ctx (listed c w) (afterList c w)).1.1
    end.
Proof.
  unfold resultOf. destruct (listError c w) as [e|] eqn:He.
  - rewrite (Once_list_failed _ _ _ _ He). reflexivity.
  - rewrite (Once_ok _ _ _ He).
    destruct (rangePods c ctx (listed c w) (afterList c w)) as [[o w'] tr].
    reflexivity.
Qed.

(** An event of the loop of a pass that is in the trace of the pass. *)
Lemma Once_trace_inv c ctx w e :
  e ∈ traceOf (Once c ctx) w -> isListPods e = false ->
  listError c w = None
  /\ e ∈ (rangePods c ctx (listed c w) (afterList c w)).2.
Proof.
  rewrite Once_trace. intros Hin Hnl.
  apply elem_of_cons in Hin as [->|Hin]; [discriminate Hnl|].
  destruct (listError c w); [inversion Hin|auto].
Qed.

Lemma Once_trace_loop c ctx w e :
  listError c w = None ->
  e ∈ (rangePods c ctx (listed c w) (afterList c w)).2 ->
  e ∈ traceOf (Once c ctx) w.
Proof. intros He Hin. rewrite Once_trace, He. right. exact Hin. Qed.
End OnceFacts.

(** ** A dry run *)

Section DryRun.
Context {W : Type} `{rt : Runtime W}.
Implicit Types (c : Controller W) (w : W) (tr : list Event).

Lemma rangePods_cons c ctx pod rest w :
  rangePods c ctx (pod :: rest) w
  = let '(b, w1) := Done ctx w in
    if b then (Return None, w1, [EvDone true]) else
    match logger c with
    | None => (Panic, w1, [EvDone false])
    | Some lg =>
        if skippedPhase (v1.Phase (v1.Status pod)) then
          let '(o, w', tr) := rangePods c ctx rest w1 in
          (o, w', EvDone false :: phaseEntry lg pod :: tr)
        else
          let '(t, w2) := time_Now w1 in
          if tooYoung c pod t then
            let '(o, w', tr) := rangePods c ctx rest w2 in
            (o, w', EvDone false :: EvNow t :: youngEntry lg pod :: tr)
          else
            let '(r, w3, ts) :=
              rangeStatuses c (podLogger lg pod) pod
                (v1.ContainerStatuses (v1.Status pod)) w2 in
            match r with
            | Some e => (Return (Some e), w3, EvDone false :: EvNow t :: ts)
            | None =>
                let '(o, w', tr) := rangePods c ctx rest w3 in
                (o, w', EvDone false :: EvNow t :: ts ++ tr)
            end
    end.
Proof.
  cbn [rangePods].
  unfold logDebug, logInfo, ctxDone, timeNow, bind, ret, emit.
  cbn beta iota.
  destruct (Done ctx w) as [[|] w1]; [reflexivity|].
  destruct (logger c) as [lg|]; [|reflexivity].
  fold (podLogger lg pod).
  destruct (skippedPhase (v1.Phase (v1.Status pod))).
  { destruct (rangePods c ctx rest w1) as [[o w'] tr]. reflexivity. }
  destruct (time_Now w1) as [t w2]. fold (tooYoung c pod t).
  destruct (tooYoung c pod t).
  { destruct (rangePods c ctx rest w2) as [[o w'] tr]. reflexivity. }
  destruct (rangeStatuses c (podLogger lg pod) pod
              (v1.ContainerStatuses (v1.Status pod)) w2)
    as [[[e|] w3] ts].
  - rewrite app_nil_r. reflexivity.
  - destruct (rangePods c ctx rest w3) as [[o w'] tr]. reflexivity.
Qed.

Lemma dryView_app tr1 tr2 : dryView (tr1 ++ tr2) = dryView tr1 ++ dryView tr2.
Proof. apply omap_app. Qed.

Lemma dryView_deleteEntry lg s tr ns name err :
  dryView (deleteEntry lg s false :: EvDeletePod ns name err :: tr)
  = dryView (deleteEntry lg s true :: tr).
Proof.
  unfold dryView, omap.
  cbn [list_omap asDryRun deleteEntry logEvent zap.level zap.message
         zap.fields].
  rewrite !map_app. reflexivity.
Qed.

(** The loop over the statuses in a dry run, and out of it when every
    deletion succeeds at once: same result, same world, same trace as a
    dry run shows it. *)
Lemma rangeStatuses_dry_normal c lg pod sts w :
  dryRun c = true ->
  (rangeStatuses c lg pod sts w).1 = (rangeStatuses (normalOf c) lg pod sts w).1
  /\ dryView (rangeStatuses c lg pod sts w).2
     = dryView (rangeStatuses (normalOf c) lg pod sts w).2.
Proof.
  intros Hd. revert w. induction sts as [|s rest IH]; intros w.
  { split; reflexivity. }
  specialize (IH w). destruct IH as [IH1 IH2].
  destruct (reasonsMap c !! statusReason s) as [b|] eqn:Hr.
  - rewrite (rangeStatuses_dry c) by eauto.
    rewrite (rangeStatuses_delete (normalOf c)) by (cbn; eauto).
    cbv zeta. cbn [normalOf set_dryRun set_deleter deleter nopDeleter
                     DeletePod].
    change (set_dryRun false (set_deleter nopDeleter c)) with (normalOf c).
    destruct (rangeStatuses c lg pod rest w) as [[r w'] tr].
    destruct (rangeStatuses (normalOf c) lg pod rest w) as [[r' w''] tr'].
    cbn [fst snd] in *. split; [exact IH1|].
    rewrite dryView_deleteEntry.
    change (deleteEntry lg s true :: tr)
      with ([deleteEntry lg s true] ++ tr).
    change (deleteEntry lg s true :: tr')
      with ([deleteEntry lg s true] ++ tr').
    rewrite !dryView_app. congruence.
  - rewrite (rangeStatuses_skip c) by assumption.
    rewrite (rangeStatuses_skip (normalOf c)) by (cbn; assumption).
    destruct (rangeStatuses c lg pod rest w) as [[r w'] tr].
    destruct (rangeStatuses (normalOf c) lg pod rest w) as [[r' w''] tr'].
    cbn [fst snd] in *. split; [exact IH1|].
    change (skipEntry lg s :: tr) with ([skipEntry lg s] ++ tr).
    change (skipEntry lg s :: tr') with ([skipEntry lg s] ++ tr').
    rewrite !dryView_app. congruence.
Qed.

Lemma rangePods_dry_normal c ctx pods w :
  dryRun c = true ->
  (rangePods c ctx pods w).1 = (rangePods (normalOf c) ctx pods w).1
  /\ dryView (rangePods c ctx pods w).2
     = dryView (rangePods (normalOf c) ctx pods w).2.
Proof.
  intros Hd. revert w. induction pods as [|pod rest IH]; intros w.
  { split; reflexivity. }
  rewrite !rangePods_cons.
  change (logger (normalOf c)) with (logger c).
  destruct (Done ctx w) as [[|] w1]; [split; reflexivity|].
  destruct (logger c) as [lg|]; [|split; reflexivity].
  destruct (skippedPhase (v1.Phase (v1.Status pod))).
  { destruct (IH w1) as [IH1 IH2].
    destruct (rangePods c ctx rest w1) as [[o w'] tr].
    destruct (rangePods (normalOf c) ctx rest w1) as [[o' w''] tr'].
    cbn [fst snd] in *. split; [exact IH1|].
    change (EvDone false :: phaseEntry lg pod :: tr)
      with ([EvDone false; phaseEntry lg pod] ++ tr).
    change (EvDone false :: phaseEntry lg pod :: tr')
      with ([EvDone false; phaseEntry lg pod] ++ tr').
    rewrite !dryView_app. congruence. }
  destruct (time_Now w1) as [t w2].
  change (tooYoung (normalOf c) pod t) with (tooYoung c pod t).
  destruct (tooYoung c pod t).
  { destruct (IH w2) as [IH1 IH2].
    destruct (rangePods c ctx rest w2) as [[o w'] tr].
    destruct (rangePods (normalOf c) ctx rest w2) as [[o' w''] tr'].
    cbn [fst snd] in *. split; [exact IH1|].
    change (EvDone false :: EvNow t :: youngEntry lg pod :: tr)
      with ([EvDone false; EvNow t; youngEntry lg pod] ++ tr).
    change (EvDone false :: EvNow t :: youngEntry lg pod :: tr')
      with ([EvDone false; EvNow t; youngEntry lg pod] ++ tr').
    rewrite !dryView_app. congruence. }
  destruct (rangeStatuses_dry_normal c (podLogger lg pod) pod
              (v1.ContainerStatuses (v1.Status pod)) w2 Hd) as [S1 S2].
  destruct (rangeStatuses c (podLogger lg pod) pod
              (v1.ContainerStatuses (v1.Status pod)) w2)
    as [[r w3] ts].
  destruct (rangeStatuses (normalOf c) (podLogger lg pod) pod
              (v1.ContainerStatuses (v1.Status pod)) w2)
    as [[r' w3'] ts'].
  cbn [fst snd] in S1, S2. injection S1 as <- <-.
  destruct r as [e|].
  - cbn [fst snd]. split; [reflexivity|].
    change (EvDone false :: EvNow t :: ts)
      with ([EvDone false; EvNow t] ++ ts).
    change (EvDone false :: EvNow t :: ts')
      with ([EvDone false; EvNow t] ++ ts').
    rewrite !dryView_app. congruence.
  - destruct (IH w3) as [IH1 IH2].
    destruct (rangePods c ctx rest w3) as [[o w'] tr].
    destruct (rangePods (normalOf c) ctx rest w3) as [[o' w''] tr'].
    cbn [fst snd] in *. split; [exact IH1|].
    change (EvDone false :: EvNow t :: ts ++ tr)
      with ([EvDone false; EvNow t] ++ ts ++ tr).
    change (EvDone false :: EvNow t :: ts' ++ tr')
      with ([EvDone false; EvNow t] ++ ts' ++ tr').
    rewrite !dryView_app. congruence.
Qed.

(** In a dry run the loop of a pass issues no deletion and returns nil
    unless the logger is nil. *)
Lemma rangePods_dry_run c ctx pods w :
  dryRun c = true ->
  deletions (rangePods c ctx pods w).2 = []
  /\ ((rangePods c ctx pods w).1.1 = Return None
      \/ (rangePods c ctx pods w).1.1 = Panic /\ logger c = None).
Proof.
  intros Hd. split.
  - destruct (deletions (rangePods c ctx pods w).2) as [|[ns name] l] eqn:E;
      [reflexivity|].
    assert (Hin : (ns, name) ∈ deletions (rangePods c ctx pods w).2)
      by (rewrite E; left).
    apply elem_of_deletions in Hin as [err Hin].
    apply rangePods_deletes in Hin as (p & _ & _ & _ & Hnd & _).
    congruence.
  - destruct ((rangePods c ctx pods w).1.1) as [[x|]|] eqn:Ho; auto.
    + apply rangePods_error in Ho as (tr1 & ns & name & err & Htr & _).
      assert (Hin : EvDeletePod ns name (Some err)
                    ∈ (rangePods c ctx pods w).2).
      { rewrite Htr. apply elem_of_app. right. left. }
      apply rangePods_deletes in Hin as (p & _ & _ & _ & Hnd & _).
      congruence.
    + right. split; [reflexivity|]. eapply rangePods_panic; eauto.
Qed.
End DryRun.

(** ** Construction *)

Section NewFacts.
Context {W : Type} `{rt : Runtime W}.
Implicit Types (c : Controller W).

Lemma fillReasonsMap_lookup rs (m : gmap string bool) r :
  is_Some (fillReasonsMap rs m !! r) <-> r ∈ rs \/ is_Some (m !! r).
Proof.
  revert m. induction rs as [|x rs IH]; intros m; cbn [fillReasonsMap].
  - split; [auto|]. intros [Hin|H]; [inversion Hin|exact H].
  - rewrite IH, elem_of_cons. destruct (decide (x = r)) as [->|Hne].
    + rewrite lookup_insert_eq. split; [auto|]. intros _. right. eauto.
    + rewrite lookup_insert_ne by assumption. split.
      * intros [?|?]; auto.
      * intros [[?|?]|?]; auto. congruence.
Qed.

(** The options of the package never fail and leave the lister, the
    deleter and the map of reasons as they are. *)
Lemma applyOptions_package options c :
  Forall packageOption options ->
  exists c', applyOptions options c = (c', None)
             /\ lister c' = lister c /\ deleter c' = deleter c
             /\ reasonsMap c' = reasonsMap c.
Proof.
  intros Hall. revert c.
  induction Hall as [|o options Ho _ IH]; intros c; [exists c; auto|].
  cbn [applyOptions].
  destruct Ho; cbn;
    match goal with
    | |- context [applyOptions options ?c1] =>
        destruct (IH c1) as (c' & -> & ? & ? & ?); exists c'; auto
    end.
Qed.

(** A controller made by [New] from options of the package has a logger,
    the lister and the deleter given, and a map of reasons whose keys are
    the reasons configured. *)
Lemma New_package l d options c :
  Forall packageOption options ->
  New l d options = (Some c, None) ->
  lister c = l /\ deleter c = d /\ logger c <> None
  /\ forall r, is_Some (reasonsMap c !! r) <-> r ∈ reasons c.
Proof.
  intros Hall. unfold New.
  match goal with
  | |- context [applyOptions options ?c0] =>
      destruct (applyOptions_package options c0 Hall)
        as (c' & -> & Hl & Hd & Hm)
  end.
  cbn in Hl, Hd, Hm.
  assert (Hkeys : forall c1 : Controller W,
             reasonsMap c1 = ∅ ->
             forall r,
               is_Some (fillReasonsMap (reasons c1) (reasonsMap c1) !! r)
               <-> r ∈ reasons c1).
  { intros c1 H1 r. rewrite fillReasonsMap_lookup, H1, lookup_empty.
    split; [intros [?|[? ?]]; [assumption|discriminate]|auto]. }
  destruct (logger c') as [lg|] eqn:Hlg.
  - intros [= <-]. cbn. rewrite Hlg.
    do 3 (split; [auto|]). apply (Hkeys c' Hm).
  - destruct zap_NewProduction as [lg|e]; [|discriminate].
    intros [= <-]. cbn.
    do 3 (split; [auto|]). apply (Hkeys c' Hm).
Qed.
End NewFacts.

(** * The claims of the specification *)

Section Claims.
Context {W : Type} `{rt : Runtime W}.
Implicit Types (c : Controller W) (ctx : Context_ W) (w : W).

Lemma skippedPhase_false ph :
  skippedPhase ph = false
  <-> ph ∉ [v1.PodPending; v1.PodSucceeded; v1.PodUnknown].
Proof.
  unfold skippedPhase. rewrite !orb_false_iff, !bool_decide_eq_false.
  rewrite !not_elem_of_cons. split.
  - intros [[? ?] ?]. repeat split; auto. apply not_elem_of_nil.
  - intros (? & ? & ? & _). auto.
Qed.

Lemma tooYoung_spec c p t :
  tooYoung c p t = true
  <-> t < v1.CreationTimestamp (v1.Meta p) + grace c.
Proof. unfold tooYoung, time.After, time.Add. apply Z.ltb_lt. Qed.

(** A deletion in the trace of a pass is one of its loop over the pods. *)
Lemma Once_delete_inv c ctx w ns name err :
  EvDeletePod ns name err ∈ traceOf (Once c ctx) w ->
  exists p,
    p ∈ listed c w /\ named ns name p
    /\ skippedPhase (v1.Phase (v1.Status p)) = false
    /\ dryRun c = false
    /\ (exists t, EvNow t ∈ traceOf (Once c ctx) w
                  /\ tooYoung c p t = false)
    /\ exists s, s ∈ v1.ContainerStatuses (v1.Status p)
                 /\ is_Some (reasonsMap c !! statusReason s).
Proof.
  intros Hin. apply Once_trace_inv in Hin as [He Hin]; [|reflexivity].
  apply rangePods_deletes in Hin
    as (p & Hp & Hn & Hph & Hd & (t & Ht & Hy) & Hs).
  exists p. do 4 (split; [assumption|]). split; [|exact Hs].
  exists t. split; [|exact Hy]. apply Once_trace_loop; assumption.
Qed.

(** C2. For every pod whose phase is Pending, Succeeded or Unknown, Once
    never issues a deletion for that pod, whatever its age and its
    container reasons; only pods with phase Running or Failed proceed to
    further checks.  A deletion names a pod by namespace and name: none
    is issued for a namespace and name under which the listing has only
    pods of these three phases.  The clock, read for the next check, is
    read at most once per listed pod whose phase is not one of the
    three, and among the phases the API defines those are Running and
    Failed. *)
Theorem Once_skips_pending_succeeded_unknown c ctx w ns name :
  (forall p, p ∈ listed c w -> named ns name p ->
             v1.Phase (v1.Status p)
             ∈ [v1.PodPending; v1.PodSucceeded; v1.PodUnknown]) ->
  (forall err, EvDeletePod ns name err ∉ traceOf (Once c ctx) w)
  /\ (length (List.filter isNow (traceOf (Once c ctx) w))
      <= length (List.filter
                   (fun p => negb (skippedPhase (v1.Phase (v1.Status p))))
                   (listed c w)))%nat
  /\ (forall ph, skippedPhase ph = false
                 <-> ph ∉ [v1.PodPending; v1.PodSucceeded; v1.PodUnknown])
  /\ (forall ph, knownPhase ph -> skippedPhase ph = false ->
                 ph = v1.PodRunning \/ ph = v1.PodFailed).
Proof.
  intros Hphase. split; [|split; [|split]].
  - intros err Hin.
    apply Once_delete_inv in Hin as (p & Hp & Hn & Hph & _).
    apply skippedPhase_false in Hph. apply Hph, Hphase; assumption.
  - rewrite Once_trace. cbn [List.filter isNow].
    destruct (listError c w); [cbn; lia|].
    apply rangePods_nows.
  - apply skippedPhase_false.
  - intros ph Hk Hs. apply skippedPhase_false in Hs.
    unfold knownPhase in Hk.
    repeat (apply elem_of_cons in Hk as [->|Hk]);
      try (inversion Hk; fail); auto;
      exfalso; apply Hs; set_solver.
Qed.

(** C3. For every pod whose creation timestamp satisfies
    now < creationTimestamp + grace, Once never issues a deletion for
    that pod, whatever its phase and its container reasons.  Every
    deletion of a pass is issued in the evaluation of a listed pod of that
    namespace and name, after the reading of the clock of that evaluation
    (only log calls and deletions lie between the two), and that reading
    is not before creationTimestamp + grace.  So no deletion is issued for
    a namespace and name whose listed pods are younger than the grace
    period at every reading of the clock in the pass. *)
Theorem Once_skips_young_pods c ctx w :
  (forall tr1 ns name err tr2,
      traceOf (Once c ctx) w = tr1 ++ EvDeletePod ns name err :: tr2 ->
      exists p t tr0 tr1',
        p ∈ listed c w /\ named ns name p
        /\ tr1 = tr0 ++ EvNow t :: tr1'
        /\ Forall (fun e => isStatusEvent e = true) tr1'
        /\ v1.CreationTimestamp (v1.Meta p) + grace c <= t)
  /\ (forall ns name,
         (forall p t, p ∈ listed c w -> named ns name p ->
                      EvNow t ∈ traceOf (Once c ctx) w ->
                      t < v1.CreationTimestamp (v1.Meta p) + grace c) ->
         forall err, EvDeletePod ns name err ∉ traceOf (Once c ctx) w).
Proof.
  split.
  - intros tr1 ns name err tr2 Htr.
    assert (Hin : EvDeletePod ns name err ∈ traceOf (Once c ctx) w)
      by (rewrite Htr; apply elem_of_app; right; left).
    destruct (Once_trace_inv c ctx w _ Hin eq_refl) as [Hlist _].
    rewrite Once_trace, Hlist in Htr.
    destruct tr1 as [|x tr1]; [discriminate Htr|]. injection Htr as <- Htr.
    destruct (rangePods_delete_now c ctx _ _ _ _ _ _ _ Htr)
      as (p & t & tr0 & tr1' & Hp & Hn & -> & Hs & Hy).
    exists p, t, (EvListPods (namespace c) (selector c) (listed c w) None
                  :: tr0), tr1'.
    do 4 (split; [auto|]).
    destruct (Z_lt_le_dec t (v1.CreationTimestamp (v1.Meta p) + grace c))
      as [Hlt|Hle]; [|exact Hle].
    apply tooYoung_spec in Hlt. congruence.
  - intros ns name Hyoung err Hin.
    apply Once_delete_inv in Hin as (p & Hp & Hn & _ & _ & (t & Ht & Hy) & _).
    apply (Hyoung p t Hp Hn), tooYoung_spec in Ht. congruence.
Qed.

(** C5. If listing pods fails, Once returns an error that wraps the
    listing failure, and no deletion is issued during that pass: the
    listing is all the pass does. *)
Theorem Once_list_failure c ctx w e :
  listError c w = Some e ->
  resultOf (Once c ctx) w
  = Return (Some (errors.Wrap e "failed to list pods"))
  /\ traceOf (Once c ctx) w
     = [EvListPods (namespace c) (selector c) (listed c w) (Some e)]
  /\ deletions (traceOf (Once c ctx) w) = [].
Proof.
  intros He. rewrite Once_result, Once_trace, He. auto.
Qed.
End Claims.


(** The cases of a membership in a list that is written out. *)
Ltac in_cases H :=
  repeat (apply elem_of_cons in H as [H|H]; [try discriminate H|]);
  try (inversion H; fail).

Lemma Once_skips_pending_succeeded_unknown_witness :
  deletionsOf "default" "pending"
    (traceOf (Once (script.controllerOf []) script.ctx)
       (script.world [script.pending; script.old])) = 0%nat.
Proof.
  apply no_deletion_count.
  apply (Once_skips_pending_succeeded_unknown
           (script.controllerOf []) script.ctx
           (script.world [script.pending; script.old]) "default" "pending").
  intros p Hin [_ Hname]. vm_compute in Hin.
  in_cases Hin; subst p; [left|discriminate Hname].
Defined.

Lemma Once_skips_young_pods_witness :
  deletionsOf "default" "young"
    (traceOf (Once (script.controllerOf []) script.ctx)
       (script.world [script.young; script.old])) = 0%nat.
Proof.
  apply no_deletion_count.
  apply (proj2 (Once_skips_young_pods
                  (script.controllerOf []) script.ctx
                  (script.world [script.young; script.old]))
           "default" "young").
  intros p t Hin [_ Hname] Ht. vm_compute in Hin, Ht.
  in_cases Ht; injection Ht as ->;
    in_cases Hin; subst p; try discriminate Hname; reflexivity.
Defined.

Lemma Once_list_failure_witness :
  resultOf (Once (script.controllerOf []) script.ctx) script.unreachable
  = Return (Some (errors.Wrap (errorString "connection refused")
                    "failed to list pods"))
  /\ traceOf (Once (script.controllerOf []) script.ctx) script.unreachable
     = [EvListPods "" "" [] (Some (errorString "connection refused"))]
  /\ deletions
       (traceOf (Once (script.controllerOf []) script.ctx)
          script.unreachable) = [].
Proof.
  apply (Once_list_failure (script.controllerOf []) script.ctx
           script.unreachable (errorString "connection refused")).
  reflexivity.
Defined.

Section ReasonClaims.
Context {W : Type} `{rt : Runtime W}.
Implicit Types (c : Controller W) (ctx : Context_ W) (w : W).

(** C4. The reason of a container status is that of its Terminated state
    if present, else that of its Waiting state if present, else the
    empty string, and a reason is accepted when it is equal, as a
    string, to one of the reasons configured.  If no container status of
    a pod has an accepted reason the pod is never deleted; in particular
    a pod with no container status is never deleted, and with no reason
    configured no pod is ever deleted.  The controller is one [New]
    makes from options of the package. *)
Theorem Once_deletes_accepted_reasons_only l d options c ctx w :
  Forall packageOption options ->
  New l d options = (Some c, None) ->
  (forall s t, v1.Terminated (v1.State s) = Some t ->
               statusReason s = v1.Terminated_Reason t)
  /\ (forall s wt, v1.Terminated (v1.State s) = None ->
                   v1.Waiting (v1.State s) = Some wt ->
                   statusReason s = v1.Waiting_Reason wt)
  /\ (forall s, v1.Terminated (v1.State s) = None ->
                v1.Waiting (v1.State s) = None -> statusReason s = "")
  /\ (forall s, accepted c s = true
                <-> exists r, r ∈ reasons c /\ statusReason s = r)
  /\ (forall ns name,
         (forall p s, p ∈ listed c w -> named ns name p ->
                      s ∈ v1.ContainerStatuses (v1.Status p) ->
                      statusReason s ∉ reasons c) ->
         forall err, EvDeletePod ns name err ∉ traceOf (Once c ctx) w)
  /\ (forall ns name,
         (forall p, p ∈ listed c w -> named ns name p ->
                    v1.ContainerStatuses (v1.Status p) = []) ->
         forall err, EvDeletePod ns name err ∉ traceOf (Once c ctx) w)
  /\ (reasons c = [] -> deletions (traceOf (Once c ctx) w) = []).
Proof.
  intros Hopts Hnew.
  destruct (New_package l d options c Hopts Hnew) as (_ & _ & _ & Hkeys).
  assert (Hnone : forall ns name,
             (forall p s, p ∈ listed c w -> named ns name p ->
                          s ∈ v1.ContainerStatuses (v1.Status p) ->
                          statusReason s ∉ reasons c) ->
             forall err, EvDeletePod ns name err ∉ traceOf (Once c ctx) w).
  { intros ns name Hno err Hin.
    apply Once_delete_inv in Hin
      as (p & Hp & Hn & _ & _ & _ & s & Hs & Hacc).
    apply (Hno p s Hp Hn Hs), Hkeys, Hacc. }
  split; [|split; [|split; [|split; [|split; [|split]]]]].
  - intros s t Ht. unfold statusReason. rewrite Ht. reflexivity.
  - intros s wt Ht Hw. unfold statusReason. rewrite Ht, Hw. reflexivity.
  - intros s Ht Hw. unfold statusReason. rewrite Ht, Hw. reflexivity.
  - intros s. rewrite accepted_true, Hkeys. split.
    + intros Hin. eauto.
    + intros (r & Hin & ->). exact Hin.
  - exact Hnone.
  - intros ns name Hempty. apply Hnone.
    intros p s Hp Hn Hs. rewrite (Hempty p Hp Hn) in Hs. inversion Hs.
  - intros Hr.
    destruct (deletions (traceOf (Once c ctx) w)) as [|[ns name] rest]
      eqn:E; [reflexivity|].
    assert (Hin : (ns, name) ∈ deletions (traceOf (Once c ctx) w))
      by (rewrite E; left).
    apply elem_of_deletions in Hin as [err Hin].
    exfalso. revert Hin. apply Hnone.
    intros p s _ _ _. rewrite Hr. apply not_elem_of_nil.
Qed.

End ReasonClaims.

Lemma Once_deletes_accepted_reasons_only_witness :
  deletionsOf "default" "healthy"
    (traceOf (Once (script.controllerOf []) script.ctx)
       (script.world [script.healthy; script.old])) = 0%nat
  /\ deletionsOf "default" "bare"
       (traceOf (Once (script.controllerOf []) script.ctx)
          (script.world [script.bare; script.old])) = 0%nat.
Proof.
  assert (Hnew : New script.lister script.deleter []
                 = (Some (script.controllerOf []), None))
    by (vm_compute; reflexivity).
  split; apply no_deletion_count.
  - destruct (Once_deletes_accepted_reasons_only
                script.lister script.deleter [] (script.controllerOf [])
                script.ctx (script.world [script.healthy; script.old])
                (List.Forall_nil _) Hnew) as (_ & _ & _ & _ & H & _).
    apply H. intros p s Hin [_ Hname] Hs Hr. vm_compute in Hin.
    in_cases Hin; subst p; [|discriminate Hname].
    vm_compute in Hs. in_cases Hs; subst s.
    vm_compute in Hr. in_cases Hr.
  - destruct (Once_deletes_accepted_reasons_only
                script.lister script.deleter [] (script.controllerOf [])
                script.ctx (script.world [script.bare; script.old])
                (List.Forall_nil _) Hnew) as (_ & _ & _ & _ & _ & H & _).
    apply H. intros p Hin [_ Hname]. vm_compute in Hin.
    in_cases Hin; subst p; [reflexivity|discriminate Hname].
Defined.


Section PassClaims.
Context {W : Type} `{rt : Runtime W}.
Implicit Types (c : Controller W) (ctx : Context_ W) (w : W).

(** C6. When a deletion call fails: if the error is NotFound, Once treats
    it as success and goes on with the following eligible pods; for any
    other error Once returns at once an error wrapped with the namespace
    and the name of the failing pod, and no pod after it is processed in
    that pass.  First part: a pass whose failed deletions are all
    NotFound returns nil, and when it is not cancelled it has issued the
    deletions of every eligible pod listed.  Second part: a deletion that
    fails otherwise is the last event of the pass, it names a pod listed,
    and the pass returns its error wrapped with that namespace and
    name. *)
Theorem Once_deletion_failures c ctx w :
  (listError c w = None -> logger c <> None ->
   (forall ns name err,
       EvDeletePod ns name (Some err) ∈ traceOf (Once c ctx) w ->
       k8sErrors.IsNotFound err = true) ->
   resultOf (Once c ctx) w = Return None
   /\ (dryRun c = false -> EvDone true ∉ traceOf (Once c ctx) w ->
       forall p,
         p ∈ listed c w ->
         skippedPhase (v1.Phase (v1.Status p)) = false ->
         (forall t, EvNow t ∈ traceOf (Once c ctx) w ->
                    tooYoung c p t = false) ->
         (length (List.filter (accepted c)
                    (v1.ContainerStatuses (v1.Status p)))
          <= deletionsOf (v1.Namespace (v1.Meta p)) (v1.Name (v1.Meta p))
               (traceOf (Once c ctx) w))%nat))
  /\ (forall tr1 ns name err tr2,
         traceOf (Once c ctx) w
         = tr1 ++ EvDeletePod ns name (Some err) :: tr2 ->
         k8sErrors.IsNotFound err = false ->
         tr2 = []
         /\ resultOf (Once c ctx) w
            = Return (Some (errors.Wrap err
                (String.append "failed to delete pod "
                   (String.append ns (String.append "/" name)))))
         /\ exists p, p ∈ listed c w /\ named ns name p).
Proof.
  split.
  - intros Hlist Hlg Hnf.
    assert (Hres : resultOf (Once c ctx) w = Return None).
    { rewrite Once_result, Hlist.
      destruct ((rangePods c ctx (listed c w) (afterList c w)).1.1)
        as [[x|]|] eqn:Ho; [|reflexivity|].
      - apply rangePods_error in Ho
          as (tr1 & ns & name & err & Htr & Hfatal & _).
        assert (Hin : EvDeletePod ns name (Some err)
                      ∈ traceOf (Once c ctx) w).
        { apply Once_trace_loop; [assumption|]. rewrite Htr.
          apply elem_of_app. right. left. }
        apply Hnf in Hin. congruence.
      - apply rangePods_panic in Ho. contradiction. }
    split; [exact Hres|].
    intros Hnd Hnc p Hp Hph Hold.
    rewrite Once_result, Hlist in Hres.
    rewrite Once_trace, Hlist.
    change (EvListPods (namespace c) (selector c) (listed c w) None
            :: (rangePods c ctx (listed c w) (afterList c w)).2)
      with ([EvListPods (namespace c) (selector c) (listed c w) None]
            ++ (rangePods c ctx (listed c w) (afterList c w)).2).
    rewrite deletionsOf_app. cbn [deletionsOf deletions omap length].
    apply rangePods_count; auto.
    + intros Hin. apply Hnc. apply Once_trace_loop; assumption.
    + intros t Hin. apply Hold. apply Once_trace_loop; assumption.
  - intros tr1 ns name err tr2 Htr Hfatal.
    assert (Hin : EvDeletePod ns name (Some err) ∈ traceOf (Once c ctx) w).
    { rewrite Htr. apply elem_of_app. right. left. }
    destruct (Once_trace_inv c ctx w _ Hin eq_refl) as [Hlist Hloop].
    rewrite Once_trace, Hlist in Htr.
    destruct tr1 as [|x tr1]; [discriminate Htr|].
    injection Htr as _ Htr.
    split; [|split].
    + eapply (rangePods_fatal_last c ctx); [exact Htr|exact Hfatal].
    + rewrite Once_result, Hlist.
      destruct (rangePods_fatal_result c ctx _ _ _ Hloop Hfatal)
        as (ns' & name' & err' & [= -> -> ->] & Hres).
      exact Hres.
    + apply Once_delete_inv in Hin as (p & Hp & Hn & _). eauto.
Qed.

(** C7. Once checks the cancellation token before evaluating each pod;
    if cancellation is requested at that point the pass stops at once
    and returns nil, leaving the pods not yet processed untouched:
    cancellation never produces an error.  The check that finds the
    context cancelled is the last event of the pass, and the pass
    returns nil; every reading of the clock comes right after a check
    that found it not cancelled; there is at most one check per pod
    listed, and exactly one when the pass runs over all of them. *)
Theorem Once_cancellation c ctx w :
  (forall tr1 tr2,
      traceOf (Once c ctx) w = tr1 ++ EvDone true :: tr2 ->
      tr2 = [] /\ resultOf (Once c ctx) w = Return None)
  /\ nowChecked (traceOf (Once c ctx) w)
  /\ (length (List.filter isDone (traceOf (Once c ctx) w))
      <= length (listed c w))%nat
  /\ (listError c w = None ->
      resultOf (Once c ctx) w = Return None ->
      EvDone true ∉ traceOf (Once c ctx) w ->
      length (List.filter isDone (traceOf (Once c ctx) w))
      = length (listed c w)).
Proof.
  split; [|split; [|split]].
  - intros tr1 tr2 Htr.
    assert (Hin : EvDone true ∈ traceOf (Once c ctx) w).
    { rewrite Htr. apply elem_of_app. right. left. }
    destruct (Once_trace_inv c ctx w _ Hin eq_refl) as [Hlist Hloop].
    rewrite Once_trace, Hlist in Htr.
    destruct tr1 as [|x tr1]; [discriminate Htr|].
    injection Htr as _ Htr. split.
    + eapply (rangePods_cancel_last c ctx); [exact Htr|reflexivity].
    + rewrite Once_result, Hlist. apply rangePods_cancel_result, Hloop.
  - rewrite Once_trace. intros [|x tr1] t tr2 Heq; [discriminate Heq|].
    injection Heq as _ Heq.
    destruct (listError c w).
    { destruct tr1; discriminate Heq. }
    destruct tr1 as [|y tr1].
    + pose proof (rangePods_head c ctx (listed c w) (afterList c w)) as Hh.
      cbn [app] in Heq. rewrite Heq in Hh. discriminate Hh.
    + destruct (rangePods_nowChecked c ctx (listed c w) (afterList c w)
                  (y :: tr1) t tr2 Heq) as [tr0 Htr0].
      exists (x :: tr0). cbn [app]. congruence.
  - rewrite Once_trace. cbn [List.filter isDone].
    destruct (listError c w); [cbn; lia|].
    apply rangePods_dones.
  - intros Hlist Hres Hnc.
    rewrite Once_result, Hlist in Hres.
    rewrite Once_trace, Hlist. cbn [List.filter isDone].
    apply rangePods_dones; [exact Hres|].
    intros Hin. apply Hnc. apply Once_trace_loop; assumption.
Qed.

(** C8. In dry-run mode the evaluation of a pass goes as in normal mode,
    but no deletion is ever issued for any pod, and the pass completes
    as if every deletion had succeeded: the pass issues no deletion,
    returns nil when the listing succeeds, and has the result, the final
    world and, deletions and the dry-run flag of the log entries apart,
    the trace of the pass of the same controller out of dry-run mode
    over a cluster on which every deletion succeeds. *)
Theorem Once_dry_run c ctx w :
  dryRun c = true ->
  deletions (traceOf (Once c ctx) w) = []
  /\ (logger c <> None -> listError c w = None ->
      resultOf (Once c ctx) w = Return None)
  /\ resultOf (Once c ctx) w = resultOf (Once (normalOf c) ctx) w
  /\ worldOf (Once c ctx) w = worldOf (Once (normalOf c) ctx) w
  /\ dryView (traceOf (Once c ctx) w)
     = dryView (traceOf (Once (normalOf c) ctx) w).
Proof.
  intros Hd.
  split; [|split].
  - rewrite Once_trace. cbn [deletions omap list_omap deleteOf].
    destruct (listError c w); [reflexivity|].
    apply rangePods_dry_run, Hd.
  - intros Hlg Hlist. rewrite Once_result, Hlist.
    destruct (rangePods_dry_run c ctx (listed c w) (afterList c w) Hd)
      as [_ [Hr|[_ Hr]]]; [exact Hr|contradiction].
  - unfold resultOf, worldOf, traceOf.
    destruct (listError c w) as [e|] eqn:Hlist.
    + rewrite (Once_list_failed c ctx w e Hlist).
      rewrite (Once_list_failed (normalOf c) ctx w e Hlist).
      auto.
    + rewrite (Once_ok c ctx w Hlist).
      rewrite (Once_ok (normalOf c) ctx w Hlist).
      change (listed (normalOf c) w) with (listed c w).
      change (afterList (normalOf c) w) with (afterList c w).
      change (namespace (normalOf c)) with (namespace c).
      change (selector (normalOf c)) with (selector c).
      destruct (rangePods_dry_normal c ctx (listed c w) (afterList c w) Hd)
        as [H1 H2].
      destruct (rangePods c ctx (listed c w) (afterList c w))
        as [[o w'] tr].
      destruct (rangePods (normalOf c) ctx (listed c w) (afterList c w))
        as [[o' w''] tr'].
      cbn [fst snd] in *. injection H1 as -> ->.
      do 2 (split; [reflexivity|]).
      unfold dryView, omap in *. cbn [list_omap asDryRun].
      rewrite H2. reflexivity.
Qed.
End PassClaims.

Lemma Once_deletion_failures_witness :
  (resultOf (Once (script.controllerOf []) script.ctx)
     (script.worldWith [script.old; script.failed] []
        [Some script.notFound; None] [])
   = Return None
   /\ (length (List.filter (accepted (script.controllerOf []))
                 (v1.ContainerStatuses (v1.Status script.failed)))
       <= deletionsOf "default" "failed"
            (traceOf (Once (script.controllerOf []) script.ctx)
               (script.worldWith [script.old; script.failed] []
                  [Some script.notFound; None] [])))%nat)
  /\ resultOf (Once (script.controllerOf []) script.ctx)
       (script.worldWith [script.old; script.failed] []
          [Some script.forbidden] [])
     = Return (Some (errors.Wrap script.forbidden
                       "failed to delete pod default/old")).
Proof.
  split.
  - destruct (proj1 (Once_deletion_failures (script.controllerOf [])
                       script.ctx
                       (script.worldWith [script.old; script.failed] []
                          [Some script.notFound; None] [])))
      as [Hres Hall].
    + vm_compute; reflexivity.
    + vm_compute; discriminate.
    + intros ns name err H. vm_compute in H. in_cases H.
      injection H as -> -> ->. reflexivity.
    + split; [exact Hres|].
      apply (Hall eq_refl).
      * intros H. vm_compute in H. in_cases H.
      * right; left.
      * reflexivity.
      * intros t Ht. vm_compute in Ht. in_cases Ht; injection Ht as ->;
          vm_compute; reflexivity.
  - pose (tr := traceOf (Once (script.controllerOf []) script.ctx)
                  (script.worldWith [script.old; script.failed] []
                     [Some script.forbidden] [])).
    destruct (proj2 (Once_deletion_failures (script.controllerOf [])
                       script.ctx
                       (script.worldWith [script.old; script.failed] []
                          [Some script.forbidden] []))
                (firstn 4 tr) "default" "old" script.forbidden [])
      as (_ & Hres & _).
    + vm_compute; reflexivity.
    + reflexivity.
    + exact Hres.
Defined.

Lemma Once_cancellation_witness :
  resultOf (Once (script.controllerOf []) script.ctx)
    (script.worldWith [script.old; script.failed; script.twice]
       [false; true] [] [])
  = Return None.
Proof.
  pose (tr := traceOf (Once (script.controllerOf []) script.ctx)
                (script.worldWith [script.old; script.failed; script.twice]
                   [false; true] [] [])).
  destruct (proj1 (Once_cancellation (script.controllerOf []) script.ctx
                     (script.worldWith
                        [script.old; script.failed; script.twice]
                        [false; true] [] []))
              (firstn 5 tr) []) as [_ Hres].
  - vm_compute; reflexivity.
  - exact Hres.
Defined.

Lemma Once_dry_run_witness :
  deletions (traceOf (Once (script.controllerOf [WithDryRun true])
                        script.ctx)
               (script.world [script.old; script.twice])) = [].
Proof.
  apply (Once_dry_run (script.controllerOf [WithDryRun true]) script.ctx
           (script.world [script.old; script.twice])).
  vm_compute; reflexivity.
Defined.

(** C1 (the code differs).  For every eligible pod processed by Once,
    exactly one deletion is issued for that pod, and once it is issued the
    remaining container statuses of the pod are not evaluated.  The loop
    over the statuses has no exit after the deletion: on a pod older than
    grace, of phase Running, whose two container statuses both have the
    accepted reason Error, the pass issues two deletions for the pod, the
    second after evaluating the second status. *)
Theorem Once_deletes_once_per_accepted_status :
  deletions (traceOf (Once (script.controllerOf []) script.ctx)
               (script.world [script.twice]))
  = [("default", "twice"); ("default", "twice")]
  /\ deletionsOf "default" "twice"
       (traceOf (Once (script.controllerOf []) script.ctx)
          (script.world [script.twice])) = 2%nat
  /\ resultOf (Once (script.controllerOf []) script.ctx)
       (script.world [script.twice]) = Return None.
Proof. vm_compute. repeat split; reflexivity. Qed.

(** ** The loop *)

Section LoopFacts.
Context {W : Type} `{rt : Runtime W}.
Implicit Types (c : Controller W) (ctx : Context_ W) (w : W).

(** *** What the loop needs to know of a pass *)

Lemma Once_events c ctx w :
  Forall (fun e => isPassEvent e = true) (traceOf (Once c ctx) w).
Proof.
  rewrite Once_trace. constructor; [reflexivity|].
  destruct (listError c w); [constructor|].
  eapply Forall_impl; [apply rangePods_events|]. intros e [He _]. exact He.
Qed.


Lemma passError_loop e :
  isListPods e = false -> passError e -> fatalDelete e.
Proof. destruct e; cbn; auto; discriminate. Qed.


Lemma Once_error_result c ctx w e :
  e ∈ traceOf (Once c ctx) w -> passError e ->
  exists x, resultOf (Once c ctx) w = Return (Some x).
Proof.
  rewrite Once_trace, Once_result. intros Hin He.
  destruct (listError c w) as [x|] eqn:Hlist; [eauto|].
  apply elem_of_cons in Hin as [->|Hin]; [destruct He|].
  assert (Hf : fatalDelete e).
  { apply passError_loop; [|exact He].
    pose proof (rangePods_events c ctx (listed c w) (afterList c w)) as H.
    rewrite Forall_forall in H. apply (H e Hin). }
  destruct (rangePods_fatal_result c ctx _ _ e Hin Hf)
    as (ns & name & err & _ & ->). eauto.
Qed.



(** *** The select loop, one case per way through its body *)

Lemma loopSelect_run_ind c ctx
    (P : nat -> W -> option Outcome * W * list Event -> Prop) :
  (forall w, P O w (None, w, [])) ->
  (forall n w w1,
      Loop_select w = (StopCase, w1) ->
      P (S n) w
        (Some (Return None), w1, [EvSelect StopCase; EvCancel; EvCancel])) ->
  (forall n w w1 e,
      Loop_select w = (TickCase, w1) ->
      resultOf (Once c ctx) w1 = Return (Some e) ->
      P (S n) w
        (Some (Return (Some (errors.Wrap e "failed to run"))),
         worldOf (Once c ctx) w1,
         EvSelect TickCase :: traceOf (Once c ctx) w1 ++ [EvCancel])) ->
  (forall n w w1,
      Loop_select w = (TickCase, w1) ->
      resultOf (Once c ctx) w1 = Panic ->
      P (S n) w
        (Some Panic, worldOf (Once c ctx) w1,
         EvSelect TickCase :: traceOf (Once c ctx) w1 ++ [EvCancel])) ->
  (forall n w w1 r w' tr,
      Loop_select w = (TickCase, w1) ->
      resultOf (Once c ctx) w1 = Return None ->
      P n (worldOf (Once c ctx) w1) (r, w', tr) ->
      P (S n) w
        (r, w', EvSelect TickCase :: traceOf (Once c ctx) w1 ++ tr)) ->
  forall fuel w, P fuel w (loopSelect fuel c ctx (emit EvCancel) w).
Proof.
  intros Hzero Hstop Herr Hpanic Hok fuel.
  induction fuel as [|n IH]; intros w; [apply Hzero|].
  cbn [loopSelect]. unfold selectLoop, bind, ret, emit. cbn beta iota.
  destruct (Loop_select w) as [[|] w1] eqn:Hsel; [|eapply Hstop; eauto].
  pose proof (Herr n w w1) as Herr'. pose proof (Hpanic n w w1) as Hpanic'.
  pose proof (Hok n w w1) as Hok'. specialize (IH (worldOf (Once c ctx) w1)).
  unfold resultOf, worldOf, traceOf in *.
  destruct (Once c ctx w1) as [[[[e|]|] w2] t]; cbn [fst snd] in *.
  - apply Herr'; auto.
  - destruct (loopSelect n c ctx _ w2) as [[r w'] tr]. apply Hok'; auto.
  - apply Hpanic'; auto.
Qed.

(** *** [Loop], one case per way to the select loop *)

Lemma Loop_first_error fuel c w e :
  resultOf (Once c (cancelCtx false)) w = Return (Some e) ->
  Loop fuel c w
  = (Some (Return (Some (errors.Wrap e "failed to run"))),
     worldOf (Once c (cancelCtx false)) w,
     traceOf (Once c (cancelCtx false)) w ++ [EvCancel]).
Proof.
  unfold Loop, resultOf, worldOf, traceOf, bind, ret, emit.
  destruct (Once c (cancelCtx false) w) as [[o w1] t]. cbn [fst snd].
  intros ->. reflexivity.
Qed.

Lemma Loop_first_panic fuel c w :
  resultOf (Once c (cancelCtx false)) w = Panic ->
  Loop fuel c w
  = (Some Panic, worldOf (Once c (cancelCtx false)) w,
     traceOf (Once c (cancelCtx false)) w ++ [EvCancel]).
Proof.
  unfold Loop, resultOf, worldOf, traceOf, bind, ret, emit.
  destruct (Once c (cancelCtx false) w) as [[o w1] t]. cbn [fst snd].
  intros ->. reflexivity.
Qed.

Lemma Loop_no_ticker fuel c w :
  resultOf (Once c (cancelCtx false)) w = Return None ->
  interval c <= 0 ->
  Loop fuel c w
  = (Some Panic, worldOf (Once c (cancelCtx false)) w,
     traceOf (Once c (cancelCtx false)) w ++ [EvCancel]).
Proof.
  unfold Loop, resultOf, worldOf, traceOf, bind, ret, emit.
  destruct (Once c (cancelCtx false) w) as [[o w1] t]. cbn [fst snd].
  intros -> Hi. apply Z.leb_le in Hi. rewrite Hi. reflexivity.
Qed.

Lemma Loop_enters fuel c w :
  resultOf (Once c (cancelCtx false)) w = Return None ->
  0 < interval c ->
  Loop fuel c w
  = let '(r, w', tr) :=
      loopSelect fuel c (cancelCtx false) (emit EvCancel)
        (worldOf (Once c (cancelCtx false)) w) in
    (r, w', traceOf (Once c (cancelCtx false)) w ++ tr).
Proof.
  unfold Loop, resultOf, worldOf, traceOf, bind, ret, emit.
  destruct (Once c (cancelCtx false) w) as [[o w1] t]. cbn [fst snd].
  intros -> Hi. apply Z.leb_gt in Hi. rewrite Hi. reflexivity.
Qed.
End LoopFacts.

Section FollowedBy.
Context (Q : Event -> Prop).



End FollowedBy.

Section SelectLoop.
Context {W : Type} `{rt : Runtime W}.
Implicit Types (c : Controller W) (ctx : Context_ W) (w : W).



Lemma Once_ok_no_error c ctx w :
  resultOf (Once c ctx) w = Return None ->
  Forall (fun e => ~ passError e) (traceOf (Once c ctx) w).
Proof.
  intros Hres. apply Forall_forall. intros e Hin He.
  destruct (Once_error_result c ctx w e Hin He) as [x Hx]. congruence.
Qed.

Lemma Once_panic_no_error c ctx w :
  resultOf (Once c ctx) w = Panic ->
  Forall (fun e => ~ passError e) (traceOf (Once c ctx) w).
Proof.
  intros Hres. apply Forall_forall. intros e Hin He.
  destruct (Once_error_result c ctx w e Hin He) as [x Hx]. congruence.
Qed.







(** The calls of [cancel] close the trace of the select loop. *)
Lemma loopSelect_cancels c ctx fuel w :
  exists body,
    (loopSelect fuel c ctx (emit EvCancel) w).2
    = body
      ++ repeat EvCancel
           (cancelsOf (loopSelect fuel c ctx (emit EvCancel) w).1.1)
    /\ Forall (fun e => isCancel e = false) body.
Proof.
  assert (Hpass : forall w0,
             Forall (fun e => isCancel e = false)
               (traceOf (Once c ctx) w0)).
  { intros w0. eapply Forall_impl; [apply Once_events|].
    intros [] He; try reflexivity; discriminate He. }
  apply (loopSelect_run_ind c ctx
           (fun _ _ res =>
              exists body,
                res.2 = body ++ repeat EvCancel (cancelsOf res.1.1)
                /\ Forall (fun e => isCancel e = false) body));
    cbn [fst snd cancelsOf repeat].
  - intros w0. exists []. split; [reflexivity|constructor].
  - intros n w0 w1 _. exists [EvSelect StopCase].
    split; [reflexivity|repeat constructor].
  - intros n w0 w1 x _ _.
    exists (EvSelect TickCase :: traceOf (Once c ctx) w1).
    split; [reflexivity|]. constructor; [reflexivity|apply Hpass].
  - intros n w0 w1 _ _.
    exists (EvSelect TickCase :: traceOf (Once c ctx) w1).
    split; [reflexivity|]. constructor; [reflexivity|apply Hpass].
  - intros n w0 w1 r w' tr _ _ (body & -> & Hbody).
    exists (EvSelect TickCase :: traceOf (Once c ctx) w1 ++ body).
    split; [cbn [app]; rewrite <- app_assoc; reflexivity|].
    constructor; [reflexivity|]. apply Forall_app. auto.
Qed.

(** *** The select loop, select by select *)




End SelectLoop.

Section LoopClaim.
Context {W : Type} `{rt : Runtime W}.
Implicit Types (c : Controller W) (w : W).

(** The three ways [Loop] goes after its first pass: the pass failed;
    [Loop] panicked, in the pass or on making the ticker; [Loop] entered
    its select loop. *)
Lemma Loop_shape fuel c w :
  (exists e,
      resultOf (Once c (cancelCtx false)) w = Return (Some e)
      /\ Loop fuel c w
         = (Some (Return (Some (errors.Wrap e "failed to run"))),
            worldOf (Once c (cancelCtx false)) w,
            traceOf (Once c (cancelCtx false)) w ++ [EvCancel]))
  \/ (Forall (fun e => ~ passError e)
        (traceOf (Once c (cancelCtx false)) w)
      /\ Loop fuel c w
         = (Some Panic, worldOf (Once c (cancelCtx false)) w,
            traceOf (Once c (cancelCtx false)) w ++ [EvCancel]))
  \/ (resultOf (Once c (cancelCtx false)) w = Return None
      /\ 0 < interval c
      /\ Loop fuel c w
         = ((loopSelect fuel c (cancelCtx false) (emit EvCancel)
               (worldOf (Once c (cancelCtx false)) w)).1.1,
            (loopSelect fuel c (cancelCtx false) (emit EvCancel)
               (worldOf (Once c (cancelCtx false)) w)).1.2,
            traceOf (Once c (cancelCtx false)) w
            ++ (loopSelect fuel c (cancelCtx false) (emit EvCancel)
                  (worldOf (Once c (cancelCtx false)) w)).2)).
Proof.
  destruct (resultOf (Once c (cancelCtx false)) w) as [[e|]|] eqn:Hres.
  - left. exists e. split; [reflexivity|]. apply Loop_first_error, Hres.
  - destruct (Z_le_gt_dec (interval c) 0) as [Hi|Hi].
    + right; left. split; [apply Once_ok_no_error, Hres|].
      apply Loop_no_ticker; assumption.
    + right; right. split; [reflexivity|]. split; [lia|].
      rewrite Loop_enters by (assumption || lia).
      destruct (loopSelect fuel c (cancelCtx false) (emit EvCancel)
                  (worldOf (Once c (cancelCtx false)) w)) as [[r w'] tr].
      reflexivity.
  - right; left. split; [apply Once_panic_no_error, Hres|].
    apply Loop_first_panic, Hres.
Qed.







End LoopClaim.


(** ** The cases of [TestController]

    Each case runs one pass, with a grace of five minutes, on the test
    client and counts the pods the client has left.  Every pod of these
    cases has a single container status. *)

Example TestController_empty :
  controller_test.runCase 1000000000000000 [] = Some (Return None, 0%nat).
Proof. vm_compute. reflexivity. Qed.

Example TestController_delete_none :
  controller_test.runCase 1000000000000000
    [controller_test.makePod 1000000000000000 time.Hour "default" "pod0"
       v1.PodRunning "Running" ""]
  = Some (Return None, 1%nat).
Proof. vm_compute. reflexivity. Qed.

Example TestController_delete_all :
  controller_test.runCase 1000000000000000
    [controller_test.makePod 1000000000000000 time.Hour "default" "pod0"
       v1.PodRunning "Terminated" "CrashLoopBackOff";
     controller_test.makePod 1000000000000000 (time.Hour * 3) "default"
       "pod1" v1.PodRunning "Terminated" "CrashLoopBackOff"]
  = Some (Return None, 0%nat).
Proof. vm_compute. reflexivity. Qed.

Example TestController_delete_one :
  controller_test.runCase 1000000000000000
    [controller_test.makePod 1000000000000000 time.Minute "default" "pod0"
       v1.PodRunning "Terminated" "CrashLoopBackOff";
     controller_test.makePod 1000000000000000 (time.Hour * 3) "default"
       "pod1" v1.PodRunning "Terminated" "CrashLoopBackOff"]
  = Some (Return None, 1%nat).
Proof. vm_compute. reflexivity. Qed.

(** The reason is compared as it is written: ["error"] is not ["Error"]. *)
Example reasons_are_case_sensitive :
  accepted (script.controllerOf [])
    (v1.Build_ContainerStatus (script.terminated "Error")) = true
  /\ accepted (script.controllerOf [])
       (v1.Build_ContainerStatus (script.terminated "error")) = false
  /\ accepted (script.controllerOf [])
       (v1.Build_ContainerStatus (script.waiting "CrashLoopBackOff")) = true
  /\ accepted (script.controllerOf [])
       (v1.Build_ContainerStatus (script.waiting "CrashLoop")) = false.
Proof. vm_compute. repeat split; reflexivity. Qed.

(** * Further properties of the code *)

(** ** Construction *)

Section NewProperties.
Context {W : Type} `{rt : Runtime W}.
Implicit Types (c : Controller W) (l : PodLister W) (d : PodDeleter W).

(** The loop over the options, one option more. *)
Lemma applyOptions_app (pre post : list Option_) c :
  applyOptions (pre ++ post) c
  = match applyOptions pre c with
    | (c1, None) => applyOptions post c1
    | (c1, Some e) => (c1, Some e)
    end.
Proof.
  revert c. induction pre as [|o pre IH]; intros c; [reflexivity|].
  cbn [app applyOptions]. destruct (o c) as [c1 [e|]]; [reflexivity|].
  apply IH.
Qed.

Lemma applyOptions_succeed (pre : list Option_) c :
  Forall (fun o => forall c, (o c).2 = None) pre ->
  exists c1, applyOptions pre c = (c1, None).
Proof.
  intros Hall. revert c.
  induction Hall as [|o pre Ho _ IH]; intros c; [exists c; reflexivity|].
  cbn [applyOptions]. specialize (Ho c).
  destruct (o c) as [c1 [e|]]; [discriminate Ho|]. apply IH.
Qed.

(** What [New] answers, from what its loop over the options leaves. *)
Lemma New_from_options l d options :
  New l d options
  = match applyOptions options (initial l d) with
    | (_, Some e) => (None, Some e)
    | (c1, None) =>
        match logger c1 with
        | Some _ =>
            (Some (set_reasonsMap
                     (fillReasonsMap (reasons c1) (reasonsMap c1)) c1),
             None)
        | None =>
            match zap_NewProduction with
            | inr e =>
                (None, Some (errors.Wrap e "failed to create logger"))
            | inl lg =>
                (Some (set_reasonsMap
                         (fillReasonsMap (reasons c1) (reasonsMap c1))
                         (set_logger (Some lg) c1)),
                 None)
            end
        end
    end.
Proof.
  unfold New. fold (initial l d).
  destruct (applyOptions options (initial l d)) as [c1 [e|]]; [reflexivity|].
  destruct (logger c1); reflexivity.
Qed.

(** X2. The first option that returns an error ends the construction:
    [New] returns that error wrapped with "option failed" and no
    controller, and what comes after that option in the list plays no
    part. *)
Theorem New_option_failed l d (pre post : list Option_) o e :
  Forall (fun o' => forall c, (o' c).2 = None) pre ->
  (forall c, (o c).2 = Some e) ->
  New l d (pre ++ o :: post)
  = (None, Some (errors.Wrap e "option failed")).
Proof.
  intros Hpre Ho.
  rewrite New_from_options, applyOptions_app.
  destruct (applyOptions_succeed pre (initial l d) Hpre) as [c1 ->].
  cbn [applyOptions]. specialize (Ho c1).
  destruct (o c1) as [c2 [e'|]]; cbn in Ho; [|discriminate Ho].
  injection Ho as ->. reflexivity.
Qed.

Lemma loopSelect_no_panic c ctx fuel w :
  logger c <> None ->
  (loopSelect fuel c ctx (emit EvCancel) w).1.1 <> Some Panic.
Proof.
  intros Hlg.
  apply (loopSelect_run_ind c ctx (fun _ _ res => res.1.1 <> Some Panic));
    cbn [fst snd]; try discriminate; auto.
  intros n w0 w1 _ Hp. rewrite Once_result in Hp.
  destruct (listError c w1); [discriminate Hp|].
  apply rangePods_panic in Hp. contradiction.
Qed.

(** X4. An option that sets the dry-run flag, the namespace, the
    selector, the grace or the interval, put after the other options,
    changes the controller [New] returns by just that setting. *)
Theorem New_scalar_option_last l d (options : list Option_) o c :
  scalarOption o ->
  New l d options = (Some c, None) ->
  New l d (options ++ [o]) = (Some (o c).1, None).
Proof.
  intros Ho. rewrite !New_from_options, applyOptions_app.
  destruct (applyOptions options (initial l d)) as [c1 [e|]];
    [discriminate|].
  cbn [applyOptions].
  destruct Ho; cbn;
    (destruct (logger c1) as [lg|];
     [intros [= <-]; reflexivity|];
     destruct zap_NewProduction; [|discriminate];
     intros [= <-]; reflexivity).
Qed.

(** The map filled from a list of reasons: a reason of the list is sent
    to true, and nothing else is added. *)
Lemma fillReasonsMap_value rs (m : gmap string bool) r :
  fillReasonsMap rs m !! r
  = if bool_decide (r ∈ rs) then Some true else m !! r.
Proof.
  revert m. induction rs as [|x rs IH]; intros m; cbn [fillReasonsMap].
  - rewrite bool_decide_eq_false_2 by apply not_elem_of_nil. reflexivity.
  - rewrite IH. destruct (decide (r ∈ rs)) as [Hin|Hnin].
    + rewrite !bool_decide_eq_true_2; auto. right. exact Hin.
    + rewrite (bool_decide_eq_false_2 _ Hnin).
      destruct (decide (x = r)) as [->|Hne].
      * rewrite lookup_insert_eq.
        rewrite bool_decide_eq_true_2 by left. reflexivity.
      * rewrite lookup_insert_ne by assumption.
        rewrite bool_decide_eq_false_2; [reflexivity|].
        intros Hin. apply elem_of_cons in Hin as [?|?]; congruence.
Qed.

(** X5. [WithReasons] replaces the reasons, it does not add to them: when
    it is the last option, the map of the controller [New] returns sends
    to true exactly the reasons given, whatever the defaults and the
    options before; and two lists of reasons with the same members, in
    any order and with any repetitions, give the same map. *)
Theorem New_reasons_replaced l d (options : list Option_) rs c :
  Forall packageOption options ->
  New l d (options ++ [WithReasons rs]) = (Some c, None) ->
  reasons c = rs
  /\ (forall r, reasonsMap c !! r = if bool_decide (r ∈ rs) then Some true
                                    else None)
  /\ (forall rs',
         (forall r, r ∈ rs <-> r ∈ rs') ->
         forall c',
           New l d (options ++ [WithReasons rs']) = (Some c', None) ->
           reasonsMap c' = reasonsMap c).
Proof.
  intros Hopts.
  assert (Hshape : forall rs0 c0,
             New l d (options ++ [WithReasons rs0]) = (Some c0, None) ->
             reasons c0 = rs0
             /\ forall r, reasonsMap c0 !! r
                          = if bool_decide (r ∈ rs0) then Some true
                            else None).
  { intros rs0 c0. rewrite New_from_options, applyOptions_app.
    destruct (applyOptions_package options (initial l d) Hopts)
      as (c1 & -> & _ & _ & Hm).
    cbn [applyOptions WithReasons]. cbn in Hm.
    assert (Hfill : forall r,
               fillReasonsMap rs0 (reasonsMap c1) !! r
               = if bool_decide (r ∈ rs0) then Some true else None).
    { intros r. rewrite fillReasonsMap_value, Hm, lookup_empty.
      reflexivity. }
    cbn. destruct (logger c1) as [lg|].
    - intros [= <-]. cbn. auto.
    - destruct zap_NewProduction; [|discriminate].
      intros [= <-]. cbn. auto. }
  intros Hnew. destruct (Hshape rs c Hnew) as [Hr Hm].
  do 2 (split; [assumption|]).
  intros rs' Hsame c' Hnew'. destruct (Hshape rs' c' Hnew') as [_ Hm'].
  apply map_eq. intros r. rewrite Hm, Hm'.
  destruct (decide (r ∈ rs)) as [Hin|Hnin].
  - rewrite !bool_decide_eq_true_2; auto. apply Hsame, Hin.
  - rewrite !bool_decide_eq_false_2; auto. intros Hin. apply Hnin, Hsame, Hin.
Qed.
End NewProperties.

Lemma New_option_failed_witness :
  New script.lister script.deleter
    ([WithGrace time.Minute]
     ++ failingOption (errorString "bad option") :: [WithDryRun true])
  = (None, Some (errors.Wrap (errorString "bad option") "option failed")).
Proof.
  apply (New_option_failed script.lister script.deleter
           [WithGrace time.Minute] [WithDryRun true]
           (failingOption (errorString "bad option"))
           (errorString "bad option")).
  - repeat constructor.
  - reflexivity.
Defined.

Lemma New_scalar_option_last_witness :
  New script.lister script.deleter
    ([WithReasons ["Error"]] ++ [WithGrace time.Hour])
  = (Some (WithGrace time.Hour
             (script.controllerOf [WithReasons ["Error"]])).1, None).
Proof.
  apply (New_scalar_option_last script.lister script.deleter
           [WithReasons ["Error"]] (WithGrace time.Hour)
           (script.controllerOf [WithReasons ["Error"]])).
  - constructor.
  - vm_compute. reflexivity.
Defined.

Lemma New_reasons_replaced_witness :
  reasons (script.controllerOf
             ([WithReasons ["Completed"]]
              ++ [WithReasons ["Error"; "Error"; "OOMKilled"]]))
  = ["Error"; "Error"; "OOMKilled"].
Proof.
  apply (New_reasons_replaced script.lister script.deleter
           [WithReasons ["Completed"]] ["Error"; "Error"; "OOMKilled"]).
  - repeat constructor.
  - vm_compute. reflexivity.
Defined.

(** ** A pass *)

Section OnceProperties.
Context {W : Type} `{rt : Runtime W}.
Implicit Types (c : Controller W) (ctx : Context_ W) (w : W).

Lemma deletions_cons e tr :
  deletions (e :: tr)
  = match deleteOf e with
    | Some k => k :: deletions tr
    | None => deletions tr
    end.
Proof. reflexivity. Qed.

Lemma rangeStatuses_deletions_bound c lg pod sts w :
  deletions (rangeStatuses c lg pod sts w).2
  `sublist_of` repeat (ident pod) (length (List.filter (accepted c) sts)).
Proof.
  apply (rangeStatuses_run_ind c lg pod
           (fun sts _ res =>
              deletions res.2
              `sublist_of` repeat (ident pod)
                             (length (List.filter (accepted c) sts))));
    cbn [snd]; clear sts w.
  - intros. constructor.
  - intros s rest w r w' tr Hr IH. rewrite deletions_cons. cbn [List.filter].
    replace (accepted c s) with false; [exact IH|].
    symmetry. apply bool_decide_eq_false. rewrite Hr. apply is_Some_None.
  - intros s rest w r w' tr Hr _ IH. rewrite deletions_cons. cbn [List.filter].
    rewrite (proj2 (accepted_true c s) Hr). cbn [length repeat].
    apply sublist_cons, IH.
  - intros s rest w err w1 r w' tr Hr _ _ _ IH.
    rewrite !deletions_cons. cbn [List.filter deleteOf deleteEntry logEvent].
    rewrite (proj2 (accepted_true c s) Hr). cbn [length repeat].
    apply sublist_skip, IH.
  - intros s rest w e w1 Hr _ _ _.
    rewrite !deletions_cons. cbn [List.filter deleteOf deleteEntry logEvent].
    rewrite (proj2 (accepted_true c s) Hr). cbn [length repeat].
    apply sublist_skip, sublist_nil_l.
Qed.

Lemma plannedDeletions_cons c pod rest :
  plannedDeletions c (pod :: rest)
  = (if skippedPhase (v1.Phase (v1.Status pod)) then []
     else repeat (ident pod)
            (length (List.filter (accepted c)
                       (v1.ContainerStatuses (v1.Status pod)))))
    ++ plannedDeletions c rest.
Proof.
  unfold plannedDeletions. cbn [List.filter].
  destruct (skippedPhase (v1.Phase (v1.Status pod))); reflexivity.
Qed.

Lemma rangePods_deletions_planned c ctx pods w :
  deletions (rangePods c ctx pods w).2 `sublist_of` plannedDeletions c pods.
Proof.
  apply (rangePods_run_ind c ctx
           (fun pods _ res =>
              deletions res.2 `sublist_of` plannedDeletions c pods));
    cbn [snd]; clear pods w.
  - intros. constructor.
  - intros. apply sublist_nil_l.
  - intros. apply sublist_nil_l.
  - intros pod rest w w1 lg o w' tr _ _ Hph IH.
    rewrite !deletions_cons. cbn [deleteOf phaseEntry logEvent].
    rewrite plannedDeletions_cons, Hph. exact IH.
  - intros pod rest w w1 lg t w2 o w' tr _ _ Hph _ _ IH.
    rewrite !deletions_cons. cbn [deleteOf youngEntry logEvent].
    rewrite plannedDeletions_cons, Hph. apply sublist_inserts_l, IH.
  - intros pod rest w w1 lg t w2 e w3 ts _ _ Hph _ _ Hrun.
    rewrite !deletions_cons. cbn [deleteOf].
    rewrite plannedDeletions_cons, Hph.
    rewrite <- (app_nil_r (deletions ts)).
    apply sublist_app; [|apply sublist_nil_l].
    pose proof (rangeStatuses_deletions_bound c (podLogger lg pod) pod
                  (v1.ContainerStatuses (v1.Status pod)) w2) as H.
    rewrite Hrun in H. exact H.
  - intros pod rest w w1 lg t w2 w3 ts o w' tr _ _ Hph _ _ Hrun IH.
    rewrite !deletions_cons. cbn [deleteOf].
    rewrite plannedDeletions_cons, Hph, deletions_app.
    apply sublist_app; [|exact IH].
    pose proof (rangeStatuses_deletions_bound c (podLogger lg pod) pod
                  (v1.ContainerStatuses (v1.Status pod)) w2) as H.
    rewrite Hrun in H. exact H.
Qed.

(** X7. A pass issues its deletions in the order of the listing, and at
    most one for each container status with an accepted reason of a pod
    whose phase is not skipped: the namespaces and names it deletes are,
    in order, a selection of that plan, and so no more than it has. *)
Theorem Once_deletions_in_listing_order c ctx w :
  deletions (traceOf (Once c ctx) w)
  `sublist_of` plannedDeletions c (listed c w)
  /\ (length (deletions (traceOf (Once c ctx) w))
      <= length (plannedDeletions c (listed c w)))%nat.
Proof.
  assert (H : deletions (traceOf (Once c ctx) w)
              `sublist_of` plannedDeletions c (listed c w)).
  { rewrite Once_trace, deletions_cons. cbn [deleteOf].
    destruct (listError c w); [apply sublist_nil_l|].
    apply rangePods_deletions_planned. }
  split; [exact H|]. apply sublist_length, H.
Qed.
End OnceProperties.

(** ** A pass on the client of the tests *)

Section TestClient.
Import controller_test.
Implicit Types (c : Controller testWorld) (w : testWorld).

Lemma filter_filter_and {A} (f g : A -> bool) (l : list A) :
  List.filter f (List.filter g l) = List.filter (fun x => g x && f x) l.
Proof.
  induction l as [|x l IH]; [reflexivity|]. cbn [List.filter].
  destruct (g x); cbn [List.filter andb]; [|exact IH].
  destruct (f x); congruence.
Qed.

Lemma filter_all {A} (f : A -> bool) (l : list A) :
  (forall x, x ∈ l -> f x = true) -> List.filter f l = l.
Proof.
  induction l as [|x l IH]; intros H; [reflexivity|]. cbn [List.filter].
  rewrite (H x) by left. f_equal. apply IH. intros y Hy. apply H. right.
  exact Hy.
Qed.

Lemma samePod_ident p q :
  samePod (v1.Namespace (v1.Meta p)) (v1.Name (v1.Meta p)) q
  = bool_decide (ident p = ident q).
Proof.
  unfold samePod, ident.
  destruct (decide (v1.Namespace (v1.Meta p) = v1.Namespace (v1.Meta q)))
    as [Hn|Hn];
    destruct (decide (v1.Name (v1.Meta p) = v1.Name (v1.Meta q))) as [Hm|Hm].
  - rewrite !bool_decide_eq_true_2 by congruence. reflexivity.
  - rewrite (bool_decide_eq_false_2 (_ = v1.Name _)) by assumption.
    rewrite andb_false_r. symmetry. apply bool_decide_eq_false_2. congruence.
  - rewrite (bool_decide_eq_false_2 (_ = v1.Namespace _)) by assumption.
    symmetry. apply bool_decide_eq_false_2. congruence.
  - rewrite (bool_decide_eq_false_2 (_ = v1.Namespace _)) by assumption.
    symmetry. apply bool_decide_eq_false_2. congruence.
Qed.

(** The pods the client has left once [p] is deleted from [cur]. *)
Lemma survivors_cons c now p rest cur :
  survivors c now (p :: rest) cur
  = survivors c now rest
      (if eligible c now p
       then List.filter (fun q => negb (bool_decide (ident p = ident q))) cur
       else cur).
Proof.
  unfold survivors. destruct (eligible c now p) eqn:He.
  - rewrite filter_filter_and. apply List.filter_ext. intros q.
    cbn [existsb]. rewrite He. cbn [andb]. apply negb_orb.
  - apply List.filter_ext. intros q. cbn [existsb]. rewrite He. reflexivity.
Qed.

(** The loop over the statuses on the client of the tests: it runs to its
    end, and the pod is gone as soon as one status has an accepted
    reason. *)
Lemma testClient_rangeStatuses c lg p sts w :
  deleter c = testClient_DeletePod -> dryRun c = false ->
  (rangeStatuses c lg p sts w).1.1 = None
  /\ clock (rangeStatuses c lg p sts w).1.2 = clock w
  /\ pods (client (rangeStatuses c lg p sts w).1.2)
     = if existsb (accepted c) sts
       then List.filter (fun q => negb (bool_decide (ident p = ident q)))
              (pods (client w))
       else pods (client w).
Proof.
  intros Hd Hnd. revert w. induction sts as [|s rest IH]; intros w.
  { repeat split. }
  cbn [existsb]. destruct (accepted c s) eqn:Hacc.
  - apply accepted_true in Hacc.
    rewrite rangeStatuses_delete by assumption. cbv zeta.
    rewrite Hd. cbn [DeletePod testClient_DeletePod].
    match goal with
    | |- context [rangeStatuses c lg p rest ?w1] =>
        destruct (IH w1) as (I1 & I2 & I3);
        destruct (rangeStatuses c lg p rest w1) as [[r w'] tr]
    end.
    cbn [fst snd client pods clock orb] in *.
    split; [exact I1|]. split; [exact I2|]. rewrite I3.
    assert (Hfilter :
              List.filter
                (fun q => negb (samePod (v1.Namespace (v1.Meta p))
                                  (v1.Name (v1.Meta p)) q))
                (pods (client w))
              = List.filter
                  (fun q => negb (bool_decide (ident p = ident q)))
                  (pods (client w))).
    { apply List.filter_ext. intros q. rewrite samePod_ident. reflexivity. }
    rewrite Hfilter. destruct (existsb (accepted c) rest); [|reflexivity].
    rewrite filter_filter_and. apply List.filter_ext. intros q.
    apply andb_diag.
  - assert (Hr : reasonsMap c !! statusReason s = None).
    { destruct (reasonsMap c !! statusReason s) eqn:E; [|reflexivity].
      assert (accepted c s = true) by (apply accepted_true; eauto).
      congruence. }
    rewrite rangeStatuses_skip by assumption.
    destruct (IH w) as (I1 & I2 & I3).
    destruct (rangeStatuses c lg p rest w) as [[r w'] tr].
    cbn [fst snd orb] in *. auto.
Qed.

Lemma testClient_rangePods c pods w :
  deleter c = testClient_DeletePod -> dryRun c = false ->
  logger c <> None ->
  (rangePods c (cancelCtx false) pods w).1.1 = Return None
  /\ clock (rangePods c (cancelCtx false) pods w).1.2 = clock w
  /\ controller_test.pods
       (client (rangePods c (cancelCtx false) pods w).1.2)
     = survivors c (clock w) pods (controller_test.pods (client w)).
Proof.
  intros Hd Hnd Hlg. revert w.
  induction pods as [|p rest IH]; intros w.
  { split; [reflexivity|]. split; [reflexivity|].
    unfold survivors. cbn [existsb negb]. symmetry. apply filter_all. auto. }
  rewrite rangePods_cons, survivors_cons. cbn [cancelCtx Done].
  destruct (logger c) as [lg|]; [|contradiction].
  unfold eligible. cbn [time_Now testRuntime].
  destruct (skippedPhase (v1.Phase (v1.Status p))).
  { destruct (IH w) as (I1 & I2 & I3).
    destruct (rangePods c (cancelCtx false) rest w) as [[o w'] tr].
    cbn [fst snd negb andb] in *. auto. }
  destruct (tooYoung c p (clock w)).
  { destruct (IH w) as (I1 & I2 & I3).
    destruct (rangePods c (cancelCtx false) rest w) as [[o w'] tr].
    cbn [fst snd negb andb] in *. auto. }
  destruct (testClient_rangeStatuses c (podLogger lg p) p
              (v1.ContainerStatuses (v1.Status p)) w Hd Hnd)
    as (S1 & S2 & S3).
  destruct (rangeStatuses c (podLogger lg p) p
              (v1.ContainerStatuses (v1.Status p)) w) as [[r w3] ts].
  cbn [fst snd] in S1, S2, S3. subst r.
  destruct (IH w3) as (I1 & I2 & I3).
  destruct (rangePods c (cancelCtx false) rest w3) as [[o w'] tr].
  cbn [fst snd negb andb] in *.
  split; [exact I1|]. split; [congruence|].
  rewrite I3, S2, S3. reflexivity.
Qed.

Lemma survivors_stable c now ps :
  survivors c now (survivors c now ps ps) (survivors c now ps ps)
  = survivors c now ps ps.
Proof.
  set (S := survivors c now ps ps).
  unfold survivors at 1. apply filter_all. intros q Hq.
  apply negb_true_iff. apply not_true_iff_false. intros Hex.
  apply existsb_exists in Hex as (p & Hp & Hpq).
  apply andb_true_iff in Hpq as [He Hsame].
  subst S. unfold survivors in Hp.
  apply List.filter_In in Hp as [Hp Hkeep].
  apply negb_true_iff in Hkeep. apply not_true_iff_false in Hkeep.
  apply Hkeep. apply existsb_exists. exists p. split; [exact Hp|].
  rewrite He. apply bool_decide_eq_true_2. reflexivity.
Qed.

(** X8. On the client of the package's tests, a pass of a controller that
    is not in dry-run mode returns nil and leaves in the client exactly
    the pods that share namespace and name with no listed pod passing the
    three checks (phase, age at the client's clock, a container status
    with an accepted reason); a second pass at the same clock removes
    nothing more. *)
Theorem testClient_pass c w :
  lister c = testClient_ListPods ->
  deleter c = testClient_DeletePod ->
  dryRun c = false ->
  logger c <> None ->
  let w1 := worldOf (Once c (cancelCtx false)) w in
  let w2 := worldOf (Once c (cancelCtx false)) w1 in
  resultOf (Once c (cancelCtx false)) w = Return None
  /\ pods (client w1)
     = survivors c (clock w) (pods (client w)) (pods (client w))
  /\ clock w1 = clock w
  /\ pods (client w2) = pods (client w1).
Proof.
  intros Hl Hd Hnd Hlg.
  assert (Hpass : forall w0,
             resultOf (Once c (cancelCtx false)) w0 = Return None
             /\ pods (client (worldOf (Once c (cancelCtx false)) w0))
                = survivors c (clock w0) (pods (client w0))
                    (pods (client w0))
             /\ clock (worldOf (Once c (cancelCtx false)) w0) = clock w0).
  { intros w0.
    assert (Hlist : listError c w0 = None)
      by (unfold listError; rewrite Hl; reflexivity).
    assert (Hlisted : listed c w0 = pods (client w0))
      by (unfold listed; rewrite Hl; reflexivity).
    assert (Hafter : afterList c w0 = w0)
      by (unfold afterList; rewrite Hl; reflexivity).
    unfold resultOf, worldOf. rewrite (Once_ok c _ w0 Hlist).
    rewrite Hlisted, Hafter.
    destruct (testClient_rangePods c (pods (client w0)) w0 Hd Hnd Hlg)
      as (R1 & R2 & R3).
    destruct (rangePods c (cancelCtx false) (pods (client w0)) w0)
      as [[o w'] tr].
    cbn [fst snd] in *. auto. }
  cbv zeta.
  destruct (Hpass w) as (P1 & P2 & P3).
  destruct (Hpass (worldOf (Once c (cancelCtx false)) w)) as (_ & Q2 & _).
  do 3 (split; [assumption|]).
  rewrite Q2, P2, P3. apply survivors_stable.
Qed.
End TestClient.

(** ** The client of a real cluster *)

Section KubeClient.
Context {W : Type} `{rt : Runtime W}.
Implicit Types (c : Controller W) (cl : k8s.Client W) (w : W).

(** X9. Over the client of a real cluster: when the cluster fails to list
    the pods, a pass returns the cluster's error wrapped twice with
    "failed to list pods", once by the client and once by the controller,
    on an empty listing and with nothing deleted; an error of the client's
    listing never counts as NotFound; and a deletion hands on the answer
    of the cluster as it is, so that its error counts as NotFound exactly
    when the cluster's does. *)
Theorem kube_client_errors c cl ctx w :
  lister c = k8s.lister cl ->
  (forall e,
      (k8s.Pods_List (k8s.client cl) (namespace c)
         {| k8s.LabelSelector := selector c |} w).1.2 = Some e ->
      resultOf (Once c ctx) w
      = Return (Some (errors.Wrap (errors.Wrap e "failed to list pods")
                        "failed to list pods"))
      /\ traceOf (Once c ctx) w
         = [EvListPods (namespace c) (selector c) []
              (Some (errors.Wrap e "failed to list pods"))]
      /\ worldOf (Once c ctx) w
         = (k8s.Pods_List (k8s.client cl) (namespace c)
              {| k8s.LabelSelector := selector c |} w).2)
  /\ (forall ns sel w0 e,
         (k8s.ListPods cl ns sel w0).1.2 = Some e ->
         k8sErrors.IsNotFound e = false
         /\ (k8s.ListPods cl ns sel w0).1.1 = [])
  /\ (forall ns name w0,
         DeletePod (k8s.deleter cl) ns name w0
         = k8s.Pods_Delete (k8s.client cl) ns name None w0).
Proof.
  intros Hl. split; [|split].
  - intros e He.
    assert (Hcall : ListPods (lister c) (namespace c) (selector c) w
                    = (([], Some (errors.Wrap e "failed to list pods")),
                       (k8s.Pods_List (k8s.client cl) (namespace c)
                          {| k8s.LabelSelector := selector c |} w).2)).
    { rewrite Hl. cbn [ListPods k8s.lister]. unfold k8s.ListPods.
      destruct (k8s.Pods_List (k8s.client cl) (namespace c)
                  {| k8s.LabelSelector := selector c |} w) as [[pl err] w1].
      cbn [fst snd] in *. rewrite He. reflexivity. }
    assert (Hlist : listError c w
                    = Some (errors.Wrap e "failed to list pods"))
      by (unfold listError; rewrite Hcall; reflexivity).
    unfold resultOf, traceOf, worldOf.
    rewrite (Once_list_failed c ctx w _ Hlist).
    unfold listed, afterList. rewrite Hcall. auto.
  - intros ns sel w0 e. unfold k8s.ListPods.
    destruct (k8s.Pods_List (k8s.client cl) ns
                {| k8s.LabelSelector := sel |} w0) as [[pl [err|]] w1];
      cbn [fst snd]; [|discriminate].
    intros [= <-]. auto.
  - reflexivity.
Qed.
End KubeClient.

Lemma kube_client_errors_witness :
  resultOf (Once kubeController script.ctx) script.unreachable
  = Return (Some (errors.Wrap
                    (errors.Wrap (errorString "connection refused")
                       "failed to list pods") "failed to list pods"))
  /\ traceOf (Once kubeController script.ctx) script.unreachable
     = [EvListPods "" "" []
          (Some (errors.Wrap (errorString "connection refused")
                   "failed to list pods"))]
  /\ worldOf (Once kubeController script.ctx) script.unreachable
     = script.unreachable.
Proof.
  refine (proj1 (kube_client_errors kubeController scriptClient script.ctx
                   script.unreachable _)
            (errorString "connection refused") _).
  - vm_compute. reflexivity.
  - reflexivity.
Defined.

Lemma testClient_pass_witness :
  resultOf (Once testController (cancelCtx false))
    (testWorldOf (time.Hour * 5)
       [script.young; script.old; script.healthy; script.twice])
  = Return None
  /\ controller_test.pods
       (controller_test.client
          (worldOf (Once testController (cancelCtx false))
             (testWorldOf (time.Hour * 5)
                [script.young; script.old; script.healthy; script.twice])))
     = survivors testController (time.Hour * 5)
         [script.young; script.old; script.healthy; script.twice]
         [script.young; script.old; script.healthy; script.twice].
Proof.
  destruct (testClient_pass testController
              (testWorldOf (time.Hour * 5)
                 [script.young; script.old; script.healthy; script.twice]))
    as (H1 & H2 & _).
  - vm_compute. reflexivity.
  - vm_compute. reflexivity.
  - vm_compute. reflexivity.
  - vm_compute. discriminate.
  - split; [exact H1|exact H2].
Defined.

(** ** The loop *)

Section LoopProperties.
Context {W : Type} `{rt : Runtime W}.
Implicit Types (c : Controller W) (w : W).

(** An event of a pass in the trace of the select loop is in the trace
    of one of its passes. *)
Lemma loopSelect_passes c ctx e fuel w :
  e ∈ (loopSelect fuel c ctx (emit EvCancel) w).2 ->
  isPassEvent e = true ->
  exists tr1 w0 tr2,
    (loopSelect fuel c ctx (emit EvCancel) w).2
    = tr1 ++ traceOf (Once c ctx) w0 ++ tr2
    /\ e ∈ traceOf (Once c ctx) w0.
Proof.
  apply (loopSelect_run_ind c ctx
           (fun _ _ res =>
              e ∈ res.2 -> isPassEvent e = true ->
              exists tr1 w0 tr2,
                res.2 = tr1 ++ traceOf (Once c ctx) w0 ++ tr2
                /\ e ∈ traceOf (Once c ctx) w0)); cbn [snd].
  - intros w0 Hin. inversion Hin.
  - intros n w0 w1 _ Hin He.
    repeat (apply elem_of_cons in Hin as [->|Hin]; [discriminate He|]).
    inversion Hin.
  - intros n w0 w1 x _ _ Hin He.
    apply elem_of_cons in Hin as [->|Hin]; [discriminate He|].
    apply elem_of_app in Hin as [Hin|Hin].
    + exists [EvSelect TickCase], w1, [EvCancel]. auto.
    + apply elem_of_cons in Hin as [->|Hin]; [discriminate He|].
      inversion Hin.
  - intros n w0 w1 _ _ Hin He.
    apply elem_of_cons in Hin as [->|Hin]; [discriminate He|].
    apply elem_of_app in Hin as [Hin|Hin].
    + exists [EvSelect TickCase], w1, [EvCancel]. auto.
    + apply elem_of_cons in Hin as [->|Hin]; [discriminate He|].
      inversion Hin.
  - intros n w0 w1 r w' tr _ _ IH Hin He.
    apply elem_of_cons in Hin as [->|Hin]; [discriminate He|].
    apply elem_of_app in Hin as [Hin|Hin].
    + exists [EvSelect TickCase], w1, tr. auto.
    + destruct (IH Hin He) as (tr1 & w2 & tr2 & -> & Hin2).
      exists (EvSelect TickCase :: traceOf (Once c ctx) w1 ++ tr1), w2, tr2.
      split; [|exact Hin2]. cbn [app]. rewrite <- app_assoc. reflexivity.
Qed.

(** The same for [Loop]. *)
Lemma Loop_passes fuel c w e :
  e ∈ traceOf (Loop fuel c) w ->
  isPassEvent e = true ->
  exists tr1 w0 tr2,
    traceOf (Loop fuel c) w
    = tr1 ++ traceOf (Once c (cancelCtx false)) w0 ++ tr2
    /\ e ∈ traceOf (Once c (cancelCtx false)) w0.
Proof.
  assert (Hone : traceOf (Loop fuel c) w
                 = traceOf (Once c (cancelCtx false)) w ++ [EvCancel] ->
                 e ∈ traceOf (Loop fuel c) w -> isPassEvent e = true ->
                 exists tr1 w0 tr2,
                   traceOf (Loop fuel c) w
                   = tr1 ++ traceOf (Once c (cancelCtx false)) w0 ++ tr2
                   /\ e ∈ traceOf (Once c (cancelCtx false)) w0).
  { intros Htr Hin He. rewrite Htr in Hin |- *.
    apply elem_of_app in Hin as [Hin|Hin].
    - exists [], w, [EvCancel]. auto.
    - apply elem_of_cons in Hin as [->|Hin]; [discriminate He|].
      inversion Hin. }
  destruct (Loop_shape fuel c w)
    as [(x & _ & HL)|[(_ & HL)|(_ & _ & HL)]].
  - apply Hone. unfold traceOf at 1. rewrite HL. reflexivity.
  - apply Hone. unfold traceOf at 1. rewrite HL. reflexivity.
  - assert (Htr : traceOf (Loop fuel c) w
                  = traceOf (Once c (cancelCtx false)) w
                    ++ (loopSelect fuel c (cancelCtx false) (emit EvCancel)
                          (worldOf (Once c (cancelCtx false)) w)).2)
      by (unfold traceOf at 1; rewrite HL; reflexivity).
    clear HL. rewrite Htr. intros Hin He.
    apply elem_of_app in Hin as [Hin|Hin].
    + exists [], w. eexists. split; [reflexivity|exact Hin].
    + destruct (loopSelect_passes c (cancelCtx false) e fuel _ Hin He)
        as (tr1 & w0 & tr2 & -> & Hin2).
      exists (traceOf (Once c (cancelCtx false)) w ++ tr1), w0, tr2.
      split; [|exact Hin2]. rewrite <- app_assoc. reflexivity.
Qed.

(** A deletion in the trace of a pass, traced to the listing of the
    pass. *)
Lemma Once_deletion_listed c ctx w ns name err :
  EvDeletePod ns name err ∈ traceOf (Once c ctx) w ->
  dryRun c = false
  /\ exists p t s,
      EvListPods (namespace c) (selector c) (listed c w) None
        ∈ traceOf (Once c ctx) w
      /\ EvNow t ∈ traceOf (Once c ctx) w
      /\ p ∈ listed c w /\ named ns name p
      /\ skippedPhase (v1.Phase (v1.Status p)) = false
      /\ tooYoung c p t = false
      /\ s ∈ v1.ContainerStatuses (v1.Status p)
      /\ accepted c s = true.
Proof.
  intros Hin. pose proof Hin as Hlist.
  apply Once_trace_inv in Hlist as [Hlist _]; [|reflexivity].
  apply Once_delete_inv in Hin
    as (p & Hp & Hn & Hph & Hdry & (t & Ht & Hy) & s & Hs & Hacc).
  split; [exact Hdry|]. exists p, t, s.
  split; [rewrite Once_trace, Hlist; left|].
  split; [exact Ht|].
  repeat split; try assumption; try apply Hn.
  apply accepted_true, Hacc.
Qed.

(** X10. Every deletion [Loop] issues is one of a pass: the controller
    is not in dry-run mode, and the trace of the loop holds a listing of
    the namespace and the selector that succeeded and lists a pod of
    that namespace and name, whose phase is not skipped, which is old
    enough at a reading of the clock in the trace, and which has a
    container status with an accepted reason. *)
Theorem Loop_deletions_by_pass fuel c w ns name err :
  EvDeletePod ns name err ∈ traceOf (Loop fuel c) w ->
  dryRun c = false
  /\ exists pods p t s,
      EvListPods (namespace c) (selector c) pods None
        ∈ traceOf (Loop fuel c) w
      /\ EvNow t ∈ traceOf (Loop fuel c) w
      /\ p ∈ pods /\ named ns name p
      /\ skippedPhase (v1.Phase (v1.Status p)) = false
      /\ tooYoung c p t = false
      /\ s ∈ v1.ContainerStatuses (v1.Status p)
      /\ accepted c s = true.
Proof.
  intros Hin.
  destruct (Loop_passes fuel c w _ Hin eq_refl)
    as (tr1 & w0 & tr2 & Htr & Hpass).
  assert (Hsub : forall e, e ∈ traceOf (Once c (cancelCtx false)) w0 ->
                           e ∈ traceOf (Loop fuel c) w).
  { intros e He. rewrite Htr, !elem_of_app. auto. }
  apply Once_deletion_listed in Hpass
    as (Hdry & p & t & s & Hl & Ht & Hp & Hn & Hph & Hy & Hs & Hacc).
  split; [exact Hdry|]. exists (listed c w0), p, t, s.
  split; [apply Hsub, Hl|]. split; [apply Hsub, Ht|].
  repeat split; try assumption; apply Hn.
Qed.

(** X11. [Loop] calls [cancel] at its end and nowhere else: its trace is
    a run without any call of [cancel], followed by two calls when it
    returns nil (that of the stop case and the deferred one), by one
    call when it returns an error or panics, and by none while it is
    still waiting.  So no pass, select or deletion comes after the
    context of the passes is cancelled. *)
Theorem Loop_cancels_at_end fuel c w :
  exists body,
    traceOf (Loop fuel c) w
    = body ++ repeat EvCancel (cancelsOf (resultOf (Loop fuel c) w))
    /\ Forall (fun e => isCancel e = false) body.
Proof.
  assert (Hpass : Forall (fun e => isCancel e = false)
                    (traceOf (Once c (cancelCtx false)) w)).
  { eapply Forall_impl; [apply Once_events|].
    intros [] He; try reflexivity; discriminate He. }
  unfold traceOf at 1, resultOf.
  destruct (Loop_shape fuel c w)
    as [(x & _ & ->)|[(_ & ->)|(_ & _ & ->)]]; cbn [fst snd cancelsOf repeat].
  - exists (traceOf (Once c (cancelCtx false)) w). auto.
  - exists (traceOf (Once c (cancelCtx false)) w). auto.
  - destruct (loopSelect_cancels c (cancelCtx false) fuel
                (worldOf (Once c (cancelCtx false)) w))
      as (body & -> & Hbody).
    exists (traceOf (Once c (cancelCtx false)) w ++ body).
    split; [rewrite <- app_assoc; reflexivity|].
    apply Forall_app. auto.
Qed.
End LoopProperties.

Lemma Loop_deletions_by_pass_witness :
  dryRun (script.controllerOf []) = false
  /\ exists pods p t s,
      EvListPods (namespace (script.controllerOf []))
        (selector (script.controllerOf [])) pods None
        ∈ traceOf (Loop 3 (script.controllerOf []))
            (script.worldWith [script.old] [] [] [TickCase; StopCase])
      /\ EvNow t
           ∈ traceOf (Loop 3 (script.controllerOf []))
               (script.worldWith [script.old] [] [] [TickCase; StopCase])
      /\ p ∈ pods /\ named "default" "old" p
      /\ skippedPhase (v1.Phase (v1.Status p)) = false
      /\ tooYoung (script.controllerOf []) p t = false
      /\ s ∈ v1.ContainerStatuses (v1.Status p)
      /\ accepted (script.controllerOf []) s = true.
Proof.
  apply (Loop_deletions_by_pass 3 (script.controllerOf [])
           (script.worldWith [script.old] [] [] [TickCase; StopCase])
           "default" "old" None).
  vm_compute. repeat constructor.
Defined.

(** ** The command *)

Section MainProperties.
Context {W : Type} `{rt : Runtime W} {Config : Type}.
Variable ld : k8s.Loader W Config.
Variable zapBuild : zap.Level -> zap.Logger + error.
Implicit Types (m : main.mainCommand) (w : W).

(** [New] on the options of [runDeleter]. *)
Lemma New_main (cl : k8s.Client W) lg m :
  New (k8s.lister cl) (k8s.deleter cl) (main.controllerOptions m lg)
  = (Some (mainController cl lg m), None).
Proof. reflexivity. Qed.

Lemma mainController_reasons (cl : k8s.Client W) lg m r :
  is_Some (reasonsMap (mainController cl lg m) !! r) <-> r ∈ DefaultReasons.
Proof.
  cbn [mainController reasonsMap].
  rewrite fillReasonsMap_lookup, lookup_empty.
  split; [intros [?|[? ?]]; [assumption|discriminate]|auto].
Qed.

(** What [runDeleter] does once it has a client and a logger. *)
Lemma runDeleter_run fuel m cl lg w :
  k8s.New ld (main.kubeconfig m) (main.kubeContext m) = inl cl ->
  zapBuild (main.logLevel m) = inl lg ->
  main.runDeleter ld zapBuild fuel m w
  = if main.once m then
      (Some (resultOf (Once (mainController cl lg m) (cancelCtx false)) w),
       worldOf (Once (mainController cl lg m) (cancelCtx false)) w,
       traceOf (Once (mainController cl lg m) (cancelCtx false)) w)
    else Loop fuel (mainController cl lg m) w.
Proof.
  intros Hcl Hlg. unfold main.runDeleter, main.createLogger.
  rewrite Hcl, Hlg, New_main.
  destruct (main.once m); [|reflexivity].
  unfold bind, ret, resultOf, worldOf, traceOf.
  destruct (Once (mainController cl lg m) (cancelCtx false) w)
    as [[r w'] tr].
  cbn [fst snd]. rewrite app_nil_r. reflexivity.
Qed.

(** X12. With a client and a logger, [runDeleter] always gets its
    controller: it runs one pass, or the loop, of the controller that has
    the namespace, the selector, the dry-run flag, the grace and the
    interval of the command line, the logger made, and the default
    reasons.  The reasons of the command line take no part: with any
    other reasons the command does the same.  The command panics only
    when it runs the loop with an interval that is not positive. *)
Theorem runDeleter_controller fuel m cl lg w :
  k8s.New ld (main.kubeconfig m) (main.kubeContext m) = inl cl ->
  zapBuild (main.logLevel m) = inl lg ->
  main.runDeleter ld zapBuild fuel m w
  = (if main.once m then
       (Some (resultOf (Once (mainController cl lg m) (cancelCtx false)) w),
        worldOf (Once (mainController cl lg m) (cancelCtx false)) w,
        traceOf (Once (mainController cl lg m) (cancelCtx false)) w)
     else Loop fuel (mainController cl lg m) w)
  /\ (forall rs,
         main.runDeleter ld zapBuild fuel (withReasons rs m) w
         = main.runDeleter ld zapBuild fuel m w)
  /\ (resultOf (main.runDeleter ld zapBuild fuel m) w = Some Panic ->
      main.once m = false /\ main.interval m <= 0).
Proof.
  intros Hcl Hlg.
  split; [apply runDeleter_run; assumption|].
  split; [reflexivity|].
  unfold resultOf at 1. rewrite (runDeleter_run fuel m cl lg w Hcl Hlg).
  assert (Hnew : New (k8s.lister cl) (k8s.deleter cl)
                   (main.controllerOptions m lg)
                 = (Some (mainController cl lg m), None))
    by apply New_main.
  assert (Hlogger : logger (mainController cl lg m) <> None)
    by discriminate.
  assert (Honce : forall w0,
             resultOf (Once (mainController cl lg m) (cancelCtx false)) w0
             <> Panic).
  { intros w0 Hp. rewrite Once_result in Hp.
    destruct (listError (mainController cl lg m) w0); [discriminate Hp|].
    apply rangePods_panic in Hp. contradiction. }
  destruct (main.once m); cbn [fst snd].
  - intros [= Hp]. destruct (Honce w Hp).
  - intros Hp. split; [reflexivity|].
    destruct (Z_le_gt_dec (main.interval m) 0) as [Hi|Hi]; [exact Hi|].
    exfalso.
    destruct (resultOf (Once (mainController cl lg m) (cancelCtx false)) w)
      as [[e|]|] eqn:Hres.
    + rewrite (Loop_first_error fuel _ w e Hres) in Hp. discriminate Hp.
    + rewrite (Loop_enters fuel _ w Hres) in Hp by (cbn; lia).
      pose proof (loopSelect_no_panic (mainController cl lg m)
                    (cancelCtx false) fuel
                    (worldOf (Once (mainController cl lg m)
                                (cancelCtx false)) w) Hlogger) as Hls.
      destruct (loopSelect fuel (mainController cl lg m) (cancelCtx false)
                  (emit EvCancel)
                  (worldOf (Once (mainController cl lg m)
                              (cancelCtx false)) w)) as [[r w'] tr].
      cbn [fst snd] in *. contradiction.
    + exact (Honce _ Hres).
Qed.

(** X13. Whatever the reasons of the command line, every deletion of
    [runDeleter] is for the default reasons: the command is not in
    dry-run mode, and its trace holds a listing of the namespace and the
    selector of the command line that succeeded and lists a pod of that
    namespace and name, whose phase is not skipped, created at least the
    grace of the command line before a reading of the clock in the
    trace, and which has a container status whose reason is
    "CrashLoopBackOff" or "Error". *)
Theorem runDeleter_deletions fuel m w ns name err :
  EvDeletePod ns name err ∈ traceOf (main.runDeleter ld zapBuild fuel m) w ->
  main.dryRun m = false
  /\ exists pods p t s,
      EvListPods (main.namespace m) (main.selector m) pods None
        ∈ traceOf (main.runDeleter ld zapBuild fuel m) w
      /\ EvNow t ∈ traceOf (main.runDeleter ld zapBuild fuel m) w
      /\ p ∈ pods /\ named ns name p
      /\ skippedPhase (v1.Phase (v1.Status p)) = false
      /\ v1.CreationTimestamp (v1.Meta p) + main.grace m <= t
      /\ s ∈ v1.ContainerStatuses (v1.Status p)
      /\ statusReason s ∈ ["CrashLoopBackOff"; "Error"].
Proof.
  destruct (k8s.New ld (main.kubeconfig m) (main.kubeContext m))
    as [cl|e] eqn:Hcl;
    [|unfold traceOf, main.runDeleter; rewrite Hcl; intros Hin;
      inversion Hin].
  destruct (zapBuild (main.logLevel m)) as [lg|e] eqn:Hlg;
    [|unfold traceOf, main.runDeleter, main.createLogger;
      rewrite Hcl, Hlg; intros Hin; inversion Hin].
  assert (Hgrace : forall p t,
             tooYoung (mainController cl lg m) p t = false ->
             v1.CreationTimestamp (v1.Meta p) + main.grace m <= t).
  { intros p t. unfold tooYoung, time.After, time.Add.
    cbn [mainController grace]. intros H. apply Z.ltb_ge in H. exact H. }
  assert (Hpass : forall w0 (tr : list Event),
             (forall e, e ∈ traceOf (Once (mainController cl lg m)
                                       (cancelCtx false)) w0 -> e ∈ tr) ->
             EvDeletePod ns name err
               ∈ traceOf (Once (mainController cl lg m) (cancelCtx false))
                   w0 ->
             main.dryRun m = false
             /\ exists pods p t s,
                 EvListPods (main.namespace m) (main.selector m) pods None
                   ∈ tr
                 /\ EvNow t ∈ tr
                 /\ p ∈ pods /\ named ns name p
                 /\ skippedPhase (v1.Phase (v1.Status p)) = false
                 /\ v1.CreationTimestamp (v1.Meta p) + main.grace m <= t
                 /\ s ∈ v1.ContainerStatuses (v1.Status p)
                 /\ statusReason s ∈ ["CrashLoopBackOff"; "Error"]).
  { intros w0 tr Hsub Hin.
    apply Once_deletion_listed in Hin
      as (Hdry & p & t & s & Hl & Ht & Hp & Hn & Hph & Hy & Hs & Hacc).
    split; [exact Hdry|].
    exists (listed (mainController cl lg m) w0), p, t, s.
    split; [apply Hsub, Hl|]. split; [apply Hsub, Ht|].
    repeat split; try assumption; try apply Hn.
    - apply Hgrace, Hy.
    - apply (mainController_reasons cl lg m), accepted_true, Hacc. }
  unfold traceOf at 1 2 3. rewrite (runDeleter_run fuel m cl lg w Hcl Hlg).
  destruct (main.once m).
  - cbn [snd]. apply Hpass. auto.
  - intros Hin.
    destruct (Loop_passes fuel (mainController cl lg m) w _ Hin eq_refl)
      as (tr1 & w0 & tr2 & Htr & Hin0).
    apply (Hpass w0); [|exact Hin0].
    intros e He. fold (traceOf (Loop fuel (mainController cl lg m)) w).
    rewrite Htr, !elem_of_app. auto.
Qed.
End MainProperties.

Lemma runDeleter_controller_witness :
  main.runDeleter scriptLoader scriptBuild 0
    (commandLine ["Completed"] false true) (script.world [script.old])
  = (Some (resultOf
             (Once (mainController scriptClient zap.NewNop
                      (commandLine ["Completed"] false true))
                (cancelCtx false)) (script.world [script.old])),
     worldOf
       (Once (mainController scriptClient zap.NewNop
                (commandLine ["Completed"] false true))
          (cancelCtx false)) (script.world [script.old]),
     traceOf
       (Once (mainController scriptClient zap.NewNop
                (commandLine ["Completed"] false true))
          (cancelCtx false)) (script.world [script.old])).
Proof.
  apply (proj1 (runDeleter_controller scriptLoader scriptBuild 0
                  (commandLine ["Completed"] false true) scriptClient
                  zap.NewNop (script.world [script.old])
                  eq_refl eq_refl)).
Defined.

Lemma runDeleter_deletions_witness :
  main.dryRun (commandLine ["Completed"] false true) = false
  /\ exists pods p t s,
      EvListPods (main.namespace (commandLine ["Completed"] false true))
        (main.selector (commandLine ["Completed"] false true)) pods None
        ∈ traceOf (main.runDeleter scriptLoader scriptBuild 0
                     (commandLine ["Completed"] false true))
            (script.world [script.old])
      /\ EvNow t
           ∈ traceOf (main.runDeleter scriptLoader scriptBuild 0
                        (commandLine ["Completed"] false true))
               (script.world [script.old])
      /\ p ∈ pods /\ named "default" "old" p
      /\ skippedPhase (v1.Phase (v1.Status p)) = false
      /\ v1.CreationTimestamp (v1.Meta p)
         + main.grace (commandLine ["Completed"] false true) <= t
      /\ s ∈ v1.ContainerStatuses (v1.Status p)
      /\ statusReason s ∈ ["CrashLoopBackOff"; "Error"].
Proof.
  apply (runDeleter_deletions scriptLoader scriptBuild 0
           (commandLine ["Completed"] false true)
           (script.world [script.old]) "default" "old" None).
  vm_compute. repeat constructor.
Defined.

(** ** Values that are nil *)

Section NilProperties.
Context {W : Type} `{rt : Runtime W}.
Implicit Types (c : nilable.Controller W) (w : W).

(** *** On values that are not nil, the controller of [controller] *)

Lemma hasReason_lift (c0 : Controller W) reason :
  nilable.hasReason (nilable.lift c0) reason
  = bool_decide (is_Some (reasonsMap c0 !! reason)).
Proof. reflexivity. Qed.

Lemma rangeStatuses_lift (c0 : Controller W) lg pod ss w :
  nilable.rangeStatuses (nilable.lift c0) lg pod ss w
  = let '(r, w', tr) := rangeStatuses c0 lg pod ss w in (Return r, w', tr).
Proof.
  revert w. induction ss as [|s ss IH]; intros w; [reflexivity|].
  cbn [nilable.rangeStatuses rangeStatuses]. rewrite hasReason_lift.
  unfold bind, ret, logDebug, logInfo, emit, callDeletePod.
  cbn beta iota.
  destruct (reasonsMap c0 !! statusReason s) as [b|] eqn:Hm.
  - rewrite bool_decide_eq_true_2 by eauto. cbn [negb].
    cbn [nilable.lift nilable.dryRun nilable.deleter].
    destruct (dryRun c0); cbn [negb].
    + rewrite IH. destruct (rangeStatuses c0 lg pod ss w) as [[r w'] tr].
      reflexivity.
    + destruct (DeletePod (deleter c0) (v1.Namespace (v1.Meta pod))
                  (v1.Name (v1.Meta pod)) w) as [[e|] w1].
      * destruct (k8sErrors.IsNotFound e); cbn [negb]; [|reflexivity].
        rewrite IH.
        destruct (rangeStatuses c0 lg pod ss w1) as [[r w'] tr].
        reflexivity.
      * rewrite IH.
        destruct (rangeStatuses c0 lg pod ss w1) as [[r w'] tr].
        reflexivity.
  - rewrite bool_decide_eq_false_2 by (intros [? ?]; discriminate).
    cbn [negb]. rewrite IH.
    destruct (rangeStatuses c0 lg pod ss w) as [[r w'] tr]. reflexivity.
Qed.

Lemma rangePods_lift (c0 : Controller W) ctx pods w :
  nilable.rangePods (nilable.lift c0) (Some ctx) pods w
  = rangePods c0 ctx pods w.
Proof.
  revert w. induction pods as [|pod pods IH]; intros w; [reflexivity|].
  cbn [nilable.rangePods rangePods].
  unfold bind, ret, ctxDone, timeNow, logDebug, emit. cbn beta iota.
  destruct (Done ctx w) as [[|] w1]; [reflexivity|].
  cbn [nilable.lift nilable.logger nilable.grace].
  destruct (logger c0) as [lg|]; [|reflexivity].
  destruct (skippedPhase (v1.Phase (v1.Status pod))).
  { rewrite IH. reflexivity. }
  destruct (time_Now w1) as [t w2].
  destruct (time.After _ t).
  { rewrite IH. reflexivity. }
  rewrite rangeStatuses_lift.
  destruct (rangeStatuses c0 _ pod _ w2) as [[[e|] w3] tr];
    [reflexivity|].
  rewrite IH. reflexivity.
Qed.

(** A pass on a lister, a deleter, a context and a map that are not nil
    is the pass of [controller]. *)
Lemma Once_lift (c0 : Controller W) ctx w :
  nilable.Once (nilable.lift c0) (Some ctx) w = Once c0 ctx w.
Proof.
  unfold nilable.Once, Once, bind, ret, callListPods.
  cbn [nilable.lift nilable.lister nilable.namespace nilable.selector].
  destruct (ListPods (lister c0) (namespace c0) (selector c0) w)
    as [[pods [e|]] w1]; cbn [fst snd]; [reflexivity|].
  rewrite rangePods_lift. reflexivity.
Qed.

Lemma applyOptions_lift os os' (c0 : Controller W) :
  Forall2 sameOption os os' ->
  nilable.applyOptions os' (nilable.lift c0)
  = (nilable.lift (applyOptions os c0).1, (applyOptions os c0).2).
Proof.
  intros Hsame. revert c0.
  induction Hsame as [|o o' os os' Ho _ IH]; intros c0; [reflexivity|].
  cbn [nilable.applyOptions applyOptions].
  destruct Ho; cbn;
    match goal with
    | |- context [applyOptions os ?c1] => exact (IH c1)
    end.
Qed.

(** [New] on a lister and a deleter that are not nil, with options of
    the package, is the [New] of [controller]. *)
Lemma New_lift l d os os' :
  Forall2 sameOption os os' ->
  nilable.New (Some l) (Some d) os' = liftNew (New l d os).
Proof.
  intros Hsame.
  pose proof (applyOptions_lift os os' (initial l d) Hsame) as Happ.
  unfold nilable.lift at 1 in Happ. unfold initial in Happ.
  cbn [lister deleter namespace selector logger grace interval dryRun
       reasons reasonsMap] in Happ.
  unfold nilable.New, New, liftNew. rewrite Happ.
  destruct (applyOptions os _) as [c1 [e|]]; cbn [fst snd];
    [reflexivity|].
  assert (Hfill : forall c2 : Controller W,
             nilable.fillReasonsMap (nilable.reasons (nilable.lift c2))
               (nilable.reasonsMap (nilable.lift c2))
             = nilable.Returned
                 (Some (fillReasonsMap (reasons c2) (reasonsMap c2)))).
  { intros c2. cbn [nilable.lift nilable.reasons nilable.reasonsMap].
    destruct (reasons c2); reflexivity. }
  cbn [nilable.lift nilable.logger].
  destruct (logger c1) as [lg|] eqn:Hlg.
  - rewrite (Hfill c1). reflexivity.
  - destruct zap_NewProduction as [lg|e]; [|reflexivity].
    change (nilable.set_logger (Some lg) (nilable.lift c1))
      with (nilable.lift (set_logger (Some lg) c1)).
    rewrite (Hfill (set_logger (Some lg) c1)). reflexivity.
Qed.

(** *** [New] *)

Lemma nil_applyOptions_package options c :
  Forall nilPackageOption options ->
  exists c', nilable.applyOptions options c = (c', None)
             /\ nilable.lister c' = nilable.lister c
             /\ nilable.deleter c' = nilable.deleter c
             /\ nilable.reasonsMap c' = nilable.reasonsMap c.
Proof.
  intros Hall. revert c.
  induction Hall as [|o options Ho _ IH]; intros c; [exists c; auto|].
  cbn [nilable.applyOptions].
  destruct Ho; cbn;
    match goal with
    | |- context [nilable.applyOptions options ?c1] =>
        destruct (IH c1) as (c' & -> & ? & ? & ?); exists c'; auto
    end.
Qed.

(** X1. [New] does not look at its lister and its deleter: with options
    of the package it never panics and never fails on an option,
    whether the lister and the deleter are nil or not.  Either it
    returns a controller that holds that lister and that deleter as
    they are, has a logger, and whose map sends to true exactly the
    reasons of the controller; or the options have left no logger,
    [zap.NewProduction] fails, and [New] returns its error wrapped. *)
Theorem New_package_options l d (options : list (nilable.Option_ W)) :
  Forall nilPackageOption options ->
  (exists c m,
      nilable.New l d options = nilable.Returned (Some c, None)
      /\ nilable.lister c = l /\ nilable.deleter c = d
      /\ nilable.logger c <> None
      /\ nilable.reasonsMap c = Some m
      /\ forall r,
          m !! r
          = if bool_decide (r ∈ nilable.reasons c) then Some true
            else None)
  \/ (exists e,
         zap_NewProduction = inr e
         /\ nilable.New l d options
            = nilable.Returned
                (None, Some (errors.Wrap e "failed to create logger"))).
Proof.
  intros Hall. unfold nilable.New.
  match goal with
  | |- context [nilable.applyOptions options ?c0] =>
      destruct (nil_applyOptions_package options c0 Hall)
        as (c' & -> & Hl & Hd & Hm)
  end.
  cbn in Hl, Hd, Hm.
  assert (Hfill : forall rs,
             exists m,
               nilable.fillReasonsMap rs (Some ∅) = nilable.Returned (Some m)
               /\ forall r,
                   m !! r
                   = if bool_decide (r ∈ rs) then Some true else None).
  { intros rs. destruct rs as [|x rs].
    - exists ∅. split; [reflexivity|]. intros r.
      rewrite bool_decide_eq_false_2 by apply not_elem_of_nil.
      apply lookup_empty.
    - eexists. split; [reflexivity|]. intros r.
      rewrite fillReasonsMap_value, lookup_empty. reflexivity. }
  destruct (nilable.logger c') as [lg|] eqn:Hlg.
  - left. destruct (Hfill (nilable.reasons c')) as (m & Hf & Hv).
    rewrite Hm, Hf. eexists _, m. split; [reflexivity|]. cbn.
    rewrite Hlg. repeat split; auto; discriminate.
  - destruct zap_NewProduction as [lg|e]; [|right; eauto].
    left. destruct (Hfill (nilable.reasons c')) as (m & Hf & Hv).
    cbn [nilable.set_logger nilable.reasons nilable.reasonsMap].
    rewrite Hm, Hf. eexists _, m. split; [reflexivity|]. cbn.
    repeat split; auto; discriminate.
Qed.

(** *** A pass *)

Lemma passOutcome_prefix c (P : Prop) r (pre tr : list Event) :
  passOutcome c P r tr -> passOutcome c P r (pre ++ tr).
Proof.
  destruct r as [[x|]|]; cbn; auto.
  intros (Hdry & Hdel & tr1 & ns & name & err & -> & Hnf & ->).
  split; [exact Hdry|]. split; [exact Hdel|].
  exists (pre ++ tr1), ns, name, err. rewrite <- app_assoc. auto.
Qed.

Lemma passOutcome_impl c (P Q : Prop) r (tr : list Event) :
  (P -> Q) -> passOutcome c P r tr -> passOutcome c Q r tr.
Proof. destruct r as [[x|]|]; cbn; auto. Qed.

Lemma nil_rangeStatuses_outcome c lg pod ss w :
  passOutcome c (nilable.deleter c = None /\ nilable.dryRun c = false)
    (nilable.rangeStatuses c lg pod ss w).1.1
    (nilable.rangeStatuses c lg pod ss w).2.
Proof.
  revert w. induction ss as [|s ss IH]; intros w; [exact I|].
  cbn [nilable.rangeStatuses].
  unfold bind, ret, logDebug, logInfo, emit, callDeletePod.
  cbn beta iota.
  destruct (nilable.hasReason c (statusReason s)); cbn [negb].
  - destruct (nilable.dryRun c) eqn:Hd; cbn [negb].
    + specialize (IH w).
      destruct (nilable.rangeStatuses c lg pod ss w) as [[r w'] tr].
      cbn [fst snd] in *. apply passOutcome_prefix, IH.
    + destruct (nilable.deleter c) as [d|] eqn:Hdel;
        [|cbn; auto].
      destruct (DeletePod d (v1.Namespace (v1.Meta pod))
                  (v1.Name (v1.Meta pod)) w) as [[e|] w1].
      * destruct (k8sErrors.IsNotFound e) eqn:Hnf; cbn [negb fst snd].
        -- specialize (IH w1).
           destruct (nilable.rangeStatuses c lg pod ss w1)
             as [[r w'] tr].
           cbn [fst snd] in *.
           apply passOutcome_prefix, passOutcome_prefix, IH.
        -- cbn. split; [exact Hd|]. split; [congruence|].
           eexists [_], _, _, e. auto.
      * specialize (IH w1).
        destruct (nilable.rangeStatuses c lg pod ss w1) as [[r w'] tr].
        cbn [fst snd] in *.
        apply passOutcome_prefix, passOutcome_prefix, IH.
  - specialize (IH w).
    destruct (nilable.rangeStatuses c lg pod ss w) as [[r w'] tr].
    cbn [fst snd] in *. apply passOutcome_prefix, IH.
Qed.

Lemma nil_rangePods_outcome c ctx pods w :
  passOutcome c
    (pods <> []
     /\ (ctx = None \/ nilable.logger c = None
         \/ (nilable.deleter c = None /\ nilable.dryRun c = false)))
    (nilable.rangePods c ctx pods w).1.1
    (nilable.rangePods c ctx pods w).2.
Proof.
  revert w. induction pods as [|pod pods IH]; intros w; [exact I|].
  cbn [nilable.rangePods].
  destruct ctx as [cx|]; [|cbn; split; [discriminate|auto]].
  unfold bind, ret, ctxDone, timeNow, logDebug, emit. cbn beta iota.
  destruct (Done cx w) as [[|] w1]; [exact I|].
  destruct (nilable.logger c) as [lg|] eqn:Hlg;
    [|cbn; split; [discriminate|auto]].
  assert (Hnext : forall w0,
             passOutcome c
               (pod :: pods <> []
                /\ (Some cx = None \/ Some lg = None
                    \/ (nilable.deleter c = None
                        /\ nilable.dryRun c = false)))
               (nilable.rangePods c (Some cx) pods w0).1.1
               (nilable.rangePods c (Some cx) pods w0).2).
  { intros w0. eapply passOutcome_impl; [|apply IH].
    intros [_ H]. split; [discriminate|exact H]. }
  destruct (skippedPhase (v1.Phase (v1.Status pod))).
  { specialize (Hnext w1).
    destruct (nilable.rangePods c (Some cx) pods w1) as [[r w'] tr].
    cbn [fst snd] in *. apply passOutcome_prefix, passOutcome_prefix.
    exact Hnext. }
  destruct (time_Now w1) as [t w2].
  destruct (time.After _ t).
  { specialize (Hnext w2).
    destruct (nilable.rangePods c (Some cx) pods w2) as [[r w'] tr].
    cbn [fst snd] in *.
    do 3 apply passOutcome_prefix. exact Hnext. }
  match goal with
  | |- context [nilable.rangeStatuses c ?l pod ?ss w2] =>
      pose proof (nil_rangeStatuses_outcome c l pod ss w2) as Hst;
      destruct (nilable.rangeStatuses c l pod ss w2)
        as [[[[x|]|] w3] ts]
  end; cbn [fst snd] in *.
  - do 2 apply passOutcome_prefix. rewrite app_nil_r. exact Hst.
  - specialize (Hnext w3).
    destruct (nilable.rangePods c (Some cx) pods w3) as [[r w'] tr].
    cbn [fst snd] in *.
    do 3 apply passOutcome_prefix. exact Hnext.
  - cbn. split; [discriminate|]. auto.
Qed.

(** X6. What a pass returns, on values that may be nil, is one of four
    things: nil; the error of the listing wrapped with "failed to list
    pods"; outside a dry run and with a deleter, the error of the
    deletion the pass has just issued, other than NotFound, wrapped with
    the namespace and the name it was issued for; or a panic, which
    takes a nil lister, or a listing that is not empty together with a
    nil context, a nil logger, or a nil deleter outside a dry run.  On
    a nil lister the pass panics at once. *)
Theorem Once_outcomes c ctx w :
  (nilable.lister c = None -> nilable.Once c ctx w = (Panic, w, []))
  /\ (resultOf (nilable.Once c ctx) w = Return None
      \/ (exists l e,
             nilable.lister c = Some l
             /\ (ListPods l (nilable.namespace c) (nilable.selector c) w).1.2
                = Some e
             /\ resultOf (nilable.Once c ctx) w
                = Return (Some (errors.Wrap e "failed to list pods")))
      \/ (exists x,
             resultOf (nilable.Once c ctx) w = Return (Some x)
             /\ deleteFailed c (traceOf (nilable.Once c ctx) w) x)
      \/ (resultOf (nilable.Once c ctx) w = Panic
          /\ (nilable.lister c = None
              \/ exists l,
                  nilable.lister c = Some l
                  /\ (ListPods l (nilable.namespace c)
                        (nilable.selector c) w).1.2 = None
                  /\ (ListPods l (nilable.namespace c)
                        (nilable.selector c) w).1.1 <> []
                  /\ (ctx = None \/ nilable.logger c = None
                      \/ (nilable.deleter c = None
                          /\ nilable.dryRun c = false))))).
Proof.
  split.
  { intros Hl. unfold nilable.Once. rewrite Hl. reflexivity. }
  unfold resultOf, traceOf, nilable.Once.
  destruct (nilable.lister c) as [l|]; [|right; right; right; auto].
  unfold bind, ret, callListPods. cbn beta iota.
  destruct (ListPods l (nilable.namespace c) (nilable.selector c) w)
    as [[pods [e|]] w1] eqn:Hlist; cbn [fst snd].
  { right; left. exists l, e. rewrite Hlist. auto. }
  pose proof (nil_rangePods_outcome c ctx pods w1) as Hp.
  destruct (nilable.rangePods c ctx pods w1) as [[[[x|]|] w'] tr];
    cbn [fst snd passOutcome] in *.
  - right; right; left. exists x. split; [reflexivity|].
    apply (passOutcome_prefix c True (Return (Some x)) [_] tr), Hp.
  - left. reflexivity.
  - right; right; right. split; [reflexivity|]. right.
    exists l. rewrite Hlist. destruct Hp as [Hne Hp]. auto.
Qed.

Lemma nil_Once_panic c ctx w :
  resultOf (nilable.Once c ctx) w = Panic ->
  nilable.lister c = None \/ ctx = None \/ nilable.logger c = None
  \/ (nilable.deleter c = None /\ nilable.dryRun c = false).
Proof.
  unfold resultOf, nilable.Once.
  destruct (nilable.lister c) as [l0|]; [|auto].
  unfold bind, ret, callListPods. cbn beta iota.
  destruct (ListPods l0 (nilable.namespace c) (nilable.selector c) w)
    as [[pods [e|]] w1]; cbn [fst snd]; [discriminate|].
  pose proof (nil_rangePods_outcome c ctx pods w1) as Hp.
  destruct (nilable.rangePods c ctx pods w1) as [[[[x|]|] w'] tr];
    cbn [fst snd passOutcome] in *; try discriminate.
  intros _. destruct Hp as [_ Hp]. tauto.
Qed.

Lemma nil_New_package l d (options : list (nilable.Option_ W)) c :
  Forall nilPackageOption options ->
  nilable.New l d options = nilable.Returned (Some c, None) ->
  nilable.lister c = l /\ nilable.deleter c = d.
Proof.
  intros Hall. unfold nilable.New.
  match goal with
  | |- context [nilable.applyOptions options ?c0] =>
      destruct (nil_applyOptions_package options c0 Hall)
        as (c' & -> & Hl & Hd & _)
  end.
  cbn in Hl, Hd.
  destruct (nilable.logger c') as [lg|].
  - destruct (nilable.fillReasonsMap _ _); [|discriminate].
    intros [= <-]. auto.
  - destruct zap_NewProduction; [|discriminate].
    destruct (nilable.fillReasonsMap _ _); [|discriminate].
    intros [= <-]. auto.
Qed.

Lemma nil_New_logger l d (options : list (nilable.Option_ W)) c :
  nilable.New l d options = nilable.Returned (Some c, None) ->
  nilable.logger c <> None.
Proof.
  unfold nilable.New.
  destruct (nilable.applyOptions options _) as [c1 [e|]]; [discriminate|].
  destruct (nilable.logger c1) as [lg|] eqn:Hlg.
  - destruct (nilable.fillReasonsMap _ _); [|discriminate].
    intros [= <-]. cbn. rewrite Hlg. discriminate.
  - destruct zap_NewProduction; [|discriminate].
    destruct (nilable.fillReasonsMap _ _); [|discriminate].
    intros [= <-]. cbn. discriminate.
Qed.

(** X3. A controller [New] returns has a logger, whatever the options
    that returned have done: a pass on it panics only on a nil lister,
    on a nil context, or on a nil deleter outside a dry run.  [New]
    checks neither: after options of the package the controller holds
    the lister and the deleter [New] was given, so that with a lister,
    a deleter and a context that are not nil no pass panics, and with a
    nil lister every pass panics at once, before any call. *)
Theorem New_controller_panics l d (options : list (nilable.Option_ W)) c :
  nilable.New l d options = nilable.Returned (Some c, None) ->
  (forall ctx w,
      resultOf (nilable.Once c ctx) w = Panic ->
      nilable.lister c = None \/ ctx = None
      \/ (nilable.deleter c = None /\ nilable.dryRun c = false))
  /\ (Forall nilPackageOption options ->
      nilable.lister c = l /\ nilable.deleter c = d
      /\ (l = None ->
          forall ctx w, nilable.Once c ctx w = (Panic, w, []))
      /\ (l <> None -> d <> None ->
          forall cx w, resultOf (nilable.Once c (Some cx)) w <> Panic)).
Proof.
  intros Hnew. pose proof (nil_New_logger l d options c Hnew) as Hlg.
  assert (Hpanic : forall ctx w,
             resultOf (nilable.Once c ctx) w = Panic ->
             nilable.lister c = None \/ ctx = None
             \/ (nilable.deleter c = None /\ nilable.dryRun c = false)).
  { intros ctx w Hp.
    destruct (nil_Once_panic c ctx w Hp) as [H|[H|[H|H]]]; auto.
    contradiction. }
  split; [exact Hpanic|].
  intros Hall.
  destruct (nil_New_package l d options c Hall Hnew) as [Hl Hd].
  split; [exact Hl|]. split; [exact Hd|]. split.
  - intros -> ctx w. unfold nilable.Once. rewrite Hl. reflexivity.
  - intros Hnl Hnd cx w Hp.
    destruct (Hpanic (Some cx) w Hp) as [H|[H|[H _]]]; congruence.
Qed.
End NilProperties.

Lemma New_package_options_witness :
  exists c m,
    nilable.New (W := script.World) None None
      [nilable.WithLogger None; nilable.WithReasons ["Error"]]
    = nilable.Returned (Some c, None)
    /\ nilable.lister c = None /\ nilable.deleter c = None
    /\ nilable.logger c <> None
    /\ nilable.reasonsMap c = Some m
    /\ forall r,
        m !! r
        = if bool_decide (r ∈ nilable.reasons c) then Some true else None.
Proof.
  destruct (New_package_options (W := script.World) None None
              [nilable.WithLogger None; nilable.WithReasons ["Error"]])
    as [H|(e & He & _)].
  - repeat constructor.
  - exact H.
  - discriminate He.
Defined.

Lemma New_controller_panics_witness :
  nilable.Once (nilControllerOf None (Some script.deleter) [])
    (Some script.ctx) (script.world [script.old])
  = (Panic, script.world [script.old], [])
  /\ resultOf
       (nilable.Once
          (nilControllerOf (Some script.lister) (Some script.deleter) [])
          (Some script.ctx)) (script.world [script.old])
     <> Panic.
Proof.
  assert (Hnil : nilable.New None (Some script.deleter) []
                 = nilable.Returned
                     (Some (nilControllerOf None (Some script.deleter) []),
                      None))
    by (vm_compute; reflexivity).
  assert (Hsome : nilable.New (Some script.lister) (Some script.deleter) []
                  = nilable.Returned
                      (Some (nilControllerOf (Some script.lister)
                               (Some script.deleter) []), None))
    by (vm_compute; reflexivity).
  split.
  - destruct (New_controller_panics None (Some script.deleter) []
                (nilControllerOf None (Some script.deleter) []) Hnil)
      as [_ H].
    destruct (H (List.Forall_nil _)) as (_ & _ & Hpanic & _).
    apply Hpanic. reflexivity.
  - destruct (New_controller_panics (Some script.lister)
                (Some script.deleter) []
                (nilControllerOf (Some script.lister)
                   (Some script.deleter) []) Hsome)
      as [_ H].
    destruct (H (List.Forall_nil _)) as (_ & _ & _ & Hnever).
    apply Hnever; discriminate.
Defined.

Lemma Once_outcomes_witness :
  nilable.Once (nilControllerOf None None [nilable.WithDryRun true]) None
    (script.world [script.old])
  = (Panic, script.world [script.old], []).
Proof.
  apply (proj1 (Once_outcomes
                  (nilControllerOf None None [nilable.WithDryRun true])
                  None (script.world [script.old]))).
  reflexivity.
Defined.
